(** * Chord global scheduler: dispatch, migration and redispatch policies

    A shallow embedding of

    - [llumnix_part/global_scheduler/dispatch_policy_Chord.py]
      (the dispatch policies),
    - [llumnix_part/global_scheduler/migration_policy_Chord.py]
      ([Urgency], [Balanced], [Defrag]),
    - [llumnix_part/global_scheduler/global_scheduler_Chord.py]
      ([GlobalScheduler]),

    and the properties of these functions.

    Python [int] is [Z]; Python [float] is IEEE 754 binary64, given by the
    standard library's [spec_float] at precision 53; a [dict] whose
    iteration order decides a result is an association list in insertion
    order, any other [dict] is a [gmap]; a [set] is a [gset].  A raised
    exception is [None] at the outermost [option] of a result.  Calls to
    the logger are left out, and so are the lists that only copy
    attributes to be logged; the list [avg_pend_time], also built for the
    log, is kept where it decides whether a call returns, because its
    quotient can raise. *)

From Stdlib Require Import ZArith List Lia Bool.
From Stdlib Require Import Floats.SpecFloat.
From stdpp Require Import gmap strings list sorting.

Local Open Scope Z_scope.
Set Warnings "-clear-no-such-hyp".

(** ** Python built-ins *)

Module Py.

(** [sorted(l, key=...)] is stable and compares keys with [<] only.  It is
    written here as the insertion of each element, from the last to the
    first, in front of the first element whose key is not smaller.  Where
    [<] is a strict weak order on the keys (integers, strings, floats
    other than NaN) this is the result of every stable sort, CPython's
    among them.  Where it is not (a NaN among float keys) the list that
    CPython returns depends on the comparisons its merge sort happens to
    make, which are not modelled: [sorted] is then a permutation of the
    argument that need not be CPython's.  A property below that depends on
    the order of the result is stated for keys that are not NaN. *)
Section Sorted.
Context {A K : Type}.
Variable lt : K -> K -> bool.
Variable key : A -> K.

Fixpoint insert_by (x : A) (l : list A) : list A :=
  match l with
  | [] => [x]
  | y :: l' => if lt (key y) (key x) then y :: insert_by x l' else x :: y :: l'
  end.

Definition sorted (l : list A) : list A := foldr insert_by [] l.

(** [sorted(l, key=..., reverse=True)]: CPython reverses the list, sorts
    it, and reverses it again, which keeps equal keys in input order. *)
Definition sorted_reverse (l : list A) : list A := rev (sorted (rev l)).

(** The first element with the least key: what [sorted(...)[0]] is. *)
Fixpoint first_min (l : list A) : option A :=
  match l with
  | [] => None
  | x :: l' =>
      Some match first_min l' with
           | None => x
           | Some m => if lt (key m) (key x) then m else x
           end
  end.

(** The last element with the greatest key. *)
Fixpoint last_max (l : list A) : option A :=
  match l with
  | [] => None
  | x :: l' =>
      Some match last_max l' with
           | None => x
           | Some m => if lt (key m) (key x) then x else m
           end
  end.
End Sorted.

(** [min(l, key=...)]: the first element whose key is least; [None] is the
    [ValueError] on an empty argument. *)
Definition min_by {A : Type} (key : A -> Z) (l : list A) : option A :=
  match l with
  | [] => None
  | x :: l' => Some (fold_left (fun best y => if key y <? key best then y else best) l' x)
  end.

(** [max(l)] on a list of integers. *)
Definition max (l : list Z) : option Z :=
  match l with
  | [] => None
  | x :: l' => Some (fold_left (fun best y => if best <? y then y else best) l' x)
  end.

End Py.

(** ** IEEE 754 binary64 *)

Module F64.
Definition prec : Z := 53.
Definition emax : Z := 1024.

Definition sub := SFsub prec emax.
Definition add := SFadd prec emax.
Definition div := SFdiv prec emax.
Definition ltb := SFltb.
Definition leb := SFleb.
Definition eqb := SFeqb.

Definition zero : spec_float := S754_zero false.
Definition neg_inf : spec_float := S754_infinity true.

(** The literal [1e-5], that is [0x1.4f8b588e368f1p-17]. *)
Definition lit_1e_5 : spec_float := S754_finite false 5902958103587057 (-69).

Definition is_nan (x : spec_float) : bool :=
  match x with S754_nan => true | _ => false end.

Definition is_zero (x : spec_float) : bool :=
  match x with S754_zero _ => true | _ => false end.

(** [float(n)] for an integer: rounded to nearest even; [None] is the
    [OverflowError] of an integer too large for a float. *)
Definition of_int (n : Z) : option spec_float :=
  match binary_normalize prec emax n 0 false with
  | S754_infinity _ => None
  | x => Some x
  end.

(** [x / y] on floats; [None] is the [ZeroDivisionError]. *)
Definition truediv (x y : spec_float) : option spec_float :=
  if is_zero y then None else Some (div x y).
End F64.

(** ** InstanceInfo and the request descriptor *)

(** Modelled from the spec: [llumnix.instance_info.InstanceInfo] is imported
    by the three files and declared in none of them; these are the fields
    the scheduler computes with, block and request counts as integers,
    load metrics and the sum of waiting times as floats. *)
Record InstanceInfo : Type := {
  instance_id : string;
  num_total_gpu_blocks : Z;
  num_used_gpu_blocks : Z;
  num_free_gpu_blocks : Z;
  num_watermark_blocks : Z;
  num_waiting_requests : Z;
  num_running_requests : Z;
  migration_load_metric : spec_float;
  migration_load_metric_after_migrate_out : spec_float;
  migration_load_metric_after_migrate_in : spec_float;
  (* the sum of the waiting times of the queued requests, a float *)
  sum_pending : spec_float
}.

(** The list [avg_pend_time] that [Loadv2.dispatch],
    [Urgency.get_dst_instance] and [get_redispatch_dst_infos] each build
    for their log line, [sum_pending / (num_waiting_requests + 1e-5)] for
    every instance: the integer is converted to a float for the sum, the
    quotient is a float division.  [None] is the [OverflowError] of an
    integer too large for a float, or the [ZeroDivisionError]. *)
Definition avg_pend_time (instance_infos : list InstanceInfo) : option (list spec_float) :=
  mapM (fun instance_info =>
          waiting ← F64.of_int (num_waiting_requests instance_info);
          F64.truediv (sum_pending instance_info) (F64.add waiting F64.lit_1e_5))
       instance_infos.

(** Modelled from the spec: a request is an identifier and a block demand. *)
Record Request : Type := {
  request_id : string;
  n_blocks : Z
}.

(** ** dispatch_policy_Chord.py *)

Module Loadv2.

(** The three outcomes of the two tests of [dispatch], named after the
    message each one logs. *)
Inductive situation : Type :=
  | NotOverloaded      (* "System is not overloaded at dispatching." *)
  | GrowingSteadily    (* "The system is growing steadily." *)
  | Overloaded.        (* "System is overloaded. ..." *)

Definition slack (max_used_blocks req_n_blocks : Z) (x : InstanceInfo) : Z :=
  max_used_blocks - num_watermark_blocks x - num_used_gpu_blocks x - req_n_blocks.

Definition overshoot (max_used_blocks req_n_blocks : Z) (x : InstanceInfo) : Z :=
  num_used_gpu_blocks x + req_n_blocks + num_watermark_blocks x - max_used_blocks.

Definition filtered_dst_instance_infos (available : list InstanceInfo) : list InstanceInfo :=
  List.filter (fun x => num_waiting_requests x =? 0) available.

Definition filtered_dst_instance_infos_II
    (max_used_blocks req_n_blocks : Z) (available : list InstanceInfo) : list InstanceInfo :=
  List.filter (fun x => slack max_used_blocks req_n_blocks x >=? 0) available.

Definition situation_of (max_used_blocks req_n_blocks : Z)
    (available : list InstanceInfo) : situation :=
  if (length (filtered_dst_instance_infos available) =? length available)%nat then
    if (0 <? length (filtered_dst_instance_infos_II max_used_blocks req_n_blocks available))%nat
    then NotOverloaded
    else GrowingSteadily
  else Overloaded.

Definition sorted_instance_infos (max_used_blocks req_n_blocks : Z)
    (available : list InstanceInfo) : list InstanceInfo :=
  match situation_of max_used_blocks req_n_blocks available with
  | NotOverloaded =>
      Py.sorted Z.ltb (slack max_used_blocks req_n_blocks)
        (filtered_dst_instance_infos_II max_used_blocks req_n_blocks available)
  | GrowingSteadily =>
      Py.sorted Z.ltb (overshoot max_used_blocks req_n_blocks) available
  | Overloaded =>
      Py.sorted_reverse Z.ltb num_waiting_requests available
  end.

(** The instance whose id [dispatch] returns: [sorted_instance_infos[0]].
    [None] is an exception: that of [avg_pend_time], built before anything
    is decided, or the [ValueError] of [max] on an empty list. *)
Definition chosen (available : list InstanceInfo) (req_n_blocks : Z) : option InstanceInfo :=
  match avg_pend_time available with
  | None => None
  | Some _ =>
      match Py.max (map num_used_gpu_blocks available) with
      | None => None
      | Some max_used_blocks =>
          head (sorted_instance_infos max_used_blocks req_n_blocks available)
      end
  end.

Definition dispatch (available_instance_infos : list InstanceInfo) (req_n_blocks : Z)
    : option string :=
  instance_id <$> chosen available_instance_infos req_n_blocks.

End Loadv2.

Module RoundRobin.

(** The policy object: its only state is the cursor, [-1] in the class. *)
Record t : Type := { prev_instance_idx : Z }.

Definition fresh : t := {| prev_instance_idx := -1 |}.

(** [l[i]] on a list: a negative index counts from the end; [None] is the
    [IndexError]. *)
Definition getitem {A : Type} (l : list A) (i : Z) : option A :=
  let n := Z.of_nat (length l) in
  if (0 <=? i) && (i <? n) then l !! Z.to_nat i
  else if (- n <=? i) && (i <? 0) then l !! Z.to_nat (n + i)
  else None.

Definition all_instance_ids (instance_num_requests : gmap string Z) : list string :=
  Py.sorted String.ltb id (elements (dom instance_num_requests)).

(** [None] is the [ZeroDivisionError] of [% 0] on an empty dict. *)
Definition dispatch (self : t) (instance_num_requests : gmap string Z)
    : option (string * t) :=
  let ids := all_instance_ids instance_num_requests in
  let n := Z.of_nat (length ids) in
  if n =? 0 then None
  else
    let cur_instance_idx := (prev_instance_idx self + 1) mod n in
    target_instance_id ← getitem ids cur_instance_idx;
    Some (target_instance_id, {| prev_instance_idx := cur_instance_idx |}).

(** [k] successive calls on the same policy object. *)
Fixpoint dispatch_many (k : nat) (self : t) (instance_num_requests : gmap string Z)
    : option (list string * t) :=
  match k with
  | O => Some ([], self)
  | S k' =>
      '(target, self') ← dispatch self instance_num_requests;
      '(targets, self'') ← dispatch_many k' self' instance_num_requests;
      Some (target :: targets, self'')
  end.

End RoundRobin.

(** ** migration_policy_Chord.py *)

Module Urgency.

(** The result is a list of ids or Python's [None]. *)
Definition get_src_instances (src_instance_infos : list InstanceInfo)
    : option (list string) :=
  let filtered_src_instance_infos :=
    List.filter (fun x => 0 <? num_waiting_requests x) src_instance_infos in
  if negb (length filtered_src_instance_infos =? 0)%nat then
    let sorted_src_instance_infos :=
      Py.sorted_reverse Z.ltb num_waiting_requests src_instance_infos in
    Some (instance_id <$> sorted_src_instance_infos)
  else None.

Definition admissible (req_n_blocks : Z) (x : InstanceInfo) : bool :=
  0 <? num_free_gpu_blocks x - num_watermark_blocks x - req_n_blocks.

(** The sort key [x.num_free_gpu_blocks / (x.num_running_requests + 1e-5)]:
    both integers are converted to floats, the sum and the quotient are
    float operations. *)
Definition dst_key (x : InstanceInfo) : option spec_float :=
  running ← F64.of_int (num_running_requests x);
  free ← F64.of_int (num_free_gpu_blocks x);
  F64.truediv free (F64.add running F64.lit_1e_5).

(** [sorted] computes the key of every element before it compares any. *)
Definition with_keys (l : list InstanceInfo) : option (list (spec_float * InstanceInfo)) :=
  mapM (fun x => k ← dst_key x; Some (k, x)) l.

(** The outer [option] is an exception, the inner one Python's [None].
    [avg_pend_time] is built, over all of [dst_instance_infos], before the
    filter. *)
Definition get_dst_instance (dst_instance_infos : list InstanceInfo)
    (src_instance_id : string) (target_request : Request) : option (option string) :=
  let req_n_blocks := n_blocks target_request in
  _ ← avg_pend_time dst_instance_infos;
  let filtered_dst_instance_infos :=
    List.filter (admissible req_n_blocks) dst_instance_infos in
  if negb (length filtered_dst_instance_infos =? 0)%nat then
    keyed ← with_keys filtered_dst_instance_infos;
    first ← head (Py.sorted_reverse F64.ltb fst keyed);
    let target_dst := instance_id (snd first) in
    if String.eqb target_dst src_instance_id then Some None
    else Some (Some target_dst)
  else Some None.

End Urgency.

Module Balanced.

(** [PairMigrationPolicy.sort_instance_infos], on [migration_load_metric]. *)
Definition sort_instance_infos (instance_infos : list InstanceInfo) (descending : bool)
    : list InstanceInfo :=
  if descending then Py.sorted_reverse F64.ltb migration_load_metric instance_infos
  else Py.sorted F64.ltb migration_load_metric instance_infos.

(** The body of the loop for one index [i]: [true] when the pair is
    appended. *)
Definition accepted (migrate_out_load_threshold : spec_float) (src dst : InstanceInfo) : bool :=
  let load_diff_before_mig :=
    F64.sub (migration_load_metric src) (migration_load_metric dst) in
  let left_load_after_mig := migration_load_metric_after_migrate_out src in
  let right_load_after_mig := migration_load_metric_after_migrate_in dst in
  if F64.ltb migrate_out_load_threshold right_load_after_mig then false
  else
    let load_diff_after_mig := F64.sub left_load_after_mig right_load_after_mig in
    (F64.ltb F64.zero load_diff_after_mig
       && F64.ltb load_diff_after_mig load_diff_before_mig)
    || F64.eqb (migration_load_metric dst) F64.neg_inf.

(** The accepted pairs, as instances. *)
Definition migrate_instance_infos (migrate_out_load_threshold : spec_float)
    (src_instance_infos dst_instance_infos : list InstanceInfo)
    : list (InstanceInfo * InstanceInfo) :=
  let sorted_src_instance_infos := sort_instance_infos src_instance_infos true in
  let sorted_dst_instance_infos := sort_instance_infos dst_instance_infos false in
  List.filter (fun p => accepted migrate_out_load_threshold (fst p) (snd p))
    (zip sorted_src_instance_infos sorted_dst_instance_infos).

Definition pair_migration (migrate_out_load_threshold : spec_float)
    (src_instance_infos dst_instance_infos : list InstanceInfo)
    : list (string * string) :=
  (fun p => (instance_id (fst p), instance_id (snd p)))
    <$> migrate_instance_infos migrate_out_load_threshold
          src_instance_infos dst_instance_infos.

End Balanced.

(** ** global_scheduler_Chord.py *)

Module GlobalScheduler.

(** The fields of [GlobalScheduler] that the methods below read or write.
    The three sub-schedulers are objects of classes declared in other
    files; [_add_instance] passes them the table and the new id, and what
    they keep of it is not part of this state. *)
Record t : Type := {
  num_instances : Z;
  instance_id_set : gset string;
  instance_info : gmap string InstanceInfo
}.

Definition init : t :=
  {| num_instances := 0; instance_id_set := ∅; instance_info := ∅ |}.

Definition set_instance_info (self : t) (table : gmap string InstanceInfo) : t :=
  {| num_instances := num_instances self;
     instance_id_set := instance_id_set self;
     instance_info := table |}.

Definition update_instance_infos (self : t) (instance_infos : list InstanceInfo) : t :=
  fold_left
    (fun self info =>
       if decide (instance_id info ∈ instance_id_set self)
       then set_instance_info self (<[instance_id info := info]> (instance_info self))
       else self)
    instance_infos self.

(** *** The redispatch planner *)

(** [candidate_instances]: a dict from an instance id to the two-element
    list [[free_blocks, num_used_blocks]], in insertion order. *)
Definition Candidates : Type := list (string * (Z * Z)).

(** [redispatch_plans] inside the loop: destination id to the requests
    placed on it, in insertion order. *)
Definition Plans : Type := list (string * list Request).

Definition free_of (e : string * (Z * Z)) : Z := fst (snd e).
Definition used_of (e : string * (Z * Z)) : Z := snd (snd e).

(** [candidate_instances[instance_id]]; [None] is the [KeyError]. *)
Fixpoint getitem (c : Candidates) (instance_id : string) : option (Z * Z) :=
  match c with
  | [] => None
  | (k, v) :: c' => if String.eqb k instance_id then Some v else getitem c' instance_id
  end.

Definition available_instance_ids (c : Candidates) : list string :=
  fst <$> List.filter (fun e => 0 <? free_of e) c.

(** Every subscript [candidate_instances[instance_id]] of one iteration is
    at an id of [available_instance_ids], on a dict that the iteration
    changes only in its last two statements: the entries are read here
    once, in the order of the ids. *)
Definition entries (c : Candidates) (ids : list string) : option (list (string * (Z * Z))) :=
  mapM (fun instance_id => v ← getitem c instance_id; Some (instance_id, v)) ids.

(** [candidate_instances[target][0] -= n; candidate_instances[target][1] += n] *)
Fixpoint commit (target : string) (n : Z) (c : Candidates) : Candidates :=
  match c with
  | [] => []
  | (k, (free, used)) :: c' =>
      if String.eqb k target then (k, (free - n, used + n)) :: c'
      else (k, (free, used)) :: commit target n c'
  end.

(** [redispatch_plans[target].append(request)], after the list is created
    when [target] is not yet a key. *)
Fixpoint append_plan (target : string) (request : Request) (plans : Plans) : Plans :=
  match plans with
  | [] => [(target, [request])]
  | (k, requests) :: plans' =>
      if String.eqb k target then (k, requests ++ [request]) :: plans'
      else (k, requests) :: append_plan target request plans'
  end.

(** The destination of one request among the resolved entries, and whether
    the first [min] (below the frontier) or the second (least overshoot)
    chose it.  The outer [None] is an exception, the inner one the
    [break] on an empty [filtered_dst_instances]. *)
Inductive branch : Type := BelowFrontier | LeastOvershoot.

Definition choose (request : Request) (available : list (string * (Z * Z)))
    : option (option (branch * (string * (Z * Z)))) :=
  max_used_blocks ← Py.max (used_of <$> available);
  let filtered_dst_instances :=
    List.filter (fun e => 0 <? free_of e - n_blocks request) available in
  if (length filtered_dst_instances =? 0)%nat then Some None
  else
    let filtered_dst_instances_II :=
      List.filter (fun e => 0 <? max_used_blocks - used_of e - n_blocks request) available in
    if negb (length filtered_dst_instances_II =? 0)%nat then
      target ← Py.min_by (fun e => max_used_blocks - (used_of e + n_blocks request))
                 filtered_dst_instances_II;
      Some (Some (BelowFrontier, target))
    else
      target ← Py.min_by (fun e => used_of e + n_blocks request - max_used_blocks)
                 filtered_dst_instances;
      Some (Some (LeastOvershoot, target)).

(** The state between two iterations of the [for] loop. *)
Inductive loop_state : Type :=
  | Running (c : Candidates) (available_instance_ids : list string) (plans : Plans)
  | Stopped (c : Candidates) (plans : Plans).

Definition candidates_of (st : loop_state) : Candidates :=
  match st with Running c _ _ => c | Stopped c _ => c end.

Definition plans_of (st : loop_state) : Plans :=
  match st with Running _ _ p => p | Stopped _ p => p end.

(** One execution of the loop body. *)
Definition iteration (master_instance_id : string) (request : Request)
    (c : Candidates) (available : list string) (plans : Plans) : option loop_state :=
  resolved ← entries c available;
  choice ← choose request resolved;
  match choice with
  | None => Some (Stopped c plans)
  | Some (_, target) =>
      let target_dst_instance_id := fst target in
      let plans' :=
        if negb (String.eqb target_dst_instance_id master_instance_id)
        then append_plan target_dst_instance_id request plans
        else plans in
      let c' := commit target_dst_instance_id (n_blocks request) c in
      let available' := available_instance_ids c' in
      if (length available' =? 0)%nat then Some (Stopped c' plans')
      else Some (Running c' available' plans')
  end.

Fixpoint loop (master_instance_id : string) (requests : list Request) (st : loop_state)
    : option loop_state :=
  match requests, st with
  | [], _ => Some st
  | _, Stopped _ _ => Some st
  | request :: requests', Running c available plans =>
      st' ← iteration master_instance_id request c available plans;
      loop master_instance_id requests' st'
  end.

Definition post_process (target_requests : list Request) : gset string :=
  list_to_set (request_id <$> target_requests).

Definition post_process_plans (plans : Plans) : list (string * gset string) :=
  (fun p => (fst p, post_process (snd p))) <$> plans.

(** The returned plan, with the dict the caller passed as it is left. *)
Definition derive_redispatching_plans (master_instance_id : string)
    (global_waiting_requests : list Request) (candidate_instances : Candidates)
    : option (list (string * gset string) * Candidates) :=
  let available := available_instance_ids candidate_instances in
  if (length available =? 0)%nat then Some ([], candidate_instances)
  else
    st ← loop master_instance_id global_waiting_requests
           (Running candidate_instances available []);
    Some (post_process_plans (plans_of st), candidates_of st).

(** *** Membership *)

Section ScaleUp.
(** [llumnix.arg_utils.InstanceArgs] is declared elsewhere and only
    handed on to the sub-schedulers. *)
Context {InstanceArgs : Type}.

(** What [self.scaling_scheduler.get_empty_instance_info()] returns, a new
    object at each call; the scaling scheduler is declared in another
    file. *)
Variable empty_instance_info : InstanceInfo.

Definition with_instance_id (info : InstanceInfo) (ins_id : string) : InstanceInfo :=
  {| instance_id := ins_id;
     num_total_gpu_blocks := num_total_gpu_blocks info;
     num_used_gpu_blocks := num_used_gpu_blocks info;
     num_free_gpu_blocks := num_free_gpu_blocks info;
     num_watermark_blocks := num_watermark_blocks info;
     num_waiting_requests := num_waiting_requests info;
     num_running_requests := num_running_requests info;
     migration_load_metric := migration_load_metric info;
     migration_load_metric_after_migrate_out :=
       migration_load_metric_after_migrate_out info;
     migration_load_metric_after_migrate_in :=
       migration_load_metric_after_migrate_in info;
     sum_pending := sum_pending info |}.

Definition _add_instance (self : t) (ins_id : string) (ins_args : InstanceArgs) : t :=
  let ids := {[ins_id]} ∪ instance_id_set self in
  {| num_instances := Z.of_nat (size ids);
     instance_id_set := ids;
     instance_info := instance_info self |}.

(** [instance_id]: a single id or an iterable of ids. *)
Inductive ids_argument : Type :=
  | OneId (ins_id : string)
  | ManyIds (ins_ids : list string).

Definition instance_ids_of (instance_id : ids_argument) : list string :=
  match instance_id with
  | OneId ins_id => [ins_id]
  | ManyIds ins_ids => ins_ids
  end.

Definition scale_up_one (self : t) (p : string * InstanceArgs) : t :=
  let '(ins_id, ins_args) := p in
  if decide (ins_id ∉ instance_id_set self) then
    let new_intance_info := with_instance_id empty_instance_info ins_id in
    _add_instance
      (set_instance_info self (<[ins_id := new_intance_info]> (instance_info self)))
      ins_id ins_args
  else self.

(** The scheduler after the call and the returned [num_instances]. *)
Definition scale_up (self : t) (instance_id : ids_argument)
    (instance_args : list InstanceArgs) : t * Z :=
  let instance_ids := instance_ids_of instance_id in
  let self' := fold_left scale_up_one (zip instance_ids instance_args) self in
  (self', num_instances self').
End ScaleUp.

End GlobalScheduler.

(** ** The other policies and methods *)

Module PyMore.

(** [max(l, key=...)]: the first element whose key is greatest; [None] is
    the [ValueError] on an empty argument. *)
Definition max_by {A : Type} (key : A -> Z) (l : list A) : option A :=
  match l with
  | [] => None
  | x :: l' => Some (fold_left (fun best y => if key best <? key y then y else best) l' x)
  end.

(** [l[:k]]: a negative [k] counts from the end. *)
Definition slice_to {A : Type} (l : list A) (k : Z) : list A :=
  if 0 <=? k then take (Z.to_nat k) l
  else take (Z.to_nat (Z.of_nat (length l) + k)) l.

(** [random.choice(l)], which is [l[randbelow(len(l))]]: [draw] is the
    number the generator yields, brought below the length; [None] is the
    [IndexError] on an empty sequence. *)
Definition choice {A : Type} (draw : nat) (l : list A) : option A :=
  match l with
  | [] => None
  | _ => l !! (draw mod length l)%nat
  end.

(** A dict with string keys, in insertion order; [d[k]] and [d.get(k)] on
    a key of the dict. *)
Definition Dict (V : Type) : Type := list (string * V).

Fixpoint getitem {V : Type} (d : Dict V) (k : string) : option V :=
  match d with
  | [] => None
  | (k', v) :: d' => if String.eqb k' k then Some v else getitem d' k
  end.

(** [d[k] = v]: the value of a key of the dict is replaced in place, a new
    key is added at the end. *)
Fixpoint setitem {V : Type} (d : Dict V) (k : string) (v : V) : Dict V :=
  match d with
  | [] => [(k, v)]
  | (k', v') :: d' =>
      if String.eqb k' k then (k', v) :: d' else (k', v') :: setitem d' k v
  end.

(** The keys of the dict, each with what [d.get] returns for it. *)
Definition keyed_by_get {V : Type} (d : Dict V) : option (list (string * V)) :=
  mapM (fun k => v ← getitem d k; Some (k, v)) (fst <$> d).

End PyMore.

Module Dispatch.

(** [sort_instance_infos]; the attribute named by [key_attr] is given as
    its projection, with the [<] of its type. *)
Definition sort_instance_infos {K : Type} (lt : K -> K -> bool)
    (available_instance_infos : list InstanceInfo) (key_attr : InstanceInfo -> K)
    (descending : bool) : list InstanceInfo :=
  if descending then Py.sorted_reverse lt key_attr available_instance_infos
  else Py.sorted lt key_attr available_instance_infos.

Definition random_choice_from_top_k (draw : nat)
    (sorted_instance_infos : list InstanceInfo) (topk_random_dispatch : Z)
    : option InstanceInfo :=
  let k := Z.min topk_random_dispatch (Z.of_nat (length sorted_instance_infos)) in
  let top_k_instance_infos := PyMore.slice_to sorted_instance_infos k in
  PyMore.choice draw top_k_instance_infos.

(** [Flood.dispatch]: [max(instance_num_requests, key=instance_num_requests.get)]. *)
Definition Flood_dispatch (instance_num_requests : PyMore.Dict Z) : option string :=
  keyed ← PyMore.keyed_by_get instance_num_requests;
  fst <$> PyMore.max_by snd keyed.

(** [Balanced.dispatch]: [min(instance_num_requests, key=instance_num_requests.get)]. *)
Definition Balanced_dispatch (instance_num_requests : PyMore.Dict Z) : option string :=
  keyed ← PyMore.keyed_by_get instance_num_requests;
  fst <$> Py.min_by snd keyed.

(** [Queue.dispatch] *)
Definition Queue_dispatch (draw : nat) (available_instance_infos : list InstanceInfo)
    (topk_random_dispatch : Z) : option string :=
  let sorted_instance_infos :=
    sort_instance_infos Z.ltb available_instance_infos num_waiting_requests false in
  instance_info_chosen ←
    random_choice_from_top_k draw sorted_instance_infos topk_random_dispatch;
  Some (instance_id instance_info_chosen).

Section Load.
(** The attribute [dispatch_load_metric] of [InstanceInfo], a float; the
    class is declared in another file. *)
Variable dispatch_load_metric : InstanceInfo -> spec_float.

(** [Load.dispatch] *)
Definition Load_dispatch (draw : nat) (available_instance_infos : list InstanceInfo)
    (topk_random_dispatch : Z) : option string :=
  let sorted_instance_infos :=
    sort_instance_infos F64.ltb available_instance_infos dispatch_load_metric false in
  instance_info_chosen ←
    random_choice_from_top_k draw sorted_instance_infos topk_random_dispatch;
  Some (instance_id instance_info_chosen).
End Load.

End Dispatch.

Module Defrag.

Definition migrate_instance_infos (src_instance_infos dst_instance_infos : list InstanceInfo)
    : list (InstanceInfo * InstanceInfo) :=
  let sorted_src_instance_infos := Balanced.sort_instance_infos src_instance_infos true in
  let sorted_dst_instance_infos := Balanced.sort_instance_infos dst_instance_infos false in
  zip sorted_src_instance_infos sorted_dst_instance_infos.

Definition pair_migration (src_instance_infos dst_instance_infos : list InstanceInfo)
    : list (string * string) :=
  (fun p => (instance_id (fst p), instance_id (snd p)))
    <$> migrate_instance_infos src_instance_infos dst_instance_infos.

End Defrag.

(** The other methods of [GlobalScheduler]. *)
Module GS.

(** [_remove_instance]; [instance_id_set.remove] raises on an id that is
    not in the set, which its one caller excludes. *)
Definition _remove_instance (self : GlobalScheduler.t) (ins_id : string)
    : option GlobalScheduler.t :=
  if decide (ins_id ∈ GlobalScheduler.instance_id_set self) then
    let ids := GlobalScheduler.instance_id_set self ∖ {[ins_id]} in
    Some {| GlobalScheduler.num_instances := Z.of_nat (size ids);
            GlobalScheduler.instance_id_set := ids;
            GlobalScheduler.instance_info := GlobalScheduler.instance_info self |}
  else None.

Definition scale_down_one (self : GlobalScheduler.t) (ins_id : string)
    : option GlobalScheduler.t :=
  if decide (ins_id ∈ GlobalScheduler.instance_id_set self) then
    let self' :=
      match GlobalScheduler.instance_info self !! ins_id with
      | Some _ =>
          GlobalScheduler.set_instance_info self
            (delete ins_id (GlobalScheduler.instance_info self))
      | None => self
      end in
    _remove_instance self' ins_id
  else Some self.

(** The scheduler after the call and the returned [num_instances]; [None]
    is an exception. *)
Definition scale_down (self : GlobalScheduler.t)
    (instance_id : GlobalScheduler.ids_argument) : option (GlobalScheduler.t * Z) :=
  let instance_ids := GlobalScheduler.instance_ids_of instance_id in
  self' ← foldl (fun acc ins_id => self ← acc; scale_down_one self ins_id)
            (Some self) instance_ids;
  Some (self', GlobalScheduler.num_instances self').

(** The value [get_redispatch_dst_infos] stores for one instance. *)
Definition dst_entry (dst_info : InstanceInfo) : Z * Z :=
  (num_free_gpu_blocks dst_info - num_watermark_blocks dst_info,
   num_used_gpu_blocks dst_info).

(** The dict [required_infos] that [get_redispatch_dst_infos] builds from
    [self.instance_info.values()], in the order of the dict, and returns.
    The lists built after it for the two log lines store nothing in it;
    one of them is [avg_pend_time], and when that raises the call returns
    nothing: this is the dict of every call that returns. *)
Definition get_redispatch_dst_infos (instance_info_values : list InstanceInfo)
    : GlobalScheduler.Candidates :=
  fold_left
    (fun required_infos dst_info =>
       PyMore.setitem required_infos (instance_id dst_info) (dst_entry dst_info))
    instance_info_values [].

(** The call [get_redispatch_dst_infos()] as a whole: the dict is built
    first, then the lists for the log, [avg_pend_time] among them; [None]
    is the exception of that list. *)
Definition get_redispatch_dst_infos_call (instance_info_values : list InstanceInfo)
    : option GlobalScheduler.Candidates :=
  let required_infos := get_redispatch_dst_infos instance_info_values in
  _ ← avg_pend_time instance_info_values;
  Some required_infos.

End GS.

(** ** Concrete fleets *)

Module Example.

Local Open Scope string_scope.

(** An instance with [num_free_gpu_blocks = num_total_gpu_blocks -
    num_used_gpu_blocks], the three migration metrics given, and no
    waiting time. *)
Definition instance (id : string) (total used watermark waiting running : Z)
    (metric after_out after_in : spec_float) : InstanceInfo :=
  {| instance_id := id;
     num_total_gpu_blocks := total;
     num_used_gpu_blocks := used;
     num_free_gpu_blocks := total - used;
     num_watermark_blocks := watermark;
     num_waiting_requests := waiting;
     num_running_requests := running;
     migration_load_metric := metric;
     migration_load_metric_after_migrate_out := after_out;
     migration_load_metric_after_migrate_in := after_in;
     sum_pending := F64.zero |}.

Definition idle (id : string) (total used watermark waiting running : Z) : InstanceInfo :=
  instance id total used watermark waiting running F64.zero F64.zero F64.zero.

(** [m * 2^e] as a float. *)
Definition float (m e : Z) : spec_float :=
  binary_normalize F64.prec F64.emax m e false.

(** Three instances of 100 blocks, none with waiting requests. *)
Definition quiet_fleet : list InstanceInfo :=
  [idle "a" 100 40 5 0 2; idle "b" 100 20 5 0 1; idle "c" 100 10 5 0 1].

(** Two instances of 100 blocks; the full one has five waiting requests. *)
Definition backlogged_fleet : list InstanceInfo :=
  [idle "a" 100 95 5 5 9; idle "b" 100 10 5 0 1].

(** Two instances of 100 and of 20 blocks, none with waiting requests. *)
Definition mixed_fleet : list InstanceInfo :=
  [idle "a" 100 90 0 0 9; idle "b" 20 10 0 0 1].

(** An instance without waiting requests before one with three. *)
Definition one_waiting_fleet : list InstanceInfo :=
  [idle "a" 100 40 5 0 2; idle "b" 100 20 5 3 1].

(** A loaded source and a lightly loaded destination: metrics 0.75 and
    0.25, 0.5 after the migration out and 0.375 after the migration in. *)
Definition loaded_source : InstanceInfo :=
  instance "s" 100 75 0 0 3 (float 3 (-2)) (float 1 (-1)) (float 1 0).

Definition light_destination : InstanceInfo :=
  instance "d" 100 25 0 0 1 (float 1 (-2)) (float 0 0) (float 3 (-3)).

(** An empty destination, with metric minus infinity, whose metric after
    a migration in is a NaN. *)
Definition empty_destination : InstanceInfo :=
  instance "d" 100 0 0 0 0 F64.neg_inf (float 0 0) S754_nan.

(** A full instance whose count of waiting requests, [2 ** 1024], is too
    large for a float. *)
Definition swamped : InstanceInfo := idle "a" 100 100 5 (2 ^ 1024) 0.

Definition request (id : string) (n : Z) : Request :=
  {| request_id := id; n_blocks := n |}.

(** Candidates of different capacities: 5 and 150 blocks. *)
Definition mixed_candidates : GlobalScheduler.Candidates :=
  [("a", (5, 0)); ("b", (100, 50))].

(** Candidates of the same capacity, 50 blocks each. *)
Definition even_candidates : GlobalScheduler.Candidates :=
  [("m", (0, 50)); ("a", (40, 10)); ("b", (45, 5))].

(** The master holds 50 blocks and has none free; three waiting requests. *)
Definition master_candidates : GlobalScheduler.Candidates :=
  [("m", (0, 50)); ("a", (20, 10)); ("b", (30, 5))].

Definition waiting_requests : list Request :=
  [request "r1" 8; request "r2" 8; request "r3" 25].

Definition three_keys : gmap string Z :=
  <["z" := 4]> (<["x" := 0]> (<["y" := 7]> ∅)).

Definition scheduler_with_a : GlobalScheduler.t :=
  {| GlobalScheduler.num_instances := 1;
     GlobalScheduler.instance_id_set := {["a"]};
     GlobalScheduler.instance_info := {["a" := idle "a" 100 0 5 0 0]} |}.

End Example.

(** ** Vocabulary of the statements *)

(** [x] is the first element of [l], among those that satisfy [P], whose
    key is least: the elements before it have a greater key, the elements
    after it a key that is not smaller. *)
Definition first_least_among {A : Type} (P : A -> Prop) (key : A -> Z)
    (l : list A) (x : A) : Prop :=
  exists l1 l2, l = l1 ++ x :: l2 /\ P x /\
    (forall y, y ∈ l1 -> P y -> key x < key y) /\
    (forall y, y ∈ l2 -> P y -> key x <= key y).

(** [x] is the first element of [l], among those that satisfy [P], whose
    key is greatest. *)
Definition first_greatest_among {A : Type} (P : A -> Prop) (key : A -> Z)
    (l : list A) (x : A) : Prop :=
  exists l1 l2, l = l1 ++ x :: l2 /\ P x /\
    (forall y, y ∈ l1 -> P y -> key y < key x) /\
    (forall y, y ∈ l2 -> P y -> key y <= key x).

(** [m] is the greatest of [num_used_gpu_blocks] over [l]. *)
Definition is_max_used (l : list InstanceInfo) (m : Z) : Prop :=
  (exists x, x ∈ l /\ num_used_gpu_blocks x = m) /\
  (forall x, x ∈ l -> num_used_gpu_blocks x <= m).

(** The position of a float that is not a NaN in the order of [SFcompare]:
    the sign class first, then the exponent, then the mantissa. *)
Definition rank (x : spec_float) : Z * (Z * Z) :=
  match x with
  | S754_infinity true => (-2, (0, 0))
  | S754_finite true m e => (-1, (- e, - Z.pos m))
  | S754_zero _ => (0, (0, 0))
  | S754_nan => (0, (0, 0))
  | S754_finite false m e => (1, (e, Z.pos m))
  | S754_infinity false => (2, (0, 0))
  end.

Definition lex_lt (a b : Z * (Z * Z)) : Prop :=
  a.1 < b.1 \/ (a.1 = b.1 /\ (a.2.1 < b.2.1 \/ (a.2.1 = b.2.1 /\ a.2.2 < b.2.2))).

Definition not_nan (x : spec_float) : Prop := F64.is_nan x = false.

(** [x] is the first element of [l], among those that satisfy [P], whose
    float key [k] is greatest in the order of [<] on floats. *)
Definition first_greatest_key {A : Type} (P : A -> Prop) (key : A -> option spec_float)
    (l : list A) (x : A) (k : spec_float) : Prop :=
  exists l1 l2, l = l1 ++ x :: l2 /\ P x /\ key x = Some k /\
    (forall y, y ∈ l1 -> P y -> exists ky, key y = Some ky /\ F64.ltb ky k = true) /\
    (forall y, y ∈ l2 -> P y -> exists ky, key y = Some ky /\ F64.ltb k ky = false).

(** [candidates[id].free + candidates[id].used], for each entry in order. *)
Definition totals (c : GlobalScheduler.Candidates) : list (string * Z) :=
  (fun e => (fst e, GlobalScheduler.free_of e + GlobalScheduler.used_of e)) <$> c.

(** The same sum at one id; [None] when [id] is not a key. *)
Definition total_of (c : GlobalScheduler.Candidates) (id : string) : option Z :=
  (fun v => fst v + snd v) <$> GlobalScheduler.getitem c id.

(** A well-formed dict with the same [free + used] at every key, as
    [get_redispatch_dst_infos] builds it for instances with the same
    [num_total_gpu_blocks] and the same [num_watermark_blocks]. *)
Definition uniform (c : GlobalScheduler.Candidates) (capacity : Z) : Prop :=
  NoDup (fst <$> c) /\
  forall e, e ∈ c -> GlobalScheduler.free_of e + GlobalScheduler.used_of e = capacity.

(** The loop is still running, on the ids with free blocks left. *)
Definition running (st : GlobalScheduler.loop_state) : Prop :=
  match st with
  | GlobalScheduler.Running c available _ =>
      available = GlobalScheduler.available_instance_ids c /\ available <> []
  | GlobalScheduler.Stopped _ _ => True
  end.

(** Admissibility of what [Loadv2.dispatch] chooses: the chosen instance
    has [num_free_gpu_blocks - num_watermark_blocks < req_n_blocks] only
    when the least-overshoot branch was taken and every available
    instance is in the same case. *)
Definition Loadv2_admissibility (available : list InstanceInfo) (req_n_blocks : Z) : Prop :=
  forall x, Loadv2.chosen available req_n_blocks = Some x ->
    num_free_gpu_blocks x - num_watermark_blocks x < req_n_blocks ->
    (exists max_used,
       Py.max (num_used_gpu_blocks <$> available) = Some max_used /\
       Loadv2.situation_of max_used req_n_blocks available = Loadv2.GrowingSteadily) /\
    (forall i, i ∈ available ->
       num_free_gpu_blocks i - num_watermark_blocks i < req_n_blocks).

(** Admissibility of what one iteration of the planner chooses on the
    candidates [c]: the chosen entry has [free - n_blocks < 0] only when
    the least-overshoot branch was taken and every available entry is in
    the same case. *)
Definition planner_admissibility (request : Request) (c : GlobalScheduler.Candidates)
    : Prop :=
  forall resolved b target,
    GlobalScheduler.entries c (GlobalScheduler.available_instance_ids c) = Some resolved ->
    GlobalScheduler.choose request resolved = Some (Some (b, target)) ->
    GlobalScheduler.free_of target - n_blocks request < 0 ->
    b = GlobalScheduler.LeastOvershoot /\
    (forall e, e ∈ resolved -> GlobalScheduler.free_of e - n_blocks request < 0).

(** The invariants of the data model on one instance of a fleet whose
    instances all have [total] blocks. *)
Definition consistent (total : Z) (x : InstanceInfo) : Prop :=
  num_total_gpu_blocks x = total /\
  num_free_gpu_blocks x = num_total_gpu_blocks x - num_used_gpu_blocks x /\
  0 <= num_watermark_blocks x /\
  0 <= num_used_gpu_blocks x + num_watermark_blocks x <= num_total_gpu_blocks x.

(** The quotient [sum_pending / (num_waiting_requests + 1e-5)] of an
    instance raises nothing: the count converts to a float and the sum is
    not zero. *)
Definition avg_pending_defined (i : InstanceInfo) : Prop :=
  exists waiting,
    F64.of_int (num_waiting_requests i) = Some waiting /\
    F64.is_zero (F64.add waiting F64.lit_1e_5) = false.

Definition zero_or_finite (x : spec_float) : Prop :=
  match x with S754_zero _ | S754_finite _ _ _ => True | _ => False end.

(** How many of the [n] sorted instances [random_choice_from_top_k] chooses
    among: [min(topk, n)], or all but the last [- topk] when [topk] is
    negative. *)
Definition top_count (topk : Z) (n : nat) : nat :=
  if 0 <=? topk then Z.to_nat (Z.min topk (Z.of_nat n))
  else Z.to_nat (Z.of_nat n + topk).

(** [num_instances] counts [instance_id_set], and the table has an entry
    for exactly the ids of [instance_id_set]. *)
Definition coherent (self : GlobalScheduler.t) : Prop :=
  GlobalScheduler.num_instances self
    = Z.of_nat (size (GlobalScheduler.instance_id_set self)) /\
  dom (GlobalScheduler.instance_info self) = GlobalScheduler.instance_id_set self.

(** The requests [redispatch_plans] holds for [k] inside the loop, none
    when [k] is not a key. *)
Definition requests_at (plans : GlobalScheduler.Plans) (k : string) : list Request :=
  default [] (PyMore.getitem plans k).



(** An entry without free blocks is as it was, and one with free blocks
    still has some. *)
Definition keeps_free (e e' : string * (Z * Z)) : Prop :=
  fst e' = fst e /\
  (GlobalScheduler.free_of e <= 0 -> e' = e) /\
  (0 < GlobalScheduler.free_of e -> 0 < GlobalScheduler.free_of e').

(** * Properties *)

(** ** The sort *)

Section SortedFacts.
Context {A K : Type}.
Variable lt : K -> K -> bool.
Variable key : A -> K.

Local Abbreviation insert_by := (Py.insert_by lt key).
Local Abbreviation sorted := (Py.sorted lt key).
Local Abbreviation sorted_reverse := (Py.sorted_reverse lt key).
Local Abbreviation first_min := (Py.first_min lt key).
Local Abbreviation last_max := (Py.last_max lt key).

Lemma insert_by_Permutation x l : insert_by x l ≡ₚ x :: l.
Proof.
    induction l as [|y l IH]; simpl; [done|].
    destruct (lt (key y) (key x)); [|done].
    rewrite IH. apply Permutation_swap.
Qed.

Lemma sorted_Permutation l : sorted l ≡ₚ l.
Proof.
    induction l as [|x l IH]; simpl; [done|].
    rewrite insert_by_Permutation. by rewrite IH.
Qed.

Lemma sorted_reverse_Permutation l : sorted_reverse l ≡ₚ l.
Proof.
    unfold Py.sorted_reverse.
    rewrite <- Permutation_rev, sorted_Permutation. symmetry. apply Permutation_rev.
Qed.

Lemma head_insert_by x l :
    head (insert_by x l) =
    Some match head l with
         | None => x
         | Some m => if lt (key m) (key x) then m else x
         end.
Proof. destruct l as [|y l]; simpl; [done|]. by destruct (lt (key y) (key x)). Qed.

(** [sorted(l, key)[0]] is the first least element, whatever [lt] is. *)
Lemma head_sorted l : head (sorted l) = first_min l.
Proof.
    induction l as [|x l IH]; simpl; [done|].
    by rewrite head_insert_by, IH.
Qed.

Lemma last_rev (l : list A) : last (rev l) = head l.
Proof. destruct l as [|x l]; simpl; [done|]. apply last_snoc. Qed.

Lemma head_rev (l : list A) : head (rev l) = last l.
Proof. rewrite <- (rev_involutive l) at 2. symmetry. apply last_rev. Qed.

(** The keys on which [lt] is a strict weak order. *)
Variable ok : K -> Prop.
Hypothesis lt_asym : forall a b, ok a -> ok b -> lt a b = true -> lt b a = false.
Hypothesis lt_cotrans : forall a b c, ok a -> ok b -> ok c ->
    lt a c = true -> lt a b = true \/ lt b c = true.

Lemma lt_irrefl a : ok a -> lt a a = false.
Proof.
    intros Ha. destruct (lt a a) eqn:E; [|done].
    by rewrite (lt_asym a a Ha Ha E) in E.
Qed.

Lemma first_min_split l m :
    Forall (fun x => ok (key x)) l ->
    first_min l = Some m ->
    exists l1 l2, l = l1 ++ m :: l2 /\
      Forall (fun y => lt (key m) (key y) = true) l1 /\
      Forall (fun y => lt (key y) (key m) = false) l2.
Proof.
    revert m. induction l as [|x l IH]; intros m Hok Hm; [done|].
    apply Forall_cons in Hok as [Hx Hok]. simpl in Hm.
    destruct (first_min l) as [m0|] eqn:E.
    - destruct (IH m0 Hok eq_refl) as (l1 & l2 & -> & H1 & H2).
      assert (Hm0 : ok (key m0)).
      { rewrite Forall_app, Forall_cons in Hok. tauto. }
      destruct (lt (key m0) (key x)) eqn:E0; injection Hm as <-.
      + exists (x :: l1), l2. by repeat split; [constructor|].
      + exists [], (l1 ++ m0 :: l2). repeat split; [constructor|].
        rewrite Forall_app, Forall_cons in Hok. destruct Hok as (Ho1 & _ & Ho2).
        rewrite Forall_app, Forall_cons. repeat split; [|done|].
        * rewrite Forall_forall in *. intros y Hy.
          destruct (lt (key y) (key x)) eqn:Ey; [|done].
          destruct (lt_cotrans _ (key m0) _ (Ho1 y Hy) Hm0 Hx Ey) as [Hc|Hc]; [|congruence].
          rewrite (lt_asym _ _ Hm0 (Ho1 y Hy) (H1 y Hy)) in Hc. done.
        * rewrite Forall_forall in *. intros y Hy.
          destruct (lt (key y) (key x)) eqn:Ey; [|done].
          destruct (lt_cotrans _ (key m0) _ (Ho2 y Hy) Hm0 Hx Ey) as [Hc|Hc]; [|congruence].
          rewrite (H2 y Hy) in Hc. done.
    - destruct l; [|done]. injection Hm as <-.
      exists [], []. by repeat split.
Qed.

Lemma last_max_split l m :
    Forall (fun x => ok (key x)) l ->
    last_max l = Some m ->
    exists l1 l2, l = l1 ++ m :: l2 /\
      Forall (fun y => lt (key m) (key y) = false) l1 /\
      Forall (fun y => lt (key y) (key m) = true) l2.
Proof.
    revert m. induction l as [|x l IH]; intros m Hok Hm; [done|].
    apply Forall_cons in Hok as [Hx Hok]. simpl in Hm.
    destruct (last_max l) as [m0|] eqn:E.
    - destruct (IH m0 Hok eq_refl) as (l1 & l2 & -> & H1 & H2).
      assert (Hm0 : ok (key m0)).
      { rewrite Forall_app, Forall_cons in Hok. tauto. }
      destruct (lt (key m0) (key x)) eqn:E0; injection Hm as <-.
      + exists [], (l1 ++ m0 :: l2). repeat split; [constructor|].
        rewrite Forall_app, Forall_cons in Hok. destruct Hok as (Ho1 & _ & Ho2).
        rewrite Forall_app, Forall_cons. repeat split; [|done|].
        * rewrite Forall_forall in *. intros y Hy.
          destruct (lt_cotrans _ (key y) _ Hm0 (Ho1 y Hy) Hx E0) as [Hc|Hc]; [|done].
          rewrite (H1 y Hy) in Hc. done.
        * rewrite Forall_forall in *. intros y Hy.
          destruct (lt_cotrans _ (key x) _ (Ho2 y Hy) Hx Hm0 (H2 y Hy)) as [Hc|Hc]; [done|].
          rewrite (lt_asym _ _ Hm0 Hx E0) in Hc. done.
      + exists (x :: l1), l2. by repeat split; [constructor|].
    - destruct l; [|done]. injection Hm as <-.
      exists [], []. by repeat split.
Qed.

Lemma last_max_greatest l m :
    Forall (fun x => ok (key x)) l ->
    last_max l = Some m ->
    Forall (fun y => lt (key m) (key y) = false) l.
Proof.
    intros Hok Hm.
    destruct (last_max_split l m Hok Hm) as (l1 & l2 & -> & H1 & H2).
    rewrite Forall_app, Forall_cons in Hok. destruct Hok as (Ho1 & Hom & Ho2).
    rewrite Forall_app, Forall_cons. repeat split; [done|by apply lt_irrefl|].
    rewrite Forall_forall in *. intros y Hy. apply lt_asym; auto.
Qed.

Lemma last_insert_by x s m :
    ok (key x) -> Forall (fun y => ok (key y)) s ->
    last s = Some m ->
    Forall (fun y => lt (key m) (key y) = false) s ->
    last (insert_by x s) = Some (if lt (key m) (key x) then x else m).
Proof.
    intros Hx. induction s as [|y s IH]; intros Hok Hm Hmax; [done|].
    apply Forall_cons in Hok as [Hy Hok]. apply Forall_cons in Hmax as [Hmy Hmax].
    assert (Hom : ok (key m)).
    { apply last_Some_elem_of in Hm. rewrite Forall_forall in Hok.
      apply elem_of_cons in Hm as [->|Hm]; auto. }
    simpl. destruct (lt (key y) (key x)) eqn:Ey.
    - destruct s as [|z s].
      + simpl in *. injection Hm as <-. by rewrite Ey.
      + rewrite last_cons_cons in Hm.
        assert (Hne : exists w t, insert_by x (z :: s) = w :: t).
        { simpl. destruct (lt (key z) (key x)); eauto. }
        destruct Hne as (w & t & Hwt). rewrite Hwt, last_cons_cons, <- Hwt.
        by apply IH.
    - rewrite last_cons_cons, Hm.
      destruct (lt (key m) (key x)) eqn:Em; [|done].
      destruct (lt_cotrans _ (key y) _ Hom Hy Hx Em) as [Hc|Hc]; congruence.
Qed.

(** [sorted(l, key, reverse=True)[0]] is the first greatest element. *)
Lemma last_sorted l :
    Forall (fun x => ok (key x)) l -> last (sorted l) = last_max l.
Proof.
    induction l as [|x l IH]; intros Hok; [done|].
    apply Forall_cons in Hok as [Hx Hok]. simpl.
    destruct (last_max l) as [m0|] eqn:E.
    - apply last_insert_by; [done| |by rewrite IH|].
      + by rewrite sorted_Permutation.
      + rewrite sorted_Permutation. by apply last_max_greatest.
    - destruct l; [done|]. simpl in E. done.
Qed.

Lemma head_sorted_reverse l :
    Forall (fun x => ok (key x)) l ->
    head (sorted_reverse l) = last_max (rev l).
Proof.
    intros Hok. unfold Py.sorted_reverse. rewrite head_rev.
    apply last_sorted. by rewrite <- Permutation_rev.
Qed.

Lemma head_sorted_reverse_split l m :
    Forall (fun x => ok (key x)) l ->
    head (sorted_reverse l) = Some m ->
    exists l1 l2, l = l1 ++ m :: l2 /\
      Forall (fun y => lt (key y) (key m) = true) l1 /\
      Forall (fun y => lt (key m) (key y) = false) l2.
Proof.
    intros Hok Hm. rewrite head_sorted_reverse in Hm by done.
    apply last_max_split in Hm as (l1 & l2 & Hl & H1 & H2);
      [|by rewrite <- Permutation_rev].
    exists (rev l2), (rev l1). repeat split.
    - rewrite <- (rev_involutive l), Hl, rev_app_distr. simpl.
      by rewrite <- app_assoc.
    - by rewrite <- Permutation_rev.
    - by rewrite <- Permutation_rev.
Qed.

Lemma head_sorted_split l m :
    Forall (fun x => ok (key x)) l ->
    head (sorted l) = Some m ->
    exists l1 l2, l = l1 ++ m :: l2 /\
      Forall (fun y => lt (key m) (key y) = true) l1 /\
      Forall (fun y => lt (key y) (key m) = false) l2.
Proof. intros Hok Hm. rewrite head_sorted in Hm. by apply first_min_split. Qed.

End SortedFacts.

(** ** Integer keys *)

Lemma Zltb_asym (a b : Z) : True -> True -> (a <? b) = true -> (b <? a) = false.
Proof. lia. Qed.

Lemma Zltb_cotrans (a b c : Z) :
  True -> True -> True -> (a <? c) = true -> (a <? b) = true \/ (b <? c) = true.
Proof. intros _ _ _ H. destruct (a <? b) eqn:E; [by left|right; lia]. Qed.

Lemma Forall_True {A : Type} (l : list A) : Forall (fun _ => True) l.
Proof. by apply Forall_forall. Qed.

Lemma head_sorted_Z {A : Type} (key : A -> Z) (l : list A) (m : A) :
  head (Py.sorted Z.ltb key l) = Some m ->
  first_least_among (fun _ => True) key l m.
Proof.
  intros Hm.
  apply (head_sorted_split Z.ltb key (fun _ => True) Zltb_asym Zltb_cotrans)
    in Hm as (l1 & l2 & -> & H1 & H2); [|apply Forall_True].
  exists l1, l2. rewrite Forall_forall in H1, H2. repeat split.
  - intros y Hy _. specialize (H1 y Hy). lia.
  - intros y Hy _. specialize (H2 y Hy). lia.
Qed.

Lemma head_sorted_reverse_Z {A : Type} (key : A -> Z) (l : list A) (m : A) :
  head (Py.sorted_reverse Z.ltb key l) = Some m ->
  first_greatest_among (fun _ => True) key l m.
Proof.
  intros Hm.
  apply (head_sorted_reverse_split Z.ltb key (fun _ => True) Zltb_asym Zltb_cotrans)
    in Hm as (l1 & l2 & -> & H1 & H2); [|apply Forall_True].
  exists l1, l2. rewrite Forall_forall in H1, H2. repeat split.
  - intros y Hy _. specialize (H1 y Hy). lia.
  - intros y Hy _. specialize (H2 y Hy). lia.
Qed.

Lemma head_sorted_is_Some {A K : Type} (lt : K -> K -> bool) (key : A -> K) (l : list A) :
  l <> [] -> is_Some (head (Py.sorted lt key l)).
Proof. intros Hl. rewrite head_sorted. destruct l; [done|]. simpl. eauto. Qed.

Lemma head_sorted_reverse_is_Some {A K : Type} (lt : K -> K -> bool) (key : A -> K)
    (l : list A) :
  l <> [] -> is_Some (head (Py.sorted_reverse lt key l)).
Proof.
  intros Hl. destruct (Py.sorted_reverse lt key l) as [|x s] eqn:E; [|simpl; eauto].
  apply (f_equal length) in E.
  rewrite (Permutation_length (sorted_reverse_Permutation lt key l)) in E.
  destruct l; done.
Qed.

(** ** Filters *)

Lemma elem_of_middle {A : Type} (x : A) (l1 l2 : list A) : x ∈ l1 ++ x :: l2.
Proof. apply elem_of_app. right. by left. Qed.

Lemma filter_split {A : Type} (f : A -> bool) (l : list A) (f1 f2 : list A) (x : A) :
  List.filter f l = f1 ++ x :: f2 ->
  exists l1 l2, l = l1 ++ x :: l2 /\ List.filter f l1 = f1 /\ List.filter f l2 = f2.
Proof.
  revert f1. induction l as [|y l IH]; intros f1 H; simpl in H.
  - by destruct f1.
  - destruct (f y) eqn:Ey.
    + destruct f1 as [|z f1]; simpl in H.
      * injection H as -> <-. exists [], l. done.
      * injection H as -> H. destruct (IH _ H) as (l1 & l2 & -> & <- & <-).
        exists (z :: l1), l2. simpl. by rewrite Ey.
    + destruct (IH _ H) as (l1 & l2 & -> & <- & <-).
      exists (y :: l1), l2. simpl. by rewrite Ey.
Qed.

Lemma elem_of_filter {A : Type} (f : A -> bool) (l : list A) (x : A) :
  x ∈ List.filter f l <-> x ∈ l /\ f x = true.
Proof. rewrite !list_elem_of_In. apply filter_In. Qed.

Lemma first_least_among_filter {A : Type} (f : A -> bool) (key : A -> Z)
    (l : list A) (x : A) :
  first_least_among (fun _ => True) key (List.filter f l) x ->
  first_least_among (fun y => f y = true) key l x.
Proof.
  intros (f1 & f2 & Hf & _ & H1 & H2).
  assert (Hx : x ∈ List.filter f l) by (rewrite Hf; apply elem_of_middle).
  apply elem_of_filter in Hx as [_ Hx].
  apply filter_split in Hf as (l1 & l2 & -> & <- & <-).
  exists l1, l2. repeat split; [done| |].
  - intros y Hy Hfy. apply H1; [|done]. by apply elem_of_filter.
  - intros y Hy Hfy. apply H2; [|done]. by apply elem_of_filter.
Qed.

Lemma filter_length_all {A : Type} (f : A -> bool) (l : list A) :
  length (List.filter f l) = length l <-> forall x, x ∈ l -> f x = true.
Proof.
  induction l as [|y l IH]; simpl.
  - split; [|done]. intros _ x Hx. by apply elem_of_nil in Hx.
  - pose proof (List.filter_length_le f l) as Hle.
    destruct (f y) eqn:Ey; simpl.
    + split.
      * intros H x Hx. apply elem_of_cons in Hx as [->|Hx]; [done|].
        apply IH; [lia|done].
      * intros H. f_equal. apply IH. intros x Hx. apply H. by right.
    + split; [lia|]. intros H. rewrite H in Ey; [done|by left].
Qed.

Lemma filter_length_pos {A : Type} (f : A -> bool) (l : list A) :
  (0 < length (List.filter f l))%nat <-> exists x, x ∈ l /\ f x = true.
Proof.
  split.
  - destruct (List.filter f l) as [|x s] eqn:E; simpl; [lia|]. intros _.
    exists x. apply elem_of_filter. rewrite E. by left.
  - intros (x & Hx). apply elem_of_filter in Hx.
    destruct (List.filter f l); simpl; [by apply elem_of_nil in Hx|lia].
Qed.

Lemma filter_length_zero {A : Type} (f : A -> bool) (l : list A) :
  length (List.filter f l) = 0%nat <-> forall x, x ∈ l -> f x = false.
Proof.
  split.
  - intros E x Hx. destruct (f x) eqn:Ef; [|done].
    assert (0 < length (List.filter f l))%nat; [|lia].
    apply filter_length_pos. eauto.
  - intros H. destruct (List.filter f l) as [|x s] eqn:E; [done|].
    assert (Hx : x ∈ List.filter f l) by (rewrite E; by left).
    apply elem_of_filter in Hx as [Hx Hfx]. rewrite (H x Hx) in Hfx. done.
Qed.

(** ** [max] and [min] *)

Lemma Py_max_fold (l : list Z) (b : Z) :
  let r := fold_left (fun best y => if best <? y then y else best) l b in
  (r = b \/ r ∈ l) /\ b <= r /\ forall y, y ∈ l -> y <= r.
Proof.
  revert b. induction l as [|x l IH]; intros b; simpl.
  - repeat split; [by left|lia|]. intros y Hy. by apply elem_of_nil in Hy.
  - destruct (b <? x) eqn:E.
    + destruct (IH x) as (Hr & Hb & Hall). repeat split.
      * right. destruct Hr as [->|Hr]; [by left|by right].
      * lia.
      * intros y Hy. apply elem_of_cons in Hy as [->|Hy]; [done|by apply Hall].
    + destruct (IH b) as (Hr & Hb & Hall). repeat split.
      * destruct Hr as [Hr|Hr]; [by left|right; by right].
      * done.
      * intros y Hy. apply elem_of_cons in Hy as [->|Hy]; [lia|by apply Hall].
Qed.

Lemma Py_max_Some (l : list Z) (m : Z) :
  Py.max l = Some m -> m ∈ l /\ forall y, y ∈ l -> y <= m.
Proof.
  destruct l as [|x l]; [done|]. simpl. intros [= <-].
  destruct (Py_max_fold l x) as (Hr & Hb & Hall). split.
  - destruct Hr as [->|Hr]; [by left|by right].
  - intros y Hy. apply elem_of_cons in Hy as [->|Hy]; [done|by apply Hall].
Qed.

Lemma Py_max_is_Some (l : list Z) : l <> [] -> is_Some (Py.max l).
Proof. destruct l; [done|]. simpl. eauto. Qed.

Lemma Py_min_by_elem_of {A : Type} (key : A -> Z) (l : list A) (x : A) :
  Py.min_by key l = Some x -> x ∈ l.
Proof.
  destruct l as [|b l]; [done|]. simpl. intros [= <-].
  assert (H : forall l b,
    let r := fold_left (fun best y => if key y <? key best then y else best) l b in
    r = b \/ r ∈ l).
  { clear. induction l as [|y l IH]; intros b; simpl; [by left|].
    destruct (IH (if key y <? key b then y else b)) as [Hr|Hr]; [|right; by right].
    rewrite Hr. destruct (key y <? key b); [right; by left|by left]. }
  destruct (H l b) as [->|Hr]; [by left|by right].
Qed.

Lemma Py_max_used (l : list InstanceInfo) (m : Z) :
  Py.max (num_used_gpu_blocks <$> l) = Some m -> is_max_used l m.
Proof.
  intros H. apply Py_max_Some in H as [Hm Hall]. split.
  - apply list_elem_of_fmap in Hm as (x & -> & Hx). eauto.
  - intros x Hx. apply Hall. apply list_elem_of_fmap. eauto.
Qed.

(** ** Loadv2 *)

Lemma Loadv2_situation_idle (m req : Z) (l : list InstanceInfo) :
  Loadv2.situation_of m req l <> Loadv2.Overloaded <->
  forall i, i ∈ l -> num_waiting_requests i = 0.
Proof.
  unfold Loadv2.situation_of, Loadv2.filtered_dst_instance_infos.
  destruct (Nat.eqb_spec
    (length (List.filter (fun x => num_waiting_requests x =? 0) l)) (length l)) as [E|E].
  - rewrite filter_length_all in E. split.
    + intros _ i Hi. specialize (E i Hi). lia.
    + intros _. by destruct (_ <? _)%nat.
  - split; [done|]. intros H. exfalso. apply E. apply filter_length_all.
    intros i Hi. specialize (H i Hi). lia.
Qed.

Lemma Loadv2_situation_fits (m req : Z) (l : list InstanceInfo) :
  Loadv2.situation_of m req l = Loadv2.NotOverloaded <->
  (forall i, i ∈ l -> num_waiting_requests i = 0) /\
  (exists i, i ∈ l /\ 0 <= Loadv2.slack m req i).
Proof.
  split.
  - intros Hs. split.
    { apply (Loadv2_situation_idle m req). by rewrite Hs. }
    unfold Loadv2.situation_of, Loadv2.filtered_dst_instance_infos_II in Hs.
    destruct (_ =? _)%nat; [|done].
    destruct (Nat.ltb_spec 0
      (length (List.filter (fun x => Loadv2.slack m req x >=? 0) l))) as [E|E]; [|done].
    apply filter_length_pos in E as (i & Hi & Hi'). exists i. split; [done|lia].
  - intros [Hi (i & Hi1 & Hi2)]. apply (Loadv2_situation_idle m req) in Hi.
    unfold Loadv2.situation_of, Loadv2.filtered_dst_instance_infos_II in *.
    destruct (_ =? _)%nat; [|done].
    destruct (Nat.ltb_spec 0
      (length (List.filter (fun x => Loadv2.slack m req x >=? 0) l))) as [E|E]; [done|].
    exfalso.
    assert (0 < length (List.filter (fun x => Loadv2.slack m req x >=? 0) l))%nat; [|lia].
    apply filter_length_pos. exists i. split; [done|lia].
Qed.

Lemma avg_pend_time_is_Some (l : list InstanceInfo) :
  (forall i, i ∈ l -> avg_pending_defined i) -> is_Some (avg_pend_time l).
Proof.
  intros H. apply mapM_is_Some_2, Forall_forall. intros i Hi.
  destruct (H i Hi) as (w & Hw & Hz). unfold compose. rewrite Hw. simpl.
  unfold F64.truediv. rewrite Hz. eauto.
Qed.

Lemma avg_pend_time_None (l : list InstanceInfo) :
  (exists i, i ∈ l /\ ~ avg_pending_defined i) -> avg_pend_time l = None.
Proof.
  intros (i & Hi & Hno). apply mapM_None_2, Exists_exists. exists i. split; [done|].
  unfold compose.
  destruct (F64.of_int (num_waiting_requests i)) as [w|] eqn:Hw; [|done]. simpl.
  unfold F64.truediv. destruct (F64.is_zero (F64.add w F64.lit_1e_5)) eqn:Hz; [done|].
  destruct Hno. by exists w.
Qed.

(** What the head of [sorted_instance_infos] is, in each of the three
    situations. *)
Lemma Loadv2_head_rule (available : list InstanceInfo) (req_n_blocks : Z) :
  available <> [] ->
  exists max_used x,
    is_max_used available max_used /\
    x ∈ available /\
    instance_id <$>
      match Py.max (map num_used_gpu_blocks available) with
      | None => None
      | Some max_used_blocks =>
          head (Loadv2.sorted_instance_infos max_used_blocks req_n_blocks available)
      end = Some (instance_id x) /\
    let idle := forall i, i ∈ available -> num_waiting_requests i = 0 in
    let fits := fun i => 0 <= Loadv2.slack max_used req_n_blocks i in
    (idle -> (exists i, i ∈ available /\ fits i) ->
       first_least_among fits (Loadv2.slack max_used req_n_blocks) available x) /\
    (idle -> ~ (exists i, i ∈ available /\ fits i) ->
       first_least_among (fun _ => True)
         (Loadv2.overshoot max_used req_n_blocks) available x) /\
    (~ idle ->
       first_greatest_among (fun _ => True) num_waiting_requests available x).
Proof.
  intros Hne.
  destruct (Py_max_is_Some (num_used_gpu_blocks <$> available)) as [m Hm].
  { by destruct available. }
  change (map num_used_gpu_blocks available) with (num_used_gpu_blocks <$> available).
  rewrite Hm. exists m.
  pose proof (Loadv2_situation_idle m req_n_blocks available) as Hidle.
  pose proof (Loadv2_situation_fits m req_n_blocks available) as Hfits.
  unfold Loadv2.sorted_instance_infos.
  destruct (Loadv2.situation_of m req_n_blocks available) eqn:Hs.
  - (* not overloaded: least slack among those that fit *)
    destruct Hfits as [Hfits _]. destruct (Hfits eq_refl) as [Hi Hex].
    destruct (head_sorted_is_Some Z.ltb (Loadv2.slack m req_n_blocks)
      (Loadv2.filtered_dst_instance_infos_II m req_n_blocks available)) as [x Hx].
    { unfold Loadv2.filtered_dst_instance_infos_II.
      destruct Hex as (i & Hi1 & Hi2).
      assert (Hin : i ∈ List.filter (fun x => Loadv2.slack m req_n_blocks x >=? 0) available).
      { apply elem_of_filter. split; [done|lia]. }
      intros E. rewrite E in Hin. by apply elem_of_nil in Hin. }
    exists x. rewrite Hx.
    apply head_sorted_Z, first_least_among_filter in Hx.
    assert (Hx' : first_least_among (fun i => 0 <= Loadv2.slack m req_n_blocks i)
              (Loadv2.slack m req_n_blocks) available x).
    { destruct Hx as (l1 & l2 & Hl & Hp & H1 & H2). exists l1, l2.
      repeat split; [done|lia| |].
      - intros y Hy Hfy. apply H1; [done|lia].
      - intros y Hy Hfy. apply H2; [done|lia]. }
    split; [by apply Py_max_used|].
    split; [|split; [done|cbn zeta; split; [|split]]].
    + destruct Hx' as (l1 & l2 & -> & _). apply elem_of_middle.
    + done.
    + intros _ Hno. by destruct Hno.
    + intros Hno. by destruct Hno.
  - (* growing steadily: least overshoot *)
    destruct (head_sorted_is_Some Z.ltb (Loadv2.overshoot m req_n_blocks) available Hne)
      as [x Hx].
    exists x. rewrite Hx. apply head_sorted_Z in Hx.
    assert (Hi : forall i, i ∈ available -> num_waiting_requests i = 0).
    { apply Hidle. done. }
    split; [by apply Py_max_used|].
    split; [|split; [done|cbn zeta; split; [|split]]].
    + destruct Hx as (l1 & l2 & -> & _). apply elem_of_middle.
    + intros _ Hex. destruct Hfits as [_ Hfits]. by specialize (Hfits (conj Hi Hex)).
    + done.
    + intros Hno. by destruct Hno.
  - (* overloaded: most waiting requests *)
    destruct (head_sorted_reverse_is_Some Z.ltb num_waiting_requests available Hne)
      as [x Hx].
    exists x. rewrite Hx. apply head_sorted_reverse_Z in Hx.
    assert (Hno : ~ forall i, i ∈ available -> num_waiting_requests i = 0).
    { intros H. apply Hidle in H. done. }
    split; [by apply Py_max_used|].
    split; [|split; [done|cbn zeta; split; [|split]]].
    + destruct Hx as (l1 & l2 & -> & _). apply elem_of_middle.
    + intros H. by destruct Hno.
    + intros H. by destruct Hno.
    + done.
Qed.

(** C2, as the code has it.  On a non-empty list, [Loadv2.dispatch] raises
    when [sum_pending / (num_waiting_requests + 1e-5)], computed for the
    log, raises for some instance.  When it raises for none, the call
    returns the id of an instance [x] of the list such that, with
    [max_used] the greatest [num_used_gpu_blocks]: (a) when no instance
    has waiting requests and some instance has
    [max_used - num_watermark_blocks - num_used_gpu_blocks - req_n_blocks >= 0],
    [x] is the first of these for which that slack is least; (b) when no
    instance has waiting requests and every slack is negative, [x] is the
    first instance for which
    [num_used_gpu_blocks + req_n_blocks + num_watermark_blocks - max_used]
    is least; (c) otherwise [x] is the first instance with the most
    waiting requests. *)
Theorem Loadv2_dispatch_rule (available : list InstanceInfo) (req_n_blocks : Z) :
  available <> [] ->
  ((exists i, i ∈ available /\ ~ avg_pending_defined i) ->
   Loadv2.dispatch available req_n_blocks = None) /\
  ((forall i, i ∈ available -> avg_pending_defined i) ->
   exists max_used x,
     is_max_used available max_used /\
     x ∈ available /\
     Loadv2.dispatch available req_n_blocks = Some (instance_id x) /\
     let idle := forall i, i ∈ available -> num_waiting_requests i = 0 in
     let slack := fun i =>
       max_used - num_watermark_blocks i - num_used_gpu_blocks i - req_n_blocks in
     let overshoot := fun i =>
       num_used_gpu_blocks i + req_n_blocks + num_watermark_blocks i - max_used in
     let fits := fun i => 0 <= slack i in
     (idle -> (exists i, i ∈ available /\ fits i) ->
        first_least_among fits slack available x) /\
     (idle -> ~ (exists i, i ∈ available /\ fits i) ->
        first_least_among (fun _ => True) overshoot available x) /\
     (~ idle ->
        first_greatest_among (fun _ => True) num_waiting_requests available x)).
Proof.
  intros Hne. unfold Loadv2.dispatch, Loadv2.chosen. split.
  - intros Hraise. by rewrite (avg_pend_time_None available Hraise).
  - intros Hlog. destruct (avg_pend_time_is_Some available Hlog) as [avg ->].
    exact (Loadv2_head_rule available req_n_blocks Hne).
Qed.

(** ** GlobalScheduler.update_instance_infos *)

Lemma update_instance_infos_cons (self : GlobalScheduler.t) (info : InstanceInfo)
    (l : list InstanceInfo) :
  GlobalScheduler.update_instance_infos self (info :: l) =
  GlobalScheduler.update_instance_infos
    (GlobalScheduler.update_instance_infos self [info]) l.
Proof. done. Qed.

Lemma update_instance_infos_app (self : GlobalScheduler.t) (l1 l2 : list InstanceInfo) :
  GlobalScheduler.update_instance_infos self (l1 ++ l2) =
  GlobalScheduler.update_instance_infos (GlobalScheduler.update_instance_infos self l1) l2.
Proof. apply fold_left_app. Qed.

Lemma update_instance_infos_members (self : GlobalScheduler.t) (l : list InstanceInfo) :
  GlobalScheduler.instance_id_set (GlobalScheduler.update_instance_infos self l) =
    GlobalScheduler.instance_id_set self /\
  GlobalScheduler.num_instances (GlobalScheduler.update_instance_infos self l) =
    GlobalScheduler.num_instances self.
Proof.
  revert self. induction l as [|info l IH]; intros self; [done|].
  rewrite update_instance_infos_cons.
  destruct (IH (GlobalScheduler.update_instance_infos self [info])) as [-> ->].
  unfold GlobalScheduler.update_instance_infos. simpl. by case_decide.
Qed.

Lemma update_instance_infos_unknown (self : GlobalScheduler.t) (info : InstanceInfo) :
  instance_id info ∉ GlobalScheduler.instance_id_set self ->
  GlobalScheduler.update_instance_infos self [info] = self.
Proof. intros H. unfold GlobalScheduler.update_instance_infos. simpl. by case_decide. Qed.

Lemma update_instance_infos_other (self : GlobalScheduler.t) (l : list InstanceInfo)
    (k : string) :
  k ∉ GlobalScheduler.instance_id_set self ->
  GlobalScheduler.instance_info (GlobalScheduler.update_instance_infos self l) !! k =
  GlobalScheduler.instance_info self !! k.
Proof.
  revert self. induction l as [|info l IH]; intros self Hk; [done|].
  rewrite update_instance_infos_cons, IH.
  - unfold GlobalScheduler.update_instance_infos. simpl. case_decide; [|done].
    simpl. apply lookup_insert_ne. congruence.
  - by destruct (update_instance_infos_members self [info]) as [-> _].
Qed.

(** C9.  [update_instance_infos] leaves [instance_id_set] and
    [num_instances] as they are and changes [instance_info] at no key
    outside [instance_id_set]; a snapshot whose id is not in
    [instance_id_set] can be removed from the argument without changing the
    result, and when no snapshot has a known id the scheduler is
    unchanged.  The function is total: no input raises. *)
Theorem update_instance_infos_frame (self : GlobalScheduler.t)
    (instance_infos : list InstanceInfo) :
  let self' := GlobalScheduler.update_instance_infos self instance_infos in
  GlobalScheduler.instance_id_set self' = GlobalScheduler.instance_id_set self /\
  GlobalScheduler.num_instances self' = GlobalScheduler.num_instances self /\
  (forall k, k ∉ GlobalScheduler.instance_id_set self ->
     GlobalScheduler.instance_info self' !! k = GlobalScheduler.instance_info self !! k) /\
  (forall before info after,
     instance_infos = before ++ info :: after ->
     instance_id info ∉ GlobalScheduler.instance_id_set self ->
     self' = GlobalScheduler.update_instance_infos self (before ++ after)) /\
  ((forall info, info ∈ instance_infos ->
      instance_id info ∉ GlobalScheduler.instance_id_set self) ->
   self' = self).
Proof.
  cbn zeta. destruct (update_instance_infos_members self instance_infos) as [Hs Hn].
  split; [done|]. split; [done|]. split; [|split].
  - intros k Hk. by apply update_instance_infos_other.
  - intros before info after -> Hid.
    rewrite !update_instance_infos_app, update_instance_infos_cons.
    rewrite update_instance_infos_unknown; [done|].
    by destruct (update_instance_infos_members self before) as [-> _].
  - clear Hs Hn. induction instance_infos as [|info l IH]; intros Hall; [done|].
    rewrite update_instance_infos_cons, update_instance_infos_unknown.
    + apply IH. intros i Hi. apply Hall. by right.
    + apply Hall. by left.
Qed.

(** ** GlobalScheduler.scale_up *)

Section ScaleUpFacts.
Context {InstanceArgs : Type}.
Variable empty_instance_info : InstanceInfo.

Local Abbreviation scale_up_one := (GlobalScheduler.scale_up_one empty_instance_info).
Local Abbreviation scale_up :=
  (GlobalScheduler.scale_up (InstanceArgs := InstanceArgs) empty_instance_info).

Lemma scale_up_fold_members (ps : list (string * InstanceArgs)) (self : GlobalScheduler.t) :
  GlobalScheduler.instance_id_set (fold_left scale_up_one ps self) =
  GlobalScheduler.instance_id_set self ∪ list_to_set ps.*1.
Proof.
  revert self. induction ps as [|[i a] ps IH]; intros self; simpl.
  - set_solver.
  - rewrite IH. case_decide; simpl; set_solver.
Qed.

Lemma scale_up_fold_table (ps : list (string * InstanceArgs)) (self : GlobalScheduler.t)
    (k : string) :
  k ∉ ps.*1 ->
  GlobalScheduler.instance_info (fold_left scale_up_one ps self) !! k =
  GlobalScheduler.instance_info self !! k.
Proof.
  revert self. induction ps as [|[i a] ps IH]; intros self Hk; simpl; [done|].
  rewrite fmap_cons, not_elem_of_cons in Hk. destruct Hk as [Hki Hk]. simpl in Hki.
  rewrite IH by done. case_decide; simpl; [|done].
  by apply lookup_insert_ne.
Qed.

Lemma scale_up_fold_count (ps : list (string * InstanceArgs)) (self : GlobalScheduler.t) :
  GlobalScheduler.num_instances self =
    Z.of_nat (size (GlobalScheduler.instance_id_set self)) ->
  GlobalScheduler.num_instances (fold_left scale_up_one ps self) =
    Z.of_nat (size (GlobalScheduler.instance_id_set (fold_left scale_up_one ps self))).
Proof.
  revert self. induction ps as [|[i a] ps IH]; intros self Hn; simpl; [done|].
  apply IH. by case_decide.
Qed.

(** C10.  With fewer [instance_args] than ids, [scale_up] does what it
    does on the first [length instance_args] ids alone, and returns: an id
    of the rest that is neither among these nor already known is not added
    to [instance_id_set], and the table is unchanged at it; the returned
    number is the resulting [num_instances], which counts the resulting
    [instance_id_set] whenever it counted the initial one. *)
Theorem scale_up_short_args (self : GlobalScheduler.t) (ins_ids : list string)
    (instance_args : list InstanceArgs) :
  (length instance_args < length ins_ids)%nat ->
  let m := length instance_args in
  let self' := fst (scale_up self (GlobalScheduler.ManyIds ins_ids) instance_args) in
  let returned := snd (scale_up self (GlobalScheduler.ManyIds ins_ids) instance_args) in
  scale_up self (GlobalScheduler.ManyIds ins_ids) instance_args =
    scale_up self (GlobalScheduler.ManyIds (take m ins_ids)) instance_args /\
  GlobalScheduler.instance_id_set self' =
    GlobalScheduler.instance_id_set self ∪ list_to_set (take m ins_ids) /\
  (forall ins_id, ins_id ∈ drop m ins_ids -> ins_id ∉ take m ins_ids ->
     ins_id ∉ GlobalScheduler.instance_id_set self ->
     (ins_id ∉ GlobalScheduler.instance_id_set self') /\
     GlobalScheduler.instance_info self' !! ins_id =
       GlobalScheduler.instance_info self !! ins_id) /\
  returned = GlobalScheduler.num_instances self' /\
  (GlobalScheduler.num_instances self =
     Z.of_nat (size (GlobalScheduler.instance_id_set self)) ->
   returned = Z.of_nat (size (GlobalScheduler.instance_id_set self'))).
Proof.
  intros Hlen. cbn zeta.
  assert (Hzip : zip ins_ids instance_args =
                 zip (take (length instance_args) ins_ids) instance_args).
  { symmetry. apply zip_with_take_l. }
  assert (Hfst : (zip ins_ids instance_args).*1 = take (length instance_args) ins_ids).
  { rewrite Hzip. apply fst_zip. rewrite length_take. lia. }
  unfold GlobalScheduler.scale_up. simpl.
  split; [by rewrite <- Hzip|].
  split; [by rewrite scale_up_fold_members, Hfst|].
  split; [|split; [done|by apply scale_up_fold_count]].
  intros ins_id _ Hnot Hnew. split.
  - rewrite scale_up_fold_members, Hfst. set_solver.
  - apply scale_up_fold_table. by rewrite Hfst.
Qed.

End ScaleUpFacts.

(** ** Urgency.get_src_instances *)

Lemma get_src_instances_None (src_instance_infos : list InstanceInfo) :
  Urgency.get_src_instances src_instance_infos = None <->
  forall x, x ∈ src_instance_infos -> num_waiting_requests x <= 0.
Proof.
  unfold Urgency.get_src_instances.
  destruct (Nat.eqb_spec
    (length (List.filter (fun x => 0 <? num_waiting_requests x) src_instance_infos)) 0)
    as [E|E]; simpl.
  - split; [intros _|done]. intros x Hx. rewrite filter_length_zero in E.
    specialize (E x Hx). lia.
  - split; [done|]. intros H. exfalso. apply E, filter_length_zero.
    intros x Hx. specialize (H x Hx). lia.
Qed.

(** What the code returns when some instance has waiting requests: the ids
    of all the instances of the argument, idle ones included. *)
Lemma get_src_instances_all (src_instance_infos : list InstanceInfo) (x : InstanceInfo) :
  x ∈ src_instance_infos -> 0 < num_waiting_requests x ->
  exists ids, Urgency.get_src_instances src_instance_infos = Some ids /\
    ids ≡ₚ instance_id <$> src_instance_infos.
Proof.
  intros Hx Hw. unfold Urgency.get_src_instances.
  destruct (Nat.eqb_spec
    (length (List.filter (fun x => 0 <? num_waiting_requests x) src_instance_infos)) 0)
    as [E|E]; simpl.
  - rewrite filter_length_zero in E. specialize (E x Hx). lia.
  - eexists. split; [done|]. by rewrite sorted_reverse_Permutation.
Qed.

(** ** Float comparisons *)

Lemma SFltb_rank (x y : spec_float) :
  not_nan x -> not_nan y -> SFltb x y = true <-> lex_lt (rank x) (rank y).
Proof.
  unfold not_nan, SFltb, SFcompare, lex_lt.
  destruct x as [sx|sx| |sx mx ex], y as [sy|sy| |sy my ey]; try done;
    try destruct sx; try destruct sy; simpl; intros _ _; try (split; [done|lia]);
    try (split; [lia|done]);
    change (Pos.compare_cont Eq mx my) with (Pos.compare mx my);
    destruct (Z.compare_spec ex ey); destruct (Pos.compare_spec mx my);
    simpl; split; intros; try done; lia.
Qed.

Lemma SFleb_rank (x y : spec_float) :
  not_nan x -> not_nan y -> SFleb x y = true <-> ~ lex_lt (rank y) (rank x).
Proof.
  unfold not_nan, SFleb, SFcompare, lex_lt.
  destruct x as [sx|sx| |sx mx ex], y as [sy|sy| |sy my ey]; try done;
    try destruct sx; try destruct sy; simpl; intros _ _; try (split; [done|lia]);
    try (split; [lia|done]);
    change (Pos.compare_cont Eq mx my) with (Pos.compare mx my);
    destruct (Z.compare_spec ex ey); destruct (Pos.compare_spec mx my);
    simpl; split; intros; try done; lia.
Qed.

Lemma SFltb_asym (a b : spec_float) :
  not_nan a -> not_nan b -> SFltb a b = true -> SFltb b a = false.
Proof.
  intros Ha Hb H. apply SFltb_rank in H; [|done..].
  destruct (SFltb b a) eqn:E; [|done]. apply SFltb_rank in E; [|done..].
  unfold lex_lt in *. lia.
Qed.

Lemma SFltb_cotrans (a b c : spec_float) :
  not_nan a -> not_nan b -> not_nan c ->
  SFltb a c = true -> SFltb a b = true \/ SFltb b c = true.
Proof.
  intros Ha Hb Hc H. apply SFltb_rank in H; [|done..].
  rewrite !SFltb_rank by done. unfold lex_lt in *. lia.
Qed.

Lemma SFltb_false_leb (a b : spec_float) :
  not_nan a -> not_nan b -> SFltb a b = false -> SFleb b a = true.
Proof.
  intros Ha Hb H. apply SFleb_rank; [done..|].
  intros Hlt. apply SFltb_rank in Hlt; [|done..]. congruence.
Qed.

Lemma SFeqb_neg_inf (x : spec_float) :
  SFeqb x F64.neg_inf = true <-> x = F64.neg_inf.
Proof.
  unfold SFeqb, SFcompare, F64.neg_inf.
  destruct x as [sx|sx| |sx mx ex]; try destruct sx; simpl; split; done.
Qed.

(** ** Rounding never yields a NaN *)

Lemma shr_1_nonneg (mrs : shr_record) : 0 <= shr_m mrs -> 0 <= shr_m (shr_1 mrs).
Proof.
  destruct mrs as [m r s]. destruct m as [|p|p]; simpl; try lia; destruct p; simpl; lia.
Qed.

Lemma iter_pos_shr_1_nonneg (p : positive) (mrs : shr_record) :
  0 <= shr_m mrs -> 0 <= shr_m (SpecFloat.iter_pos shr_1 p mrs).
Proof.
  revert mrs. induction p as [p IH|p IH|]; intros mrs H; simpl.
  - apply IH, IH. by apply shr_1_nonneg.
  - by apply IH, IH.
  - by apply shr_1_nonneg.
Qed.

Lemma shr_fexp_nonneg (m e : Z) (l : location) :
  0 <= m -> 0 <= shr_m (fst (shr_fexp F64.prec F64.emax m e l)).
Proof.
  intros H. unfold shr_fexp, shr.
  assert (Hm : shr_m (shr_record_of_loc m l) = m) by by destruct l as [|[]].
  destruct (fexp _ _ _ - e); simpl; rewrite <- Hm in H; [done| |done].
  by apply iter_pos_shr_1_nonneg.
Qed.

Lemma round_nearest_even_nonneg (m : Z) (l : location) :
  0 <= m -> 0 <= round_nearest_even m l.
Proof. intros H. destruct l as [|[]]; simpl; try lia. destruct (Z.even m); lia. Qed.

Lemma binary_round_aux_not_nan (sx : bool) (mx ex : Z) (lx : location) :
  0 <= mx -> not_nan (binary_round_aux F64.prec F64.emax sx mx ex lx).
Proof.
  intros H. unfold binary_round_aux.
  pose proof (shr_fexp_nonneg mx ex lx H) as H1.
  destruct (shr_fexp F64.prec F64.emax mx ex lx) as [mrs' e']. simpl in H1.
  pose proof (shr_fexp_nonneg _ e' loc_Exact
    (round_nearest_even_nonneg (shr_m mrs') (loc_of_shr_record mrs') H1)) as H2.
  destruct (shr_fexp F64.prec F64.emax _ e' loc_Exact) as [mrs'' e'']. simpl in H2.
  destruct (shr_m mrs''); [done| |lia].
  by destruct (_ <=? _).
Qed.

Lemma binary_normalize_not_nan (m e : Z) (szero : bool) :
  not_nan (binary_normalize F64.prec F64.emax m e szero).
Proof.
  unfold binary_normalize, binary_round.
  destruct m as [|p|p]; [done| |]; destruct (shl_align _ _ _);
    by apply binary_round_aux_not_nan.
Qed.

Lemma of_int_zero_or_finite (n : Z) (f : spec_float) :
  F64.of_int n = Some f -> zero_or_finite f.
Proof.
  unfold F64.of_int. pose proof (binary_normalize_not_nan n 0 false) as H.
  destruct (binary_normalize F64.prec F64.emax n 0 false); intros [= <-]; done.
Qed.

Lemma add_lit_not_nan (r : spec_float) :
  zero_or_finite r -> not_nan (F64.add r F64.lit_1e_5).
Proof.
  destruct r as [s|s| |s m e]; try done. intros _.
  unfold F64.add, F64.lit_1e_5, SFadd. apply binary_normalize_not_nan.
Qed.

Lemma div_not_nan (f d : spec_float) :
  zero_or_finite f -> not_nan d -> F64.is_zero d = false -> not_nan (F64.div f d).
Proof.
  destruct f as [sf|sf| |sf mf ef]; try done; destruct d as [sd|sd| |sd md ed]; try done.
  intros _ _ _. unfold F64.div, SFdiv.
  destruct (SFdiv_core_binary _ _ _ _ _ _) as [[mz ez] lz] eqn:E.
  apply binary_round_aux_not_nan.
  unfold SFdiv_core_binary in E.
  set (s := ef - ed - _) in E.
  set (m' := match s with Z.pos _ => Z.shiftl (Z.pos mf) s | 0 => Z.pos mf | Z.neg _ => 0 end) in E.
  assert (Hm' : 0 <= m').
  { unfold m'. destruct s eqn:Es; [lia| |lia]. apply Z.shiftl_nonneg. lia. }
  pose proof (Z.div_pos m' (Z.pos md) Hm' ltac:(lia)) as Hq.
  unfold Z.div in Hq. destruct (Z.div_eucl m' (Z.pos md)) as [q r].
  by injection E as <- _ _.
Qed.

(** ** Balanced.pair_migration *)

Lemma sort_instance_infos_Permutation (l : list InstanceInfo) (descending : bool) :
  Balanced.sort_instance_infos l descending ≡ₚ l.
Proof.
  unfold Balanced.sort_instance_infos. destruct descending.
  - apply sorted_reverse_Permutation.
  - apply sorted_Permutation.
Qed.

Lemma accepted_guard (threshold : spec_float) (src dst : InstanceInfo) :
  Balanced.accepted threshold src dst = true ->
  F64.ltb threshold (migration_load_metric_after_migrate_in dst) = false /\
  ((F64.ltb F64.zero
      (F64.sub (migration_load_metric_after_migrate_out src)
               (migration_load_metric_after_migrate_in dst)) = true /\
    F64.ltb
      (F64.sub (migration_load_metric_after_migrate_out src)
               (migration_load_metric_after_migrate_in dst))
      (F64.sub (migration_load_metric src) (migration_load_metric dst)) = true) \/
   migration_load_metric dst = F64.neg_inf).
Proof.
  unfold Balanced.accepted.
  destruct (F64.ltb threshold (migration_load_metric_after_migrate_in dst)); [done|].
  intros H. split; [done|].
  apply orb_true_iff in H as [H|H].
  - left. by apply andb_true_iff in H.
  - right. by apply SFeqb_neg_inf.
Qed.

(** C3, as the code has it.  Every pair that [Balanced.pair_migration]
    returns is the pair of ids of a source [src] and a destination [dst]
    of the arguments such that the guard
    [dst.migration_load_metric_after_migrate_in > migrate_out_load_threshold]
    is false, which is [<=] when neither of the two is a NaN and holds of
    every pair when one is; and either [0 < diff_after < diff_before], with
    [diff_after = src.migration_load_metric_after_migrate_out -
    dst.migration_load_metric_after_migrate_in] and
    [diff_before = src.migration_load_metric - dst.migration_load_metric],
    or [dst.migration_load_metric] is minus infinity. *)
Theorem Balanced_anti_ping_pong (migrate_out_load_threshold : spec_float)
    (src_instance_infos dst_instance_infos : list InstanceInfo) (pair : string * string) :
  pair ∈ Balanced.pair_migration migrate_out_load_threshold
           src_instance_infos dst_instance_infos ->
  exists src dst,
    pair = (instance_id src, instance_id dst) /\
    src ∈ src_instance_infos /\ dst ∈ dst_instance_infos /\
    let dst_after := migration_load_metric_after_migrate_in dst in
    let diff_after :=
      F64.sub (migration_load_metric_after_migrate_out src) dst_after in
    let diff_before :=
      F64.sub (migration_load_metric src) (migration_load_metric dst) in
    F64.ltb migrate_out_load_threshold dst_after = false /\
    (not_nan migrate_out_load_threshold -> not_nan dst_after ->
     F64.leb dst_after migrate_out_load_threshold = true) /\
    ((F64.ltb F64.zero diff_after = true /\ F64.ltb diff_after diff_before = true) \/
     migration_load_metric dst = F64.neg_inf).
Proof.
  unfold Balanced.pair_migration, Balanced.migrate_instance_infos.
  intros H. apply list_elem_of_fmap in H as ([src dst] & -> & H).
  apply elem_of_filter in H as [Hzip Hacc]. simpl in Hacc.
  exists src, dst. split; [done|].
  split.
  { apply elem_of_zip_l in Hzip. by rewrite sort_instance_infos_Permutation in Hzip. }
  split.
  { apply elem_of_zip_r in Hzip. by rewrite sort_instance_infos_Permutation in Hzip. }
  cbn zeta. apply accepted_guard in Hacc as [Hthr Hdiff].
  split; [done|]. split; [|done].
  intros Ht Hd. by apply SFltb_false_leb.
Qed.

(** ** Urgency.get_dst_instance *)

Lemma with_keys_Some (l : list InstanceInfo) (keyed : list (spec_float * InstanceInfo)) :
  Urgency.with_keys l = Some keyed ->
  snd <$> keyed = l /\
  Forall (fun p => Urgency.dst_key (snd p) = Some (fst p)) keyed.
Proof.
  unfold Urgency.with_keys. intros H. apply mapM_Some_1 in H.
  induction H as [|x p l keyed Hp _ [IH1 IH2]]; [done|].
  destruct (Urgency.dst_key x) as [k|] eqn:Ek; [|done].
  simpl in Hp. injection Hp as <-. split; [by rewrite fmap_cons, IH1|].
  by constructor.
Qed.

Lemma with_keys_is_Some (l : list InstanceInfo) :
  Forall (fun x => is_Some (Urgency.dst_key x)) l -> is_Some (Urgency.with_keys l).
Proof.
  intros H. apply mapM_is_Some_2. eapply Forall_impl; [exact H|].
  intros x [k Hk]. simpl. rewrite Hk. simpl. eauto.
Qed.

Lemma admissible_spec (n : Z) (x : InstanceInfo) :
  Urgency.admissible n x = true <->
  0 < num_free_gpu_blocks x - num_watermark_blocks x - n.
Proof. unfold Urgency.admissible. lia. Qed.

Lemma get_dst_instance_not_src (dst_instance_infos : list InstanceInfo)
    (src_instance_id : string) (target_request : Request) :
  Urgency.get_dst_instance dst_instance_infos src_instance_id target_request
  <> Some (Some src_instance_id).
Proof.
  unfold Urgency.get_dst_instance.
  destruct (avg_pend_time _) as [avg|]; [|done]. cbn [mbind option_bind].
  destruct (negb _); [|done].
  destruct (Urgency.with_keys _) as [keyed|]; [|done]. simpl.
  destruct (head _) as [first|]; [|done]. simpl.
  destruct (String.eqb_spec (instance_id first.2) src_instance_id); [done|].
  congruence.
Qed.

Lemma get_dst_instance_admissible (dst_instance_infos : list InstanceInfo)
    (src_instance_id : string) (target_request : Request) (dst_id : string) :
  Urgency.get_dst_instance dst_instance_infos src_instance_id target_request
    = Some (Some dst_id) ->
  exists dst, dst ∈ dst_instance_infos /\ instance_id dst = dst_id /\
    0 < num_free_gpu_blocks dst - num_watermark_blocks dst - n_blocks target_request.
Proof.
  unfold Urgency.get_dst_instance.
  destruct (avg_pend_time _) as [avg|]; [|done]. cbn [mbind option_bind].
  destruct (negb _); [|done].
  destruct (Urgency.with_keys _) as [keyed|] eqn:Ek; [|done]. simpl.
  destruct (head _) as [first|] eqn:Eh; [|done]. simpl.
  destruct (String.eqb (instance_id first.2) src_instance_id); [done|].
  intros [= <-]. exists first.2.
  apply with_keys_Some in Ek as [Hsnd _].
  assert (Hin : first.2 ∈ List.filter (Urgency.admissible (n_blocks target_request))
                              dst_instance_infos).
  { rewrite <- Hsnd. apply list_elem_of_fmap. exists first. split; [done|].
    apply head_Some_elem_of in Eh.
    by rewrite sorted_reverse_Permutation in Eh. }
  apply elem_of_filter in Hin as [Hin Hadm].
  split; [done|]. split; [done|]. by apply admissible_spec.
Qed.

(** The key of an instance, when its computation raises nothing, is not
    a NaN. *)
Lemma dst_key_not_nan (x : InstanceInfo) (k : spec_float) :
  Urgency.dst_key x = Some k -> not_nan k.
Proof.
  unfold Urgency.dst_key, F64.truediv.
  destruct (F64.of_int (num_running_requests x)) as [r|] eqn:Er; [|done]. simpl.
  destruct (F64.of_int (num_free_gpu_blocks x)) as [f|] eqn:Ef; [|done]. simpl.
  destruct (F64.is_zero (F64.add r F64.lit_1e_5)) eqn:Ez; [done|]. intros [= <-].
  apply div_not_nan; [by apply (of_int_zero_or_finite _ _ Ef)| |done].
  apply add_lit_not_nan. by apply (of_int_zero_or_finite _ _ Er).
Qed.

(** The rule of [get_dst_instance] when [avg_pend_time] raises nothing. *)
Lemma get_dst_instance_logged (dst_instance_infos : list InstanceInfo)
    (src_instance_id : string) (target_request : Request) :
  (forall i, i ∈ dst_instance_infos -> avg_pending_defined i) ->
  let admissible := fun x =>
    0 < num_free_gpu_blocks x - num_watermark_blocks x - n_blocks target_request in
  let result :=
    Urgency.get_dst_instance dst_instance_infos src_instance_id target_request in
  (~ (exists x, x ∈ dst_instance_infos /\ admissible x) -> result = Some None) /\
  ((exists x, x ∈ dst_instance_infos /\ admissible x /\ Urgency.dst_key x = None) ->
   result = None) /\
  ((exists x, x ∈ dst_instance_infos /\ admissible x) ->
   (forall x, x ∈ dst_instance_infos -> admissible x -> is_Some (Urgency.dst_key x)) ->
   exists best k,
     first_greatest_key admissible Urgency.dst_key dst_instance_infos best k /\
     result = Some (if String.eqb (instance_id best) src_instance_id
                    then None else Some (instance_id best))).
Proof.
  intros Hlog. cbn zeta. split; [|split].
  - intros Hno. unfold Urgency.get_dst_instance.
    destruct (avg_pend_time_is_Some dst_instance_infos Hlog) as [avg ->].
    cbn [mbind option_bind].
    destruct (Nat.eqb_spec
      (length (List.filter (Urgency.admissible (n_blocks target_request))
                 dst_instance_infos)) 0) as [E|E]; simpl; [done|].
    exfalso. apply E, filter_length_zero. intros x Hx.
    destruct (Urgency.admissible (n_blocks target_request) x) eqn:Ea; [|done].
    destruct Hno. exists x. split; [done|]. by apply admissible_spec.
  - intros (x & Hx & Hadm & Hkey). unfold Urgency.get_dst_instance.
    destruct (avg_pend_time_is_Some dst_instance_infos Hlog) as [avg ->].
    cbn [mbind option_bind].
    assert (Hin : x ∈ List.filter (Urgency.admissible (n_blocks target_request))
                        dst_instance_infos).
    { apply elem_of_filter. split; [done|]. by apply admissible_spec. }
    destruct (Nat.eqb_spec
      (length (List.filter (Urgency.admissible (n_blocks target_request))
                 dst_instance_infos)) 0) as [E|E]; simpl.
    { destruct (List.filter _ _); [by apply elem_of_nil in Hin|done]. }
    unfold Urgency.with_keys. rewrite mapM_None_2; [done|].
    apply Exists_exists. exists x. split; [done|]. by rewrite Hkey.
  - intros (x0 & Hx0 & Hadm0) Hkeys. unfold Urgency.get_dst_instance.
    destruct (avg_pend_time_is_Some dst_instance_infos Hlog) as [avg ->].
    cbn [mbind option_bind].
    set (filtered := List.filter (Urgency.admissible (n_blocks target_request))
                       dst_instance_infos).
    assert (Hfil : forall x, x ∈ filtered <->
              x ∈ dst_instance_infos /\
              0 < num_free_gpu_blocks x - num_watermark_blocks x - n_blocks target_request).
    { intros x. unfold filtered. by rewrite elem_of_filter, admissible_spec. }
    destruct (Nat.eqb_spec (length filtered) 0) as [E|E]; simpl.
    { assert (Hx : x0 ∈ filtered) by by apply Hfil.
      destruct filtered; [by apply elem_of_nil in Hx|done]. }
    destruct (with_keys_is_Some filtered) as [keyed Hkeyed].
    { apply Forall_forall. intros x Hx. apply Hfil in Hx as [Hx Hadm]. by apply Hkeys. }
    rewrite Hkeyed. simpl.
    apply with_keys_Some in Hkeyed as [Hsnd Hkey].
    assert (Hok : Forall (fun p => not_nan (fst p)) keyed).
    { eapply Forall_impl; [exact Hkey|]. intros p Hp. by apply (dst_key_not_nan p.2). }
    destruct (head_sorted_reverse_is_Some F64.ltb fst keyed) as [first Hfirst].
    { intros ->. simpl in Hsnd. by rewrite <- Hsnd in E. }
    rewrite Hfirst. simpl.
    apply (head_sorted_reverse_split F64.ltb fst not_nan SFltb_asym SFltb_cotrans)
      in Hfirst as (k1 & k2 & -> & H1 & H2); [|done].
    rewrite fmap_app, fmap_cons in Hsnd.
    assert (Hbest : first.2 ∈ filtered) by (rewrite <- Hsnd; apply elem_of_middle).
    symmetry in Hsnd. unfold filtered in Hsnd.
    apply filter_split in Hsnd as (l1 & l2 & Hl & Hl1 & Hl2).
    exists first.2, first.1.
    split; [|by destruct (String.eqb (instance_id first.2) src_instance_id)].
    exists l1, l2. rewrite Forall_app, Forall_cons in Hkey.
    destruct Hkey as (Hkey1 & Hkeyf & Hkey2).
    split; [done|]. split; [by apply Hfil|].
    split; [done|]. split.
    + intros y Hy Hadm.
      assert (Hy' : y ∈ snd <$> k1).
      { rewrite <- Hl1. apply elem_of_filter. split; [done|]. by apply admissible_spec. }
      apply list_elem_of_fmap in Hy' as (p & -> & Hp).
      rewrite Forall_forall in Hkey1, H1. exists p.1. split; [by apply Hkey1|by apply H1].
    + intros y Hy Hadm.
      assert (Hy' : y ∈ snd <$> k2).
      { rewrite <- Hl2. apply elem_of_filter. split; [done|]. by apply admissible_spec. }
      apply list_elem_of_fmap in Hy' as (p & -> & Hp).
      rewrite Forall_forall in Hkey2, H2. exists p.1. split; [by apply Hkey2|by apply H2].
Qed.

(** C6, as the code has it.  [Urgency.get_dst_instance] never returns
    [src_instance_id].  It raises when
    [sum_pending / (num_waiting_requests + 1e-5)], computed for the log,
    raises for some instance of the argument.  When it raises for none,
    the call returns [None] when no instance has
    [num_free_gpu_blocks - num_watermark_blocks - n_blocks > 0]; it raises
    when the sort key [num_free_gpu_blocks / (num_running_requests + 1e-5)]
    of an admissible instance raises; otherwise it returns the id of the
    first admissible instance whose key, the quotient of the two floats,
    is greatest, or [None] when that id is [src_instance_id]. *)
Theorem Urgency_get_dst_instance_rule (dst_instance_infos : list InstanceInfo)
    (src_instance_id : string) (target_request : Request) :
  let admissible := fun x =>
    0 < num_free_gpu_blocks x - num_watermark_blocks x - n_blocks target_request in
  let key := fun x =>
    running ← F64.of_int (num_running_requests x);
    free ← F64.of_int (num_free_gpu_blocks x);
    F64.truediv free (F64.add running F64.lit_1e_5) in
  let result :=
    Urgency.get_dst_instance dst_instance_infos src_instance_id target_request in
  ((exists i, i ∈ dst_instance_infos /\ ~ avg_pending_defined i) -> result = None) /\
  ((forall i, i ∈ dst_instance_infos -> avg_pending_defined i) ->
   (~ (exists x, x ∈ dst_instance_infos /\ admissible x) -> result = Some None) /\
   ((exists x, x ∈ dst_instance_infos /\ admissible x /\ key x = None) ->
    result = None) /\
   ((exists x, x ∈ dst_instance_infos /\ admissible x) ->
    (forall x, x ∈ dst_instance_infos -> admissible x -> is_Some (key x)) ->
    exists best k,
      first_greatest_key admissible key dst_instance_infos best k /\
      result = Some (if String.eqb (instance_id best) src_instance_id
                     then None else Some (instance_id best)))) /\
  result <> Some (Some src_instance_id).
Proof.
  cbn zeta. split; [|split; [|apply get_dst_instance_not_src]].
  - intros Hraise. unfold Urgency.get_dst_instance.
    by rewrite (avg_pend_time_None dst_instance_infos Hraise).
  - intros Hlog.
    exact (get_dst_instance_logged dst_instance_infos src_instance_id target_request Hlog).
Qed.

(** ** Sortedness of [sorted] *)

Section SortedOrder.
Context {A K : Type}.
Variable lt : K -> K -> bool.
Variable key : A -> K.
Variable ok : K -> Prop.
Hypothesis lt_asym : forall a b, ok a -> ok b -> lt a b = true -> lt b a = false.
Hypothesis lt_cotrans : forall a b c, ok a -> ok b -> ok c ->
  lt a c = true -> lt a b = true \/ lt b c = true.

Local Abbreviation not_after := (fun x y => lt (key y) (key x) = false).

Lemma insert_by_StronglySorted (x : A) (s : list A) :
  ok (key x) -> Forall (fun y => ok (key y)) s ->
  StronglySorted not_after s ->
  StronglySorted not_after (Py.insert_by lt key x s).
Proof.
  intros Hx Hok Hs. induction Hs as [|y s Hs IH Hy]; simpl.
  - repeat constructor.
  - apply Forall_cons in Hok as [Hoy Hok].
    destruct (lt (key y) (key x)) eqn:E.
    + constructor; [by apply IH|].
      rewrite insert_by_Permutation. constructor; [|done].
      by apply lt_asym.
    + constructor; [by constructor|]. constructor; [done|].
      rewrite Forall_forall in *. intros z Hz.
      destruct (lt (key z) (key x)) eqn:Ez; [|done].
      destruct (lt_cotrans _ (key y) _ (Hok z Hz) Hoy Hx Ez) as [Hc|Hc]; [|congruence].
      by rewrite (Hy z Hz) in Hc.
Qed.

Lemma sorted_StronglySorted (l : list A) :
  Forall (fun y => ok (key y)) l ->
  StronglySorted not_after (Py.sorted lt key l).
Proof.
  induction l as [|x l IH]; intros Hok; simpl; [constructor|].
  apply Forall_cons in Hok as [Hx Hok].
  apply insert_by_StronglySorted; [done| |by apply IH].
  by rewrite sorted_Permutation.
Qed.

End SortedOrder.

(** ** The order of strings *)

Lemma String_ltb_leb (a b : string) : String.ltb a b = negb (String.leb b a).
Proof.
  unfold String.ltb, String.leb. rewrite (String.compare_antisym a b).
  by destruct (String.compare b a).
Qed.

Lemma String_ltb_asym (a b : string) :
  True -> True -> String.ltb a b = true -> String.ltb b a = false.
Proof.
  intros _ _. rewrite !String_ltb_leb.
  destruct (String.leb_total a b) as [->| ->]; simpl; [done|congruence].
Qed.

Lemma String_ltb_cotrans (a b c : string) :
  True -> True -> True ->
  String.ltb a c = true -> String.ltb a b = true \/ String.ltb b c = true.
Proof.
  intros _ _ _. rewrite !String_ltb_leb.
  destruct (String.leb b a) eqn:Eba; [|by left].
  destruct (String.leb c b) eqn:Ecb; [|by right].
  assert (Hca : String.le c a).
  { transitivity b; unfold String.le; by rewrite ?Ecb, ?Eba. }
  unfold String.le in Hca. apply Is_true_true in Hca. by rewrite Hca.
Qed.

Lemma String_ltb_total (a b : string) :
  String.ltb a b = false -> String.ltb b a = false -> a = b.
Proof.
  rewrite !String_ltb_leb, !negb_false_iff. intros Hba Hab.
  by apply String.leb_antisym.
Qed.

(** ** RoundRobin *)

Lemma all_instance_ids_Permutation (m : gmap string Z) :
  RoundRobin.all_instance_ids m ≡ₚ elements (dom m).
Proof. apply sorted_Permutation. Qed.

Lemma all_instance_ids_NoDup (m : gmap string Z) : NoDup (RoundRobin.all_instance_ids m).
Proof. rewrite all_instance_ids_Permutation. apply NoDup_elements. Qed.

Lemma all_instance_ids_elem_of (m : gmap string Z) (ins_id : string) :
  ins_id ∈ RoundRobin.all_instance_ids m <-> ins_id ∈ dom m.
Proof. by rewrite all_instance_ids_Permutation, elem_of_elements. Qed.

Lemma all_instance_ids_nonempty (m : gmap string Z) :
  m <> ∅ -> (0 < length (RoundRobin.all_instance_ids m))%nat.
Proof.
  intros Hm. rewrite (Permutation_length (all_instance_ids_Permutation m)).
  destruct (elements (dom m)) eqn:E; simpl; [|lia].
  apply elements_empty_inv, leibniz_equiv, dom_empty_inv_L in E. done.
Qed.

Lemma all_instance_ids_sorted (m : gmap string Z) :
  StronglySorted (fun a b => String.ltb a b = true) (RoundRobin.all_instance_ids m).
Proof.
  pose proof (all_instance_ids_NoDup m) as Hnd.
  pose proof (sorted_StronglySorted String.ltb id (fun _ => True)
                String_ltb_asym String_ltb_cotrans (elements (dom m))
                (Forall_True _)) as Hs.
  fold (RoundRobin.all_instance_ids m) in Hs.
  induction Hs as [|a l Hs IH Ha]; [constructor|].
  apply NoDup_cons in Hnd as [Hnotin Hnd].
  constructor; [by apply IH|].
  rewrite Forall_forall in *. intros b Hb. specialize (Ha b Hb). simpl in Ha.
  destruct (String.ltb a b) eqn:E; [done|].
  exfalso. apply Hnotin. by rewrite (String_ltb_total a b E Ha).
Qed.

Lemma getitem_in_range {A : Type} (l : list A) (i : Z) :
  0 <= i < Z.of_nat (length l) -> RoundRobin.getitem l i = l !! Z.to_nat i.
Proof.
  intros Hi. unfold RoundRobin.getitem.
  destruct (Z.leb_spec 0 i); [|lia]. destruct (Z.ltb_spec i (Z.of_nat (length l))); [|lia].
  done.
Qed.

Lemma dispatch_step (self : RoundRobin.t) (m : gmap string Z) :
  m <> ∅ ->
  let ids := RoundRobin.all_instance_ids m in
  let cur := (RoundRobin.prev_instance_idx self + 1) mod Z.of_nat (length ids) in
  exists target,
    ids !! Z.to_nat cur = Some target /\
    RoundRobin.dispatch self m = Some (target, {| RoundRobin.prev_instance_idx := cur |}).
Proof.
  intros Hm. cbn zeta. apply all_instance_ids_nonempty in Hm.
  unfold RoundRobin.dispatch.
  set (ids := RoundRobin.all_instance_ids m) in *.
  destruct (Z.eqb_spec (Z.of_nat (length ids)) 0) as [E|E]; [lia|].
  pose proof (Z.mod_pos_bound (RoundRobin.prev_instance_idx self + 1)
                (Z.of_nat (length ids))) as Hb.
  rewrite getitem_in_range by lia.
  destruct (lookup_lt_is_Some_2 ids
    (Z.to_nat ((RoundRobin.prev_instance_idx self + 1) mod Z.of_nat (length ids))))
    as [target Ht]; [lia|].
  exists target. by rewrite Ht.
Qed.

Lemma dispatch_many_targets (k : nat) (self : RoundRobin.t) (m : gmap string Z) :
  m <> ∅ ->
  let ids := RoundRobin.all_instance_ids m in
  exists targets self',
    RoundRobin.dispatch_many k self m = Some (targets, self') /\
    length targets = k /\
    forall i, (i < k)%nat ->
      targets !! i =
      ids !! Z.to_nat ((RoundRobin.prev_instance_idx self + 1 + Z.of_nat i)
                         mod Z.of_nat (length ids)).
Proof.
  intros Hm. cbn zeta. revert self. induction k as [|k IH]; intros self.
  - exists [], self. repeat split. intros i Hi. lia.
  - destruct (dispatch_step self m Hm) as (target & Ht & Hd).
    destruct (IH {| RoundRobin.prev_instance_idx :=
                      (RoundRobin.prev_instance_idx self + 1)
                        mod Z.of_nat (length (RoundRobin.all_instance_ids m)) |})
      as (targets & self' & Hmany & Hlen & Hall).
    exists (target :: targets), self'. simpl. rewrite Hd. simpl. rewrite Hmany. simpl.
    split; [done|]. split; [by rewrite Hlen|].
    intros [|i] Hi; simpl.
    + by rewrite Z.add_0_r.
    + rewrite Hall by lia. simpl. f_equal. f_equal.
      rewrite <- Z.add_assoc, Zplus_mod_idemp_l. f_equal. lia.
Qed.

Lemma count_cyclic (N K j : nat) :
  (0 < N)%nat -> (j < N)%nat ->
  count_occ Nat.eq_dec ((fun i => i mod N)%nat <$> seq 0 K) j =
  (K / N + (if j <? K mod N then 1 else 0))%nat.
Proof.
  intros HN Hj. induction K as [|K IH].
  - simpl. rewrite Nat.Div0.div_0_l, Nat.Div0.mod_0_l. done.
  - rewrite seq_S, fmap_app, count_occ_app, IH. simpl.
    pose proof (Nat.div_mod_eq K N) as HK.
    pose proof (Nat.mod_upper_bound K N ltac:(lia)) as Hr.
    set (q := (K / N)%nat) in *. set (r := (K mod N)%nat) in *.
    destruct (decide (r + 1 < N)%nat) as [Hlt|Hge].
    + rewrite <- (Nat.div_unique (S K) N q (r + 1)) by lia.
      rewrite <- (Nat.mod_unique (S K) N q (r + 1)) by lia.
      destruct (Nat.eq_dec r j); destruct (Nat.ltb_spec j r);
        destruct (Nat.ltb_spec j (r + 1)); lia.
    + rewrite <- (Nat.div_unique (S K) N (q + 1) 0) by lia.
      rewrite <- (Nat.mod_unique (S K) N (q + 1) 0) by lia.
      destruct (Nat.eq_dec r j); destruct (Nat.ltb_spec j r);
        destruct (Nat.ltb_spec j 0); lia.
Qed.

Lemma count_occ_indices (ids targets : list string) (idxs : list nat)
    (ins_id : string) (j : nat) :
  NoDup ids -> ids !! j = Some ins_id ->
  Forall2 (fun t ix => ids !! ix = Some t) targets idxs ->
  count_occ String.string_dec targets ins_id = count_occ Nat.eq_dec idxs j.
Proof.
  intros Hnd Hj H. induction H as [|t ix targets idxs Ht _ IH]; [done|].
  simpl. destruct (String.string_dec t ins_id) as [->|Hne]; destruct (Nat.eq_dec ix j) as [->|Hnj].
  - by rewrite IH.
  - destruct Hnj. by apply (NoDup_lookup ids ix j ins_id).
  - rewrite Hj in Ht. by injection Ht as ->.
  - done.
Qed.

Lemma floor_or_ceil (N K j : nat) :
  (0 < N)%nat ->
  let c := (K / N + (if j <? K mod N then 1 else 0))%nat in
  c = (K / N)%nat \/ c = ((K + N - 1) / N)%nat.
Proof.
  intros HN. cbn zeta.
  pose proof (Nat.div_mod_eq K N) as HK.
  pose proof (Nat.mod_upper_bound K N ltac:(lia)) as Hr.
  destruct (Nat.ltb_spec j (K mod N)) as [Hlt|Hge]; [right|left; lia].
  apply (Nat.div_unique (K + N - 1) N (K / N + 1) (K mod N - 1)); lia.
Qed.

(** C8.  For a fresh [RoundRobin] and a non-empty dict with [N] keys, [K]
    successive calls of [dispatch] all return: the [i]-th call returns the
    id at index [i mod N] of the keys in ascending lexicographic order, and
    each key is returned [K / N] times, rounded down or rounded up.  With
    the keys [x], [y], [z], four calls return [x], [y], [z], [x]. *)
Theorem RoundRobin_fairness :
  (forall (instance_num_requests : gmap string Z) (K : nat),
     instance_num_requests <> ∅ ->
     let ids := RoundRobin.all_instance_ids instance_num_requests in
     let N := length ids in
     N = size (dom instance_num_requests) /\
     ids ≡ₚ elements (dom instance_num_requests) /\
     StronglySorted (fun a b => String.ltb a b = true) ids /\
     exists targets self',
       RoundRobin.dispatch_many K RoundRobin.fresh instance_num_requests
         = Some (targets, self') /\
       length targets = K /\
       (forall i, (i < K)%nat -> targets !! i = ids !! (i mod N)%nat) /\
       (forall ins_id, ins_id ∈ dom instance_num_requests ->
          count_occ String.string_dec targets ins_id = (K / N)%nat \/
          count_occ String.string_dec targets ins_id = ((K + N - 1) / N)%nat)) /\
  (forall instance_num_requests : gmap string Z,
     dom instance_num_requests = {["x"; "y"; "z"]} ->
     fst <$> RoundRobin.dispatch_many 4 RoundRobin.fresh instance_num_requests
       = Some ["x"; "y"; "z"; "x"]).
Proof.
  split.
  - intros m K Hm. cbn zeta.
    pose proof (all_instance_ids_nonempty m Hm) as HN.
    set (ids := RoundRobin.all_instance_ids m) in *.
    split; [apply (Permutation_length (all_instance_ids_Permutation m))|].
    split; [apply all_instance_ids_Permutation|].
    split; [apply all_instance_ids_sorted|].
    destruct (dispatch_many_targets K RoundRobin.fresh m Hm)
      as (targets & self' & Hmany & Hlen & Hall).
    fold ids in Hall.
    assert (Hidx : forall i, (i < K)%nat -> targets !! i = ids !! (i mod length ids)%nat).
    { intros i Hi. rewrite (Hall i Hi). f_equal.
      replace (RoundRobin.prev_instance_idx RoundRobin.fresh + 1 + Z.of_nat i)
        with (Z.of_nat i) by (simpl; lia).
      rewrite <- Nat2Z.inj_mod. apply Nat2Z.id. }
    exists targets, self'. split; [done|]. split; [done|]. split; [done|].
    intros ins_id Hin. apply all_instance_ids_elem_of in Hin. fold ids in Hin.
    apply list_elem_of_lookup in Hin as [j Hj].
    pose proof (lookup_lt_Some _ _ _ Hj) as Hjlt.
    rewrite (count_occ_indices ids targets
               ((fun i => i mod length ids)%nat <$> seq 0 K) ins_id j).
    + rewrite count_cyclic by done. by apply floor_or_ceil.
    + apply all_instance_ids_NoDup.
    + done.
    + apply Forall2_same_length_lookup_2.
      * by rewrite length_fmap, length_seq.
      * intros i t ix Ht Hix. rewrite list_lookup_fmap in Hix.
        pose proof (lookup_lt_Some _ _ _ Ht) as Hi. rewrite Hlen in Hi.
        rewrite lookup_seq_lt in Hix by done. simpl in Hix. injection Hix as <-.
        by rewrite <- Hidx.
  - intros m Hdom.
    unfold RoundRobin.dispatch_many, RoundRobin.dispatch, RoundRobin.all_instance_ids.
    rewrite Hdom. by vm_compute.
Qed.

(** ** The redispatch planner *)

Lemma getitem_elem_of (c : GlobalScheduler.Candidates) (id : string) (v : Z * Z) :
  GlobalScheduler.getitem c id = Some v -> (id, v) ∈ c.
Proof.
  induction c as [|[k w] c IH]; simpl; [done|].
  destruct (String.eqb_spec k id) as [->|Hne].
  - intros [= ->]. by left.
  - intros H. right. by apply IH.
Qed.

Lemma getitem_NoDup (c : GlobalScheduler.Candidates) (e : string * (Z * Z)) :
  NoDup (fst <$> c) -> e ∈ c -> GlobalScheduler.getitem c (fst e) = Some (snd e).
Proof.
  induction c as [|[k w] c IH]; intros Hnd He; [by apply elem_of_nil in He|].
  rewrite fmap_cons in Hnd. apply NoDup_cons in Hnd as [Hk Hnd]. simpl in *.
  apply elem_of_cons in He as [->|He]; simpl.
  - by rewrite String.eqb_refl.
  - destruct (String.eqb_spec k (fst e)) as [->|Hne]; [|by apply IH].
    destruct Hk. apply list_elem_of_fmap. eauto.
Qed.

Lemma getitem_is_Some (c : GlobalScheduler.Candidates) (id : string) :
  id ∈ fst <$> c -> is_Some (GlobalScheduler.getitem c id).
Proof.
  induction c as [|[k w] c IH]; intros Hid; [by apply elem_of_nil in Hid|].
  simpl. destruct (String.eqb_spec k id) as [->|Hne]; [eauto|].
  rewrite fmap_cons in Hid. apply elem_of_cons in Hid as [Hid|Hid]; [|by apply IH].
  simpl in Hid. congruence.
Qed.

Lemma available_instance_ids_keys (c : GlobalScheduler.Candidates) (id : string) :
  id ∈ GlobalScheduler.available_instance_ids c -> id ∈ fst <$> c.
Proof.
  unfold GlobalScheduler.available_instance_ids. intros H.
  apply list_elem_of_fmap in H as (e & -> & He). apply elem_of_filter in He as [He _].
  apply list_elem_of_fmap. eauto.
Qed.

Lemma entries_Some (c : GlobalScheduler.Candidates) (ids : list string)
    (resolved : list (string * (Z * Z))) :
  GlobalScheduler.entries c ids = Some resolved ->
  fst <$> resolved = ids /\
  Forall (fun e => GlobalScheduler.getitem c (fst e) = Some (snd e)) resolved.
Proof.
  unfold GlobalScheduler.entries. intros H. apply mapM_Some_1 in H.
  induction H as [|id e ids resolved He _ [IH1 IH2]]; [done|].
  destruct (GlobalScheduler.getitem c id) as [v|] eqn:Ev; [|done].
  simpl in He. injection He as <-. split; [by rewrite fmap_cons, IH1|].
  by constructor.
Qed.

Lemma entries_is_Some (c : GlobalScheduler.Candidates) (ids : list string) :
  (forall id, id ∈ ids -> id ∈ fst <$> c) -> is_Some (GlobalScheduler.entries c ids).
Proof.
  intros H. apply mapM_is_Some_2, Forall_forall. intros id Hid. simpl.
  destruct (getitem_is_Some c id (H id Hid)) as [v ->]. simpl. eauto.
Qed.

(** On a dict, the resolved entries are the entries with free blocks. *)
Lemma entries_available (c : GlobalScheduler.Candidates) :
  NoDup (fst <$> c) ->
  GlobalScheduler.entries c (GlobalScheduler.available_instance_ids c) =
  Some (List.filter (fun e => 0 <? GlobalScheduler.free_of e) c).
Proof.
  intros Hnd. unfold GlobalScheduler.entries, GlobalScheduler.available_instance_ids.
  apply mapM_fmap_Forall_Some, Forall_forall. intros e He.
  apply elem_of_filter in He as [He _].
  rewrite (getitem_NoDup c e Hnd He). simpl. by destruct e.
Qed.

Lemma commit_totals (target : string) (n : Z) (c : GlobalScheduler.Candidates) :
  totals (GlobalScheduler.commit target n c) = totals c.
Proof.
  unfold totals. induction c as [|[k [free used]] c IH]; [done|].
  cbn [GlobalScheduler.commit]. destruct (String.eqb k target); rewrite !fmap_cons.
  - f_equal. unfold GlobalScheduler.free_of, GlobalScheduler.used_of. simpl.
    f_equal. lia.
  - f_equal. exact IH.
Qed.

Lemma totals_keys (c : GlobalScheduler.Candidates) : fst <$> totals c = fst <$> c.
Proof. unfold totals. rewrite <- list_fmap_compose. done. Qed.

Lemma totals_total_of (c c' : GlobalScheduler.Candidates) (id : string) :
  totals c' = totals c -> total_of c' id = total_of c id.
Proof.
  unfold totals, total_of. revert c'.
  induction c as [|[k [f u]] c IH]; intros [|[k' [f' u']] c'] H; try done.
  rewrite !fmap_cons in H. injection H as -> Hfu H. simpl.
  destruct (String.eqb k id); simpl.
  - unfold GlobalScheduler.free_of, GlobalScheduler.used_of in Hfu. simpl in Hfu.
    by rewrite Hfu.
  - by apply IH.
Qed.

Lemma totals_uniform (c c' : GlobalScheduler.Candidates) (capacity : Z) :
  totals c' = totals c -> uniform c capacity -> uniform c' capacity.
Proof.
  intros H [Hnd Hcap]. split.
  - by rewrite <- totals_keys, H, totals_keys.
  - intros e He.
    assert (Hin : (fst e, GlobalScheduler.free_of e + GlobalScheduler.used_of e) ∈ totals c).
    { rewrite <- H. unfold totals. apply list_elem_of_fmap. eauto. }
    unfold totals in Hin. apply list_elem_of_fmap in Hin as (e0 & [= _ ->] & He0).
    by apply Hcap.
Qed.

Lemma Py_min_by_is_Some {A : Type} (key : A -> Z) (l : list A) :
  l <> [] -> is_Some (Py.min_by key l).
Proof. destruct l; [done|]. simpl. eauto. Qed.

Lemma choose_is_Some (request : Request) (resolved : list (string * (Z * Z))) :
  resolved <> [] -> is_Some (GlobalScheduler.choose request resolved).
Proof.
  intros Hne. unfold GlobalScheduler.choose.
  destruct (Py_max_is_Some (GlobalScheduler.used_of <$> resolved)) as [m ->].
  { by destruct resolved. }
  simpl.
  destruct (Nat.eqb_spec (length (List.filter
    (fun e => 0 <? GlobalScheduler.free_of e - n_blocks request) resolved)) 0) as [E|E];
    [eauto|].
  destruct (Nat.eqb_spec (length (List.filter
    (fun e => 0 <? m - GlobalScheduler.used_of e - n_blocks request) resolved)) 0)
    as [E'|E']; simpl.
  - destruct (Py_min_by_is_Some
      (fun e => GlobalScheduler.used_of e + n_blocks request - m)
      (List.filter (fun e => 0 <? GlobalScheduler.free_of e - n_blocks request) resolved))
      as [t ->]; [|simpl; eauto].
    intros H. by rewrite H in E.
  - destruct (Py_min_by_is_Some
      (fun e => m - (GlobalScheduler.used_of e + n_blocks request))
      (List.filter (fun e => 0 <? m - GlobalScheduler.used_of e - n_blocks request)
         resolved)) as [t ->]; [|simpl; eauto].
    intros H. by rewrite H in E'.
Qed.

Lemma choose_infeasible (request : Request) (resolved : list (string * (Z * Z))) :
  resolved <> [] ->
  (forall e, e ∈ resolved -> GlobalScheduler.free_of e - n_blocks request <= 0) ->
  GlobalScheduler.choose request resolved = Some None.
Proof.
  intros Hne Hall. unfold GlobalScheduler.choose.
  destruct (Py_max_is_Some (GlobalScheduler.used_of <$> resolved)) as [m ->].
  { by destruct resolved. }
  simpl.
  destruct (Nat.eqb_spec (length (List.filter
    (fun e => 0 <? GlobalScheduler.free_of e - n_blocks request) resolved)) 0) as [E|E];
    [done|].
  destruct E. apply filter_length_zero. intros e He. specialize (Hall e He). lia.
Qed.

Lemma choose_Some (request : Request) (resolved : list (string * (Z * Z)))
    (b : GlobalScheduler.branch) (target : string * (Z * Z)) :
  GlobalScheduler.choose request resolved = Some (Some (b, target)) ->
  target ∈ resolved /\
  exists max_used_blocks,
    Py.max (GlobalScheduler.used_of <$> resolved) = Some max_used_blocks /\
    match b with
    | GlobalScheduler.BelowFrontier =>
        0 < max_used_blocks - GlobalScheduler.used_of target - n_blocks request
    | GlobalScheduler.LeastOvershoot =>
        0 < GlobalScheduler.free_of target - n_blocks request
    end.
Proof.
  unfold GlobalScheduler.choose.
  destruct (Py.max (GlobalScheduler.used_of <$> resolved)) as [m|]; [|done]. simpl.
  destruct (Nat.eqb_spec (length (List.filter
    (fun e => 0 <? GlobalScheduler.free_of e - n_blocks request) resolved)) 0) as [E|E];
    [done|].
  destruct (Nat.eqb_spec (length (List.filter
    (fun e => 0 <? m - GlobalScheduler.used_of e - n_blocks request) resolved)) 0)
    as [E'|E']; simpl.
  - destruct (Py.min_by _ _) as [t|] eqn:Et; [|done]. simpl. intros [= <- <-].
    apply Py_min_by_elem_of, elem_of_filter in Et as [Ht Hf].
    split; [done|]. exists m. split; [done|]. lia.
  - destruct (Py.min_by _ _) as [t|] eqn:Et; [|done]. simpl. intros [= <- <-].
    apply Py_min_by_elem_of, elem_of_filter in Et as [Ht Hf].
    split; [done|]. exists m. split; [done|]. lia.
Qed.

Lemma loop_Stopped (master : string) (requests : list Request)
    (c : GlobalScheduler.Candidates) (plans : GlobalScheduler.Plans) :
  GlobalScheduler.loop master requests (GlobalScheduler.Stopped c plans) =
  Some (GlobalScheduler.Stopped c plans).
Proof. by destruct requests. Qed.

Lemma loop_app (master : string) (l1 l2 : list Request) (st : GlobalScheduler.loop_state) :
  GlobalScheduler.loop master (l1 ++ l2) st =
  GlobalScheduler.loop master l1 st ≫= GlobalScheduler.loop master l2.
Proof.
  revert st. induction l1 as [|r l1 IH]; intros st; simpl.
  - by destruct st.
  - destruct st as [c a p|c p]; simpl.
    + destruct (GlobalScheduler.iteration master r c a p) as [st'|]; simpl; [|done].
      apply IH.
    + by rewrite loop_Stopped.
Qed.

Lemma resolved_running (c : GlobalScheduler.Candidates) (a : list string)
    (plans : GlobalScheduler.Plans) :
  running (GlobalScheduler.Running c a plans) ->
  exists resolved, GlobalScheduler.entries c a = Some resolved /\ resolved <> [].
Proof.
  intros [-> Hne].
  destruct (entries_is_Some c (GlobalScheduler.available_instance_ids c)) as [resolved Hr].
  { apply available_instance_ids_keys. }
  exists resolved. split; [done|]. intros ->.
  apply entries_Some in Hr as [Hr _]. simpl in Hr. by rewrite <- Hr in Hne.
Qed.

(** One iteration returns, keeps every [free + used], and leaves the loop
    running only on a non-empty list of available ids. *)
Lemma iteration_running (master : string) (request : Request)
    (c : GlobalScheduler.Candidates) (a : list string) (plans : GlobalScheduler.Plans) :
  running (GlobalScheduler.Running c a plans) ->
  exists st',
    GlobalScheduler.iteration master request c a plans = Some st' /\
    running st' /\
    totals (GlobalScheduler.candidates_of st') = totals c.
Proof.
  intros Hrun. destruct (resolved_running c a plans Hrun) as (resolved & Hr & Hne).
  unfold GlobalScheduler.iteration. rewrite Hr. simpl.
  destruct (choose_is_Some request resolved Hne) as [choice ->]. simpl.
  destruct choice as [[b target]|].
  - destruct (Nat.eqb_spec (length (GlobalScheduler.available_instance_ids
      (GlobalScheduler.commit (fst target) (n_blocks request) c))) 0) as [E|E].
    + eexists. split; [done|]. split; [done|]. apply commit_totals.
    + eexists. split; [done|]. split; [|apply commit_totals].
      split; [done|]. intros H. by rewrite H in E.
  - eexists. split; [done|]. done.
Qed.

Lemma loop_running (master : string) (requests : list Request)
    (st : GlobalScheduler.loop_state) :
  running st ->
  exists st',
    GlobalScheduler.loop master requests st = Some st' /\
    running st' /\
    totals (GlobalScheduler.candidates_of st') = totals (GlobalScheduler.candidates_of st).
Proof.
  revert st. induction requests as [|r requests IH]; intros st Hrun.
  - exists st. by destruct st.
  - destruct st as [c a p|c p].
    + destruct (iteration_running master r c a p Hrun) as (st1 & H1 & Hrun1 & Ht1).
      destruct (IH st1 Hrun1) as (st' & H' & Hrun' & Ht').
      exists st'. simpl. rewrite H1. simpl. split; [done|]. split; [done|].
      by rewrite Ht', Ht1.
    + exists (GlobalScheduler.Stopped c p). done.
Qed.

Lemma iteration_infeasible (master : string) (request : Request)
    (c : GlobalScheduler.Candidates) (a : list string) (plans : GlobalScheduler.Plans) :
  running (GlobalScheduler.Running c a plans) ->
  (forall id v, id ∈ a -> GlobalScheduler.getitem c id = Some v ->
     fst v - n_blocks request <= 0) ->
  GlobalScheduler.iteration master request c a plans =
  Some (GlobalScheduler.Stopped c plans).
Proof.
  intros Hrun Hall. destruct (resolved_running c a plans Hrun) as (resolved & Hr & Hne).
  unfold GlobalScheduler.iteration. rewrite Hr. simpl.
  rewrite choose_infeasible; [done..|].
  apply entries_Some in Hr as [Hfst Hget]. rewrite Forall_forall in Hget.
  intros e He. apply (Hall (fst e) (snd e)); [|by apply Hget].
  rewrite <- Hfst. apply list_elem_of_fmap. eauto.
Qed.

(** C5.  When the loop of [derive_redispatching_plans] reaches a request
    for which no available id has [free - n_blocks > 0], the call returns
    the plan accumulated before that request, each destination with the
    set of the request ids placed on it, and the candidates as they were
    before that request: the request and the ones after it change
    nothing, the result is that of the call on the requests before it.
    When no id is available at entry the call returns the empty plan. *)
Theorem planner_abort (master_instance_id : string) :
  (forall (before after : list Request) (request : Request)
          (candidate_instances c : GlobalScheduler.Candidates)
          (available : list string) (plans : GlobalScheduler.Plans),
     GlobalScheduler.available_instance_ids candidate_instances <> [] ->
     GlobalScheduler.loop master_instance_id before
       (GlobalScheduler.Running candidate_instances
          (GlobalScheduler.available_instance_ids candidate_instances) [])
       = Some (GlobalScheduler.Running c available plans) ->
     (forall id v, id ∈ available -> GlobalScheduler.getitem c id = Some v ->
        fst v - n_blocks request <= 0) ->
     GlobalScheduler.derive_redispatching_plans master_instance_id
       (before ++ request :: after) candidate_instances
       = Some (GlobalScheduler.post_process_plans plans, c) /\
     GlobalScheduler.derive_redispatching_plans master_instance_id
       (before ++ request :: after) candidate_instances
       = GlobalScheduler.derive_redispatching_plans master_instance_id
           before candidate_instances) /\
  (forall (requests : list Request) (candidate_instances : GlobalScheduler.Candidates),
     GlobalScheduler.available_instance_ids candidate_instances = [] ->
     GlobalScheduler.derive_redispatching_plans master_instance_id
       requests candidate_instances = Some ([], candidate_instances)).
Proof.
  split.
  - intros before after request c0 c a plans Hne Hloop Hall.
    assert (Hrun : running (GlobalScheduler.Running c a plans)).
    { destruct (loop_running master_instance_id before
        (GlobalScheduler.Running c0 (GlobalScheduler.available_instance_ids c0) []))
        as (st' & Hst' & Hrun & _); [done|].
      rewrite Hloop in Hst'. by injection Hst' as <-. }
    unfold GlobalScheduler.derive_redispatching_plans.
    destruct (Nat.eqb_spec (length (GlobalScheduler.available_instance_ids c0)) 0)
      as [E|E].
    { destruct (GlobalScheduler.available_instance_ids c0); done. }
    rewrite loop_app, Hloop. simpl.
    rewrite (iteration_infeasible master_instance_id request c a plans Hrun Hall).
    simpl. by rewrite loop_Stopped.
  - intros requests c0 Hnone.
    unfold GlobalScheduler.derive_redispatching_plans. by rewrite Hnone.
Qed.

(** C7.  [derive_redispatching_plans] returns, and at every candidate id
    [free + used] is the same after any number of iterations of its loop
    as at entry; so it is at return. *)
Theorem planner_conservation (master_instance_id : string) :
  (forall (processed : list Request) (candidate_instances : GlobalScheduler.Candidates),
     GlobalScheduler.available_instance_ids candidate_instances <> [] ->
     exists st,
       GlobalScheduler.loop master_instance_id processed
         (GlobalScheduler.Running candidate_instances
            (GlobalScheduler.available_instance_ids candidate_instances) [])
         = Some st /\
       forall id, total_of (GlobalScheduler.candidates_of st) id
                  = total_of candidate_instances id) /\
  (forall (requests : list Request) (candidate_instances : GlobalScheduler.Candidates),
     exists plan c',
       GlobalScheduler.derive_redispatching_plans master_instance_id
         requests candidate_instances = Some (plan, c') /\
       forall id, total_of c' id = total_of candidate_instances id).
Proof.
  split.
  - intros processed c0 Hne.
    destruct (loop_running master_instance_id processed
      (GlobalScheduler.Running c0 (GlobalScheduler.available_instance_ids c0) []))
      as (st & Hst & _ & Ht); [done|].
    exists st. split; [done|]. intros id. by apply totals_total_of.
  - intros requests c0. unfold GlobalScheduler.derive_redispatching_plans.
    destruct (Nat.eqb_spec (length (GlobalScheduler.available_instance_ids c0)) 0)
      as [E|E]; [by eexists _, _|].
    destruct (loop_running master_instance_id requests
      (GlobalScheduler.Running c0 (GlobalScheduler.available_instance_ids c0) []))
      as (st & Hst & _ & Ht).
    { split; [done|]. intros H. by rewrite H in E. }
    rewrite Hst. simpl. eexists _, _. split; [done|].
    intros id. by apply totals_total_of.
Qed.

(** ** Admissibility *)

Lemma first_least_among_least {A : Type} (P : A -> Prop) (key : A -> Z)
    (l : list A) (x : A) :
  first_least_among P key l x ->
  x ∈ l /\ P x /\ forall y, y ∈ l -> P y -> key x <= key y.
Proof.
  intros (l1 & l2 & -> & HP & H1 & H2). split; [apply elem_of_middle|].
  split; [done|]. intros y Hy HPy.
  apply elem_of_app in Hy as [Hy|Hy].
  - specialize (H1 y Hy HPy). lia.
  - apply elem_of_cons in Hy as [->|Hy]; [lia|by apply H2].
Qed.

Lemma Loadv2_admissible_uniform (available : list InstanceInfo) (req_n_blocks total : Z) :
  (forall i, i ∈ available -> consistent total i) ->
  (forall i, i ∈ available -> num_waiting_requests i = 0) ->
  Loadv2_admissibility available req_n_blocks.
Proof.
  intros Hcons Hidle x Hx Hlow. unfold Loadv2.chosen in Hx.
  destruct (avg_pend_time available) as [avg|]; [|done].
  change (map num_used_gpu_blocks available)
    with (num_used_gpu_blocks <$> available) in Hx.
  destruct (Py.max (num_used_gpu_blocks <$> available)) as [m|] eqn:Hm; [|done].
  pose proof (Py_max_used available m Hm) as [(j & Hj & Hjm) Hmax].
  unfold Loadv2.sorted_instance_infos in Hx.
  destruct (Loadv2.situation_of m req_n_blocks available) eqn:Hs.
  - exfalso. apply head_sorted_Z, first_least_among_filter,
      first_least_among_least in Hx as (Hin & Hfit & _).
    destruct (Hcons x Hin) as (Ht & Hf & Hw & Hu).
    destruct (Hcons j Hj) as (Htj & Hfj & Hwj & Huj).
    unfold Loadv2.slack in Hfit. lia.
  - split; [eauto|].
    apply head_sorted_Z, first_least_among_least in Hx as (Hin & _ & Hleast).
    intros i Hi. specialize (Hleast i Hi I). unfold Loadv2.overshoot in Hleast.
    destruct (Hcons x Hin) as (Ht & Hf & _). destruct (Hcons i Hi) as (Hti & Hfi & _).
    lia.
  - exfalso. by apply (Loadv2_situation_idle m req_n_blocks available) in Hidle.
Qed.

Lemma planner_choice_admissible (request : Request) (c : GlobalScheduler.Candidates)
    (capacity : Z) (resolved : list (string * (Z * Z)))
    (b : GlobalScheduler.branch) (target : string * (Z * Z)) :
  GlobalScheduler.entries c (GlobalScheduler.available_instance_ids c) = Some resolved ->
  GlobalScheduler.choose request resolved = Some (Some (b, target)) ->
  GlobalScheduler.getitem c (fst target) = Some (snd target) /\
  (b = GlobalScheduler.LeastOvershoot \/ uniform c capacity ->
   0 < GlobalScheduler.free_of target - n_blocks request).
Proof.
  intros Hr Hc. apply choose_Some in Hc as (Ht & m & Hm & Hb).
  pose proof Hr as Hr'. apply entries_Some in Hr' as [_ Hget].
  rewrite Forall_forall in Hget. split; [by apply Hget|].
  destruct b; [|done]. intros [Hb'|[Hnd Hcap]]; [done|].
  rewrite (entries_available c Hnd) in Hr. injection Hr as <-.
  apply elem_of_filter in Ht as [Ht _].
  apply Py_max_Some in Hm as [Hm _].
  apply list_elem_of_fmap in Hm as (j & -> & Hj).
  apply elem_of_filter in Hj as [Hj Hfree].
  pose proof (Hcap target Ht). pose proof (Hcap j Hj). lia.
Qed.

Lemma planner_admissibility_uniform (request : Request)
    (c : GlobalScheduler.Candidates) (capacity : Z) :
  uniform c capacity -> planner_admissibility request c.
Proof.
  intros Hu resolved b target Hr Hc Hneg.
  destruct (planner_choice_admissible request c capacity resolved b target Hr Hc)
    as [_ Hadm].
  specialize (Hadm (or_intror Hu)). lia.
Qed.

(** C1, as the code has it.  (a) Every id that [Urgency.get_dst_instance]
    returns is that of an instance of the argument with
    [num_free_gpu_blocks - num_watermark_blocks - n_blocks > 0].  (b) When
    no instance has waiting requests and the instances satisfy the
    invariants of the data model with the same [num_total_gpu_blocks],
    what [Loadv2.dispatch] chooses has
    [num_free_gpu_blocks - num_watermark_blocks < req_n_blocks] only if the
    least-overshoot branch was taken and no instance was admissible.
    (c) In [derive_redispatching_plans], before each request the
    available ids are those with free blocks left, and the destination
    chosen for the request has [free - n_blocks > 0] when the
    least-overshoot branch chose it, and in both branches when the
    candidates are a dict with the same [free + used] at every id; on
    such candidates the choice of an iteration is admissible. *)
Theorem admissibility_by_design (master_instance_id : string) :
  (forall dst_instance_infos src_instance_id target_request dst_id,
     Urgency.get_dst_instance dst_instance_infos src_instance_id target_request
       = Some (Some dst_id) ->
     exists dst, dst ∈ dst_instance_infos /\ instance_id dst = dst_id /\
       0 < num_free_gpu_blocks dst - num_watermark_blocks dst
           - n_blocks target_request) /\
  (forall available req_n_blocks total,
     (forall i, i ∈ available -> consistent total i) ->
     (forall i, i ∈ available -> num_waiting_requests i = 0) ->
     Loadv2_admissibility available req_n_blocks) /\
  (forall (before : list Request) (request : Request)
          (candidate_instances c : GlobalScheduler.Candidates) (capacity : Z)
          (available : list string) (plans : GlobalScheduler.Plans),
     GlobalScheduler.available_instance_ids candidate_instances <> [] ->
     GlobalScheduler.loop master_instance_id before
       (GlobalScheduler.Running candidate_instances
          (GlobalScheduler.available_instance_ids candidate_instances) [])
       = Some (GlobalScheduler.Running c available plans) ->
     available = GlobalScheduler.available_instance_ids c /\
     forall resolved b target,
       GlobalScheduler.entries c available = Some resolved ->
       GlobalScheduler.choose request resolved = Some (Some (b, target)) ->
       GlobalScheduler.getitem c (fst target) = Some (snd target) /\
       (b = GlobalScheduler.LeastOvershoot \/ uniform candidate_instances capacity ->
        0 < GlobalScheduler.free_of target - n_blocks request)) /\
  (forall (request : Request) (c : GlobalScheduler.Candidates) (capacity : Z),
     uniform c capacity -> planner_admissibility request c).
Proof.
  split; [|split; [|split; [|apply planner_admissibility_uniform]]].
  - apply get_dst_instance_admissible.
  - apply Loadv2_admissible_uniform.
  - intros before request c0 c capacity a plans Hne Hloop.
    destruct (loop_running master_instance_id before
      (GlobalScheduler.Running c0 (GlobalScheduler.available_instance_ids c0) []))
      as (st' & Hst' & Hrun & Ht); [done|].
    rewrite Hloop in Hst'. injection Hst' as <-. destruct Hrun as [-> _].
    split; [done|]. intros resolved b target Hr Hc.
    destruct (planner_choice_admissible request c capacity resolved b target Hr Hc)
      as [Hget Hadm].
    split; [done|]. intros [Hb|Hu]; apply Hadm; [by left|right].
    by apply (totals_uniform c0).
Qed.

(** C1, as stated, fails: [Loadv2.dispatch] sends a request of 8 blocks to
    the instance with the most waiting requests, which has no block left
    above its watermark, while another instance has 85; with instances of
    different sizes it chooses, below the frontier, an instance with 10
    free blocks for a request of 15; and the planner chooses, below the
    frontier, a candidate with 5 free blocks for a request of 10. *)
Lemma admissibility_counterexample :
  ~ Loadv2_admissibility Example.backlogged_fleet 8 /\
  ~ Loadv2_admissibility Example.mixed_fleet 15 /\
  ~ planner_admissibility (Example.request "r" 10) Example.mixed_candidates.
Proof.
  split; [|split].
  - intros H.
    destruct (H (Example.idle "a" 100 95 5 5 9) eq_refl) as [_ Hall]; [by vm_compute|].
    specialize (Hall (Example.idle "b" 100 10 5 0 1)).
    assert (Hb : Example.idle "b" 100 10 5 0 1 ∈ Example.backlogged_fleet).
    { right. left. }
    specialize (Hall Hb). vm_compute in Hall. done.
  - intros H.
    destruct (H (Example.idle "b" 20 10 0 0 1) eq_refl) as [(m & Hm & Hs) _];
      [by vm_compute|].
    vm_compute in Hm. injection Hm as <-. vm_compute in Hs. done.
  - intros H.
    destruct (H Example.mixed_candidates GlobalScheduler.BelowFrontier ("a", (5, 0))
                eq_refl eq_refl) as [Hb _]; [by vm_compute|].
    done.
Qed.

(** C2, as stated, fails: on a list of one instance whose count of waiting
    requests is too large for a float, [sum_pending /
    (num_waiting_requests + 1e-5)] raises and [Loadv2.dispatch] returns no
    id. *)
Lemma Loadv2_dispatch_counterexample :
  [Example.swamped] <> [] /\
  Loadv2.dispatch [Example.swamped] 1 = None /\
  ~ (exists x, x ∈ [Example.swamped] /\
       Loadv2.dispatch [Example.swamped] 1 = Some (instance_id x)).
Proof.
  assert (H : Loadv2.dispatch [Example.swamped] 1 = None) by by vm_compute.
  split; [done|]. split; [exact H|]. intros (x & _ & Hx). by rewrite H in Hx.
Qed.

(** C3, as stated, fails: [Balanced.pair_migration] returns the pair of a
    loaded source and an empty destination whose metric after the
    migration in is a NaN, which is not at most the threshold, here 3. *)
Lemma Balanced_anti_ping_pong_counterexample :
  ("s", "d")%string
    ∈ Balanced.pair_migration (Example.float 3 0)
        [Example.loaded_source] [Example.empty_destination] /\
  forall dst, dst ∈ [Example.empty_destination] ->
    F64.leb (migration_load_metric_after_migrate_in dst) (Example.float 3 0) = false.
Proof.
  split; [vm_compute; left|].
  intros dst Hdst. apply list_elem_of_singleton in Hdst as ->. reflexivity.
Qed.

(** C6, as stated, fails: no instance of the list is admissible, and
    [Urgency.get_dst_instance] does not return [None] but raises, on
    [sum_pending / (num_waiting_requests + 1e-5)] of an instance whose
    count of waiting requests is too large for a float. *)
Lemma Urgency_get_dst_instance_counterexample :
  (forall x, x ∈ [Example.swamped] ->
     ~ 0 < num_free_gpu_blocks x - num_watermark_blocks x - 1) /\
  Urgency.get_dst_instance [Example.swamped] "s" (Example.request "r" 1) = None /\
  Urgency.get_dst_instance [Example.swamped] "s" (Example.request "r" 1) <> Some None.
Proof.
  assert (H : Urgency.get_dst_instance [Example.swamped] "s" (Example.request "r" 1)
              = None) by by vm_compute.
  split; [|split; [exact H|by rewrite H]].
  intros x Hx. apply list_elem_of_singleton in Hx as ->. by vm_compute.
Qed.

(** C4, on the code: with one instance without waiting requests and one
    with three, [get_src_instances] returns the ids of both. *)
Theorem get_src_instances_keeps_idle :
  num_waiting_requests (Example.idle "a" 100 40 5 0 2) = 0 /\
  Urgency.get_src_instances Example.one_waiting_fleet = Some ["b"; "a"]%string.
Proof. split; reflexivity. Qed.

(** ** The theorems at concrete inputs *)

Lemma admissibility_by_design_witness :
  Loadv2_admissibility Example.quiet_fleet 8 /\
  planner_admissibility (Example.request "r" 10) Example.even_candidates.
Proof.
  destruct (admissibility_by_design "m") as (_ & HL & _ & HP). split.
  - apply (HL Example.quiet_fleet 8 100).
    + intros i Hi. unfold consistent.
      repeat (apply elem_of_cons in Hi as [->|Hi]); [by vm_compute..|].
      by apply elem_of_nil in Hi.
    + intros i Hi.
      repeat (apply elem_of_cons in Hi as [->|Hi]); [by vm_compute..|].
      by apply elem_of_nil in Hi.
  - apply (HP _ _ 50). split.
    + compute_done.
    + intros e He.
      repeat (apply elem_of_cons in He as [->|He]); [by vm_compute..|].
      by apply elem_of_nil in He.
Defined.

Lemma Loadv2_dispatch_rule_witness :
  Example.quiet_fleet <> [] /\
  exists x, x ∈ Example.quiet_fleet /\
    Loadv2.dispatch Example.quiet_fleet 8 = Some (instance_id x).
Proof.
  split; [done|].
  destruct (Loadv2_dispatch_rule Example.quiet_fleet 8) as [_ H]; [done|].
  destruct H as (m & x & _ & Hx & Hd & _).
  - intros i Hi.
    repeat (apply elem_of_cons in Hi as [->|Hi]);
      [eexists; split; [reflexivity|by vm_compute]..|].
    by apply elem_of_nil in Hi.
  - exists x. done.
Defined.

Lemma Balanced_anti_ping_pong_witness :
  exists src dst,
    ("s", "d")%string = (instance_id src, instance_id dst) /\
    src ∈ [Example.loaded_source] /\ dst ∈ [Example.light_destination].
Proof.
  destruct (Balanced_anti_ping_pong (Example.float 3 0)
              [Example.loaded_source] [Example.light_destination] ("s", "d")%string)
    as (src & dst & Hp & Hs & Hd & _).
  - vm_compute. left.
  - exists src, dst. done.
Defined.

Lemma planner_abort_witness :
  GlobalScheduler.derive_redispatching_plans "m"
    Example.waiting_requests Example.master_candidates
  = GlobalScheduler.derive_redispatching_plans "m"
      [Example.request "r1" 8; Example.request "r2" 8] Example.master_candidates.
Proof.
  destruct (planner_abort "m") as [H _].
  apply (H [Example.request "r1" 8; Example.request "r2" 8] []
           (Example.request "r3" 25) Example.master_candidates
           [("m", (0, 50)); ("a", (12, 18)); ("b", (22, 13))]%string
           ["a"; "b"]%string
           [("b", [Example.request "r1" 8]); ("a", [Example.request "r2" 8])]%string).
  - by vm_compute.
  - reflexivity.
  - intros id v Hid Hv.
    repeat (apply elem_of_cons in Hid as [->|Hid]);
      [vm_compute in Hv; injection Hv as <-; by vm_compute..|].
    by apply elem_of_nil in Hid.
Defined.

Lemma Urgency_get_dst_instance_rule_witness :
  exists best k,
    first_greatest_key
      (fun x => 0 < num_free_gpu_blocks x - num_watermark_blocks x - 8)
      (fun x =>
         running ← F64.of_int (num_running_requests x);
         free ← F64.of_int (num_free_gpu_blocks x);
         F64.truediv free (F64.add running F64.lit_1e_5))
      Example.quiet_fleet best k /\
    Urgency.get_dst_instance Example.quiet_fleet "a" (Example.request "r" 8)
    = Some (if String.eqb (instance_id best) "a" then None else Some (instance_id best)).
Proof.
  destruct (Urgency_get_dst_instance_rule Example.quiet_fleet "a" (Example.request "r" 8))
    as (_ & H & _).
  destruct H as (_ & _ & H).
  - intros i Hi.
    repeat (apply elem_of_cons in Hi as [->|Hi]);
      [eexists; split; [reflexivity|by vm_compute]..|].
    by apply elem_of_nil in Hi.
  - apply H.
    + exists (Example.idle "a" 100 40 5 0 2). split; [left|by vm_compute].
    + intros x Hx _.
      repeat (apply elem_of_cons in Hx as [->|Hx]); [vm_compute; eauto..|].
      by apply elem_of_nil in Hx.
Defined.

Lemma planner_conservation_witness :
  exists st,
    GlobalScheduler.loop "m" Example.waiting_requests
      (GlobalScheduler.Running Example.master_candidates
         (GlobalScheduler.available_instance_ids Example.master_candidates) [])
    = Some st /\
    forall id, total_of (GlobalScheduler.candidates_of st) id
               = total_of Example.master_candidates id.
Proof.
  destruct (planner_conservation "m") as [H _].
  apply (H Example.waiting_requests Example.master_candidates). by vm_compute.
Defined.

Lemma RoundRobin_fairness_witness :
  exists targets self',
    RoundRobin.dispatch_many 5 RoundRobin.fresh Example.three_keys
      = Some (targets, self') /\
    length targets = 5%nat.
Proof.
  destruct RoundRobin_fairness as [H _].
  destruct (H Example.three_keys 5%nat) as (_ & _ & _ & targets & self' & Hd & Hl & _).
  - intros E. apply (f_equal (fun m => m !! "x"%string)) in E. by vm_compute in E.
  - by exists targets, self'.
Defined.

Lemma update_instance_infos_frame_witness :
  GlobalScheduler.update_instance_infos Example.scheduler_with_a
    [Example.idle "a" 100 30 5 0 1; Example.idle "gone" 100 10 5 0 1]
  = GlobalScheduler.update_instance_infos Example.scheduler_with_a
      [Example.idle "a" 100 30 5 0 1].
Proof.
  destruct (update_instance_infos_frame Example.scheduler_with_a
              [Example.idle "a" 100 30 5 0 1; Example.idle "gone" 100 10 5 0 1])
    as (_ & _ & _ & H & _).
  apply (H [Example.idle "a" 100 30 5 0 1] (Example.idle "gone" 100 10 5 0 1) []).
  - reflexivity.
  - compute_done.
Defined.

Lemma scale_up_short_args_witness :
  GlobalScheduler.scale_up (Example.idle "" 0 0 0 0 0) Example.scheduler_with_a
    (GlobalScheduler.ManyIds ["b"; "c"]%string) [tt]
  = GlobalScheduler.scale_up (Example.idle "" 0 0 0 0 0) Example.scheduler_with_a
      (GlobalScheduler.ManyIds ["b"]%string) [tt].
Proof.
  destruct (scale_up_short_args (Example.idle "" 0 0 0 0 0) Example.scheduler_with_a
              ["b"; "c"]%string [tt]) as (H & _).
  - simpl. lia.
  - exact H.
Defined.

(** ** The scenarios of the specification *)

(** S2: used 40, 20, 10, watermark 5, a request of 8 blocks goes to [b]. *)
Example scenario_Loadv2_fits : Loadv2.dispatch Example.quiet_fleet 8 = Some "b"%string.
Proof. reflexivity. Qed.

(** S3: with waiting requests the most backlogged instance is chosen. *)
Example scenario_Loadv2_overloaded :
  Loadv2.dispatch Example.backlogged_fleet 8 = Some "a"%string.
Proof. reflexivity. Qed.

(** S5: a migration that would widen the gap from 10 to 12 is rejected. *)
Example scenario_Balanced_rejection :
  Balanced.pair_migration (Example.float 100 0)
    [Example.instance "s" 100 0 0 0 0
       (Example.float 10 0) (Example.float 12 0) (Example.float 0 0)]
    [Example.instance "d" 100 0 0 0 0
       (Example.float 0 0) (Example.float 0 0) (Example.float 0 0)]
  = [].
Proof. reflexivity. Qed.

(** S6: [r1] goes to [b], [r2] to [a], and [r3] stops the plan. *)
Example scenario_planner :
  GlobalScheduler.derive_redispatching_plans "m"
    Example.waiting_requests Example.master_candidates
  = Some ([("b", {["r1"]}); ("a", {["r2"]})],
          [("m", (0, 50)); ("a", (12, 18)); ("b", (22, 13))])%string.
Proof. by vm_compute. Qed.

(** * The other policies and methods *)

(** ** [min] and [max] with a key *)

Lemma min_by_fold {A : Type} (key : A -> Z) (l : list A) (b : A) :
  first_least_among (fun _ => True) key (b :: l)
    (fold_left (fun best y => if key y <? key best then y else best) l b).
Proof.
  revert b. induction l as [|y l IH]; intros b; simpl.
  - exists [], []. repeat split; intros z Hz; by apply elem_of_nil in Hz.
  - destruct (Z.ltb_spec (key y) (key b)) as [Hlt|Hge].
    + pose proof (IH y) as Hy.
      set (r := fold_left _ l y) in *.
      pose proof (first_least_among_least _ key (y :: l) r Hy) as (_ & _ & Hle).
      specialize (Hle y ltac:(by left) I).
      destruct Hy as (l1 & l2 & Hl & _ & H1 & H2).
      exists (b :: l1), l2. rewrite Hl. repeat split; [|done].
      intros z Hz _. apply elem_of_cons in Hz as [->|Hz]; [lia|by apply H1].
    + pose proof (IH b) as Hb.
      set (r := fold_left _ l b) in *.
      destruct Hb as (l1 & l2 & Hl & _ & H1 & H2).
      destruct l1 as [|b' l1]; simpl in Hl.
      * injection Hl as Hb Hl. exists [], (y :: l2). rewrite <- Hb, Hl.
        repeat split; [intros z Hz; by apply elem_of_nil in Hz|].
        intros z Hz _. apply elem_of_cons in Hz as [->|Hz]; [lia|].
        rewrite Hb. by apply H2.
      * injection Hl as Hb Hl. subst b'. exists (b :: y :: l1), l2. rewrite Hl.
        repeat split; [|done].
        intros z Hz _. pose proof (H1 b ltac:(by left) I) as Hrb.
        apply elem_of_cons in Hz as [->|Hz]; [done|].
        apply elem_of_cons in Hz as [->|Hz]; [lia|].
        apply H1; [by right|done].
Qed.

Lemma min_by_first_least {A : Type} (key : A -> Z) (l : list A) (x : A) :
  Py.min_by key l = Some x -> first_least_among (fun _ => True) key l x.
Proof. destruct l as [|b l]; [done|]. simpl. intros [= <-]. apply min_by_fold. Qed.

Lemma first_greatest_least {A : Type} (P : A -> Prop) (key : A -> Z) (l : list A) (x : A) :
  first_greatest_among P key l x <-> first_least_among P (fun y => - key y) l x.
Proof.
  split; intros (l1 & l2 & Hl & HP & H1 & H2); exists l1, l2;
    (repeat split; [done..| |]); intros y Hy HPy;
    [specialize (H1 y Hy HPy)|specialize (H2 y Hy HPy)
    |specialize (H1 y Hy HPy)|specialize (H2 y Hy HPy)]; lia.
Qed.

Lemma max_by_min_by {A : Type} (key : A -> Z) (l : list A) :
  PyMore.max_by key l = Py.min_by (fun y => - key y) l.
Proof.
  destruct l as [|b l]; [done|]. simpl. f_equal. revert b.
  induction l as [|y l IH]; intros b; simpl; [done|].
  rewrite <- IH.
  by destruct (Z.ltb_spec (key b) (key y)); destruct (Z.ltb_spec (- key y) (- key b));
    try lia.
Qed.

Lemma max_by_first_greatest {A : Type} (key : A -> Z) (l : list A) (x : A) :
  PyMore.max_by key l = Some x -> first_greatest_among (fun _ => True) key l x.
Proof.
  rewrite max_by_min_by. intros H. apply first_greatest_least.
  by apply min_by_first_least.
Qed.

(** ** Dicts in insertion order *)

Lemma dict_getitem_NoDup {V : Type} (d : PyMore.Dict V) (e : string * V) :
  NoDup (fst <$> d) -> e ∈ d -> PyMore.getitem d (fst e) = Some (snd e).
Proof.
  induction d as [|[k w] d IH]; intros Hnd He; [by apply elem_of_nil in He|].
  rewrite fmap_cons in Hnd. apply NoDup_cons in Hnd as [Hk Hnd]. simpl in *.
  apply elem_of_cons in He as [->|He]; simpl.
  - by rewrite String.eqb_refl.
  - destruct (String.eqb_spec k (fst e)) as [->|Hne]; [|by apply IH].
    destruct Hk. apply list_elem_of_fmap. eauto.
Qed.

Lemma keyed_by_get_NoDup {V : Type} (d : PyMore.Dict V) :
  NoDup (fst <$> d) -> PyMore.keyed_by_get d = Some d.
Proof.
  intros Hnd. unfold PyMore.keyed_by_get.
  apply mapM_fmap_Forall_Some, Forall_forall. intros e He.
  rewrite (dict_getitem_NoDup d e Hnd He). simpl. by destruct e.
Qed.

(** ** Flood and Balanced dispatch *)

(** X1.  On a dict, [Flood.dispatch] raises when the dict is empty and
    otherwise returns the first key, in the order of the dict, whose count
    is the greatest. *)
Theorem Flood_dispatch_rule (instance_num_requests : PyMore.Dict Z) :
  NoDup (fst <$> instance_num_requests) ->
  (instance_num_requests = [] -> Dispatch.Flood_dispatch instance_num_requests = None) /\
  (instance_num_requests <> [] ->
   exists id count,
     Dispatch.Flood_dispatch instance_num_requests = Some id /\
     first_greatest_among (fun _ => True) snd instance_num_requests (id, count)).
Proof.
  intros Hnd. unfold Dispatch.Flood_dispatch. rewrite keyed_by_get_NoDup by done. simpl.
  split; [by intros ->|]. intros Hne.
  destruct (PyMore.max_by snd instance_num_requests) as [[id count]|] eqn:E.
  - exists id, count. split; [done|]. by apply max_by_first_greatest.
  - by destruct instance_num_requests.
Qed.

(** X2.  On a dict, the dispatch policy [Balanced] raises when the dict is
    empty and otherwise returns the first key, in the order of the dict,
    whose count is the least. *)
Theorem Balanced_dispatch_rule (instance_num_requests : PyMore.Dict Z) :
  NoDup (fst <$> instance_num_requests) ->
  (instance_num_requests = [] -> Dispatch.Balanced_dispatch instance_num_requests = None) /\
  (instance_num_requests <> [] ->
   exists id count,
     Dispatch.Balanced_dispatch instance_num_requests = Some id /\
     first_least_among (fun _ => True) snd instance_num_requests (id, count)).
Proof.
  intros Hnd. unfold Dispatch.Balanced_dispatch. rewrite keyed_by_get_NoDup by done. simpl.
  split; [by intros ->|]. intros Hne.
  destruct (Py.min_by snd instance_num_requests) as [[id count]|] eqn:E.
  - exists id, count. split; [done|]. by apply min_by_first_least.
  - by destruct instance_num_requests.
Qed.

(** ** The random choice among the first [k] *)

Lemma filter_length_Permutation {A : Type} (f : A -> bool) (l l' : list A) :
  l ≡ₚ l' -> length (List.filter f l) = length (List.filter f l').
Proof.
  induction 1 as [|x l l' _ IH|x y l|l l' l'' _ IH1 _ IH2]; simpl.
  - done.
  - destruct (f x); simpl; by rewrite IH.
  - by destruct (f x), (f y).
  - by rewrite IH1.
Qed.

Lemma slice_to_take {A : Type} (l : list A) (topk : Z) :
  PyMore.slice_to l (Z.min topk (Z.of_nat (length l))) = take (top_count topk (length l)) l.
Proof.
  unfold PyMore.slice_to, top_count.
  destruct (Z.leb_spec 0 topk) as [Hk|Hk].
  - destruct (Z.leb_spec 0 (Z.min topk (Z.of_nat (length l)))); [done|lia].
  - destruct (Z.leb_spec 0 (Z.min topk (Z.of_nat (length l)))); [lia|].
    f_equal. lia.
Qed.

Lemma top_count_le (topk : Z) (n : nat) : (top_count topk n <= n)%nat.
Proof. unfold top_count. destruct (Z.leb_spec 0 topk); lia. Qed.

Lemma random_choice_from_top_k_cases (draw : nat)
    (sorted_instance_infos : list InstanceInfo) (topk_random_dispatch : Z) :
  let n := length sorted_instance_infos in
  let k := top_count topk_random_dispatch n in
  let result :=
    Dispatch.random_choice_from_top_k draw sorted_instance_infos topk_random_dispatch in
  (result = None <->
   sorted_instance_infos = [] \/ topk_random_dispatch = 0
   \/ topk_random_dispatch <= - Z.of_nat n) /\
  (k <> 0%nat -> (draw mod k < k)%nat /\ result = sorted_instance_infos !! (draw mod k)%nat).
Proof.
  cbn zeta. unfold Dispatch.random_choice_from_top_k. rewrite slice_to_take.
  pose proof (top_count_le topk_random_dispatch (length sorted_instance_infos)) as Hle.
  set (k := top_count topk_random_dispatch (length sorted_instance_infos)) in *.
  assert (Hk0 : k = 0%nat <->
            sorted_instance_infos = [] \/ topk_random_dispatch = 0
            \/ topk_random_dispatch <= - Z.of_nat (length sorted_instance_infos)).
  { unfold k, top_count. destruct (Z.leb_spec 0 topk_random_dispatch).
    - split.
      + intros H0. destruct sorted_instance_infos; [by left|]. simpl in *. right. lia.
      + intros [->|H0]; simpl; lia.
    - split.
      + intros H0. right. right. lia.
      + intros [->|H0]; simpl; lia. }
  assert (Hlen : length (take k sorted_instance_infos) = k) by (rewrite length_take; lia).
  split.
  - rewrite <- Hk0. unfold PyMore.choice.
    destruct (take k sorted_instance_infos) as [|x t] eqn:Et.
    + simpl in Hlen. done.
    + rewrite Hlen. split; [|simpl in Hlen; lia]. intros Hnone. exfalso.
      assert (Hlt : (draw mod k < length (x :: t))%nat).
      { rewrite Hlen. apply Nat.mod_upper_bound. simpl in Hlen. lia. }
      apply lookup_lt_is_Some_2 in Hlt as [z Hz]. congruence.
  - intros Hk. pose proof (Nat.mod_upper_bound draw k Hk) as Hlt. split; [done|].
    unfold PyMore.choice. destruct (take k sorted_instance_infos) as [|x t] eqn:Et.
    + simpl in Hlen. lia.
    + rewrite Hlen, <- Et. by apply lookup_take_lt.
Qed.

(** X3.  [random_choice_from_top_k] chooses, at the index the generator
    yields, among the first [min(topk, n)] of the [n] sorted instances, and
    among all but the last [- topk] when [topk] is negative; it raises
    exactly when that leaves nothing to choose from: on an empty list, with
    [topk = 0], or with [topk <= - n]. *)
Theorem random_choice_from_top_k_rule (draw : nat)
    (sorted_instance_infos : list InstanceInfo) (topk_random_dispatch : Z) :
  let n := length sorted_instance_infos in
  let k := top_count topk_random_dispatch n in
  let result :=
    Dispatch.random_choice_from_top_k draw sorted_instance_infos topk_random_dispatch in
  (result = None <->
   sorted_instance_infos = [] \/ topk_random_dispatch = 0
   \/ topk_random_dispatch <= - Z.of_nat n) /\
  (k <> 0%nat -> (draw mod k < k)%nat /\ result = sorted_instance_infos !! (draw mod k)%nat).
Proof. apply random_choice_from_top_k_cases. Qed.

Section TopK.
Context {K : Type}.
Variable lt : K -> K -> bool.
Variable key : InstanceInfo -> K.
Variable ok : K -> Prop.
Hypothesis lt_asym : forall a b, ok a -> ok b -> lt a b = true -> lt b a = false.
Hypothesis lt_cotrans : forall a b c, ok a -> ok b -> ok c ->
  lt a c = true -> lt a b = true \/ lt b c = true.

(** Fewer than [topk] instances have a key smaller than the key of the
    instance chosen among the first [topk] of the sorted list. *)
Lemma top_k_rank (draw : nat) (l : list InstanceInfo) (topk : Z) :
  Forall (fun x => ok (key x)) l -> l <> [] -> 1 <= topk ->
  exists x,
    Dispatch.random_choice_from_top_k draw (Py.sorted lt key l) topk = Some x /\
    x ∈ l /\
    Z.of_nat (length (List.filter (fun y => lt (key y) (key x)) l)) < topk.
Proof.
  intros Hok Hne Htopk.
  pose proof (sorted_Permutation lt key l) as Hperm.
  pose proof (sorted_StronglySorted lt key ok lt_asym lt_cotrans l Hok) as Hsorted.
  set (s := Py.sorted lt key l) in *.
  assert (Hn : length s = length l) by by rewrite Hperm.
  destruct (random_choice_from_top_k_cases draw s topk) as [_ Hrule].
  assert (Hk : top_count topk (length s) <> 0%nat).
  { unfold top_count. destruct (Z.leb_spec 0 topk); [|lia].
    rewrite Hn. destruct l; [done|]. simpl. lia. }
  destruct (Hrule Hk) as [Hlt ->].
  assert (Hktop : Z.of_nat (top_count topk (length s)) <= topk).
  { unfold top_count. destruct (Z.leb_spec 0 topk); lia. }
  set (i := (draw mod top_count topk (length s))%nat) in *.
  pose proof (top_count_le topk (length s)) as Hle.
  destruct (lookup_lt_is_Some_2 s i ltac:(lia)) as [x Hx].
  exists x. split; [done|]. split.
  { rewrite <- Hperm. by apply list_elem_of_lookup_2 in Hx. }
  rewrite (filter_length_Permutation _ l s) by done.
  rewrite <- (take_drop_middle s i x Hx) in Hsorted |- *.
  apply StronglySorted_app in Hsorted as (_ & _ & Hsorted).
  apply StronglySorted_cons in Hsorted as [Hpost _].
  assert (Hokx : ok (key x)).
  { rewrite Forall_forall in Hok. apply Hok. rewrite <- Hperm.
    by apply list_elem_of_lookup_2 in Hx. }
  rewrite List.filter_app. simpl.
  rewrite (lt_irrefl lt ok lt_asym (key x) Hokx).
  assert (Hnil : List.filter (fun y => lt (key y) (key x)) (drop (S i) s) = []).
  { apply length_zero_iff_nil, filter_length_zero. intros y Hy.
    rewrite Forall_forall in Hpost. by apply Hpost. }
  rewrite Hnil, app_nil_r.
  pose proof (List.filter_length_le (fun y => lt (key y) (key x)) (take i s)) as Hf.
  rewrite length_take in Hf. lia.
Qed.

End TopK.

(** X4.  On a non-empty list and with [topk >= 1], [Queue.dispatch]
    returns, whatever the generator yields, the id of an instance of the
    list that fewer than [topk] instances beat on [num_waiting_requests];
    with [topk = 1] no instance has fewer waiting requests.  It raises on
    an empty list. *)
Theorem Queue_dispatch_rule (draw : nat) (available_instance_infos : list InstanceInfo)
    (topk_random_dispatch : Z) :
  (available_instance_infos = [] ->
   Dispatch.Queue_dispatch draw available_instance_infos topk_random_dispatch = None) /\
  (available_instance_infos <> [] -> 1 <= topk_random_dispatch ->
   exists x,
     Dispatch.Queue_dispatch draw available_instance_infos topk_random_dispatch
       = Some (instance_id x) /\
     x ∈ available_instance_infos /\
     Z.of_nat (length (List.filter
       (fun y => num_waiting_requests y <? num_waiting_requests x)
       available_instance_infos)) < topk_random_dispatch).
Proof.
  split.
  - intros ->. unfold Dispatch.Queue_dispatch, Dispatch.random_choice_from_top_k.
    simpl. unfold PyMore.slice_to. by destruct (0 <=? _), (Z.to_nat _).
  - intros Hne Htopk.
    destruct (top_k_rank Z.ltb num_waiting_requests (fun _ => True)
                Zltb_asym Zltb_cotrans draw available_instance_infos
                topk_random_dispatch (Forall_True _) Hne Htopk) as (x & Hx & Hin & Hrank).
    exists x. unfold Dispatch.Queue_dispatch, Dispatch.sort_instance_infos.
    rewrite Hx. done.
Qed.

(** X5.  The same for [Load.dispatch] on [dispatch_load_metric], when no
    metric of the list is a NaN: the instance returned is beaten by fewer
    than [topk] instances in the order of [<] on floats. *)
Theorem Load_dispatch_rule (dispatch_load_metric : InstanceInfo -> spec_float)
    (draw : nat) (available_instance_infos : list InstanceInfo)
    (topk_random_dispatch : Z) :
  Forall (fun x => not_nan (dispatch_load_metric x)) available_instance_infos ->
  available_instance_infos <> [] -> 1 <= topk_random_dispatch ->
  exists x,
    Dispatch.Load_dispatch dispatch_load_metric draw available_instance_infos
      topk_random_dispatch = Some (instance_id x) /\
    x ∈ available_instance_infos /\
    Z.of_nat (length (List.filter
      (fun y => F64.ltb (dispatch_load_metric y) (dispatch_load_metric x))
      available_instance_infos)) < topk_random_dispatch.
Proof.
  intros Hok Hne Htopk.
  destruct (top_k_rank F64.ltb dispatch_load_metric not_nan
              SFltb_asym SFltb_cotrans draw available_instance_infos
              topk_random_dispatch Hok Hne Htopk) as (x & Hx & Hin & Hrank).
  exists x. unfold Dispatch.Load_dispatch, Dispatch.sort_instance_infos.
  rewrite Hx. done.
Qed.

(** ** RoundRobin from any cursor *)

(** X6.  Whatever the cursor is, also one left by a larger dict,
    [RoundRobin.dispatch] on a non-empty dict returns one of its keys and
    leaves a cursor that is an index of the sorted keys; on an empty dict
    it raises. *)
Theorem RoundRobin_dispatch_any_cursor (self : RoundRobin.t)
    (instance_num_requests : gmap string Z) :
  (instance_num_requests = ∅ -> RoundRobin.dispatch self instance_num_requests = None) /\
  (instance_num_requests <> ∅ ->
   exists target self',
     RoundRobin.dispatch self instance_num_requests = Some (target, self') /\
     target ∈ dom instance_num_requests /\
     0 <= RoundRobin.prev_instance_idx self'
       < Z.of_nat (size (dom instance_num_requests))).
Proof.
  split.
  - intros ->. unfold RoundRobin.dispatch, RoundRobin.all_instance_ids.
    by rewrite dom_empty_L, elements_empty.
  - intros Hm. destruct (dispatch_step self instance_num_requests Hm) as (target & Ht & Hd).
    eexists _, _. split; [exact Hd|]. split.
    + apply all_instance_ids_elem_of. by apply list_elem_of_lookup_2 in Ht.
    + simpl. pose proof (all_instance_ids_nonempty _ Hm) as Hn.
      replace (size (dom instance_num_requests))
        with (length (RoundRobin.all_instance_ids instance_num_requests)).
      * apply Z.mod_pos_bound. lia.
      * apply (Permutation_length (all_instance_ids_Permutation _)).
Qed.

Lemma mod_shift_inj (a n i j : Z) :
  0 < n -> 0 <= i < n -> 0 <= j < n -> (a + i) mod n = (a + j) mod n -> i = j.
Proof.
  intros Hn Hi Hj H.
  pose proof (Z.div_mod (a + i) n ltac:(lia)) as H1.
  pose proof (Z.div_mod (a + j) n ltac:(lia)) as H2.
  rewrite H in H1.
  set (q1 := (a + i) / n) in *. set (q2 := (a + j) / n) in *.
  assert (Hd : i - j = n * (q1 - q2)) by lia.
  assert (Hq : q1 - q2 = 0) by nia. rewrite Hq in Hd. lia.
Qed.

(** X7.  From any cursor, as many successive calls of [dispatch] as the
    dict has keys return every key exactly once. *)
Theorem RoundRobin_window (self : RoundRobin.t) (instance_num_requests : gmap string Z) :
  instance_num_requests <> ∅ ->
  exists targets self',
    RoundRobin.dispatch_many (size (dom instance_num_requests)) self instance_num_requests
      = Some (targets, self') /\
    targets ≡ₚ elements (dom instance_num_requests).
Proof.
  intros Hm.
  pose proof (all_instance_ids_nonempty _ Hm) as Hn.
  pose proof (Permutation_length (all_instance_ids_Permutation instance_num_requests)) as Hsz.
  change (length (elements (dom instance_num_requests)))
    with (size (dom instance_num_requests)) in Hsz.
  rewrite <- Hsz.
  destruct (dispatch_many_targets
              (length (RoundRobin.all_instance_ids instance_num_requests))
              self instance_num_requests Hm) as (targets & self' & Hd & Hlen & Hall).
  set (ids := RoundRobin.all_instance_ids instance_num_requests) in *.
  exists targets, self'. split; [done|].
  rewrite <- (all_instance_ids_Permutation instance_num_requests). fold ids.
  assert (Hidx : forall i, (i < length ids)%nat ->
            (Z.to_nat ((RoundRobin.prev_instance_idx self + 1 + Z.of_nat i)
                         mod Z.of_nat (length ids)) < length ids)%nat).
  { intros i Hi.
    pose proof (Z.mod_pos_bound (RoundRobin.prev_instance_idx self + 1 + Z.of_nat i)
                  (Z.of_nat (length ids)) ltac:(lia)). lia. }
  apply submseteq_length_Permutation; [|lia].
  apply NoDup_submseteq.
  - apply NoDup_alt. intros i j x Hi Hj.
    pose proof (lookup_lt_Some _ _ _ Hi) as Hil.
    pose proof (lookup_lt_Some _ _ _ Hj) as Hjl. rewrite Hlen in Hil, Hjl.
    rewrite Hall in Hi, Hj by done.
    pose proof (NoDup_lookup ids _ _ x (all_instance_ids_NoDup _) Hi Hj) as Heq.
    apply Z2Nat.inj in Heq;
      [|apply Z.mod_pos_bound; lia|apply Z.mod_pos_bound; lia].
    apply mod_shift_inj in Heq; lia.
  - intros x Hx. apply list_elem_of_lookup in Hx as [i Hi].
    pose proof (lookup_lt_Some _ _ _ Hi) as Hil. rewrite Hlen in Hil.
    rewrite Hall in Hi by done. by apply list_elem_of_lookup_2 in Hi.
Qed.

(** ** Defrag and the shape of pair migrations *)

Lemma StronglySorted_rev {A : Type} (R : A -> A -> Prop) (l : list A) :
  StronglySorted R l -> StronglySorted (fun x y => R y x) (rev l).
Proof.
  induction 1 as [|x l Hs IH Hx]; simpl; [constructor|].
  apply StronglySorted_app_2; [|done|repeat constructor].
  intros y z Hy Hz. apply list_elem_of_singleton in Hz as ->.
  rewrite Forall_forall in Hx. apply Hx. by rewrite (Permutation_rev l).
Qed.

Lemma sorted_reverse_StronglySorted {A K : Type} (lt : K -> K -> bool) (key : A -> K)
    (ok : K -> Prop)
    (lt_asym : forall a b, ok a -> ok b -> lt a b = true -> lt b a = false)
    (lt_cotrans : forall a b c, ok a -> ok b -> ok c ->
       lt a c = true -> lt a b = true \/ lt b c = true)
    (l : list A) :
  Forall (fun y => ok (key y)) l ->
  StronglySorted (fun x y => lt (key x) (key y) = false) (Py.sorted_reverse lt key l).
Proof.
  intros Hok. unfold Py.sorted_reverse.
  apply (StronglySorted_rev (fun x y => lt (key y) (key x) = false)).
  apply (sorted_StronglySorted lt key ok lt_asym lt_cotrans).
  by rewrite <- Permutation_rev.
Qed.

Lemma List_filter_sublist {A : Type} (f : A -> bool) (l : list A) :
  List.filter f l `sublist_of` l.
Proof.
  induction l as [|x l IH]; simpl; [constructor|].
  destruct (f x); by constructor.
Qed.

Lemma fst_zip_sublist {A B : Type} (l : list A) (k : list B) : (zip l k).*1 `sublist_of` l.
Proof.
  revert k. induction l as [|x l IH]; intros [|y k]; simpl;
    try apply sublist_nil_l. constructor. apply IH.
Qed.

Lemma snd_zip_sublist {A B : Type} (l : list A) (k : list B) : (zip l k).*2 `sublist_of` k.
Proof.
  revert k. induction l as [|x l IH]; intros [|y k]; simpl;
    try apply sublist_nil_l. constructor. apply IH.
Qed.

Lemma Defrag_pair_migration_zip (src_instance_infos dst_instance_infos : list InstanceInfo) :
  Defrag.pair_migration src_instance_infos dst_instance_infos
  = zip (instance_id <$> Balanced.sort_instance_infos src_instance_infos true)
        (instance_id <$> Balanced.sort_instance_infos dst_instance_infos false).
Proof.
  unfold Defrag.pair_migration, Defrag.migrate_instance_infos.
  generalize (Balanced.sort_instance_infos src_instance_infos true).
  generalize (Balanced.sort_instance_infos dst_instance_infos false).
  intros k l. revert k. induction l as [|x l IH]; intros [|y k]; simpl; try done.
  f_equal. apply IH.
Qed.

Lemma Defrag_pair_migration_length (src_instance_infos dst_instance_infos : list InstanceInfo) :
  length (Defrag.pair_migration src_instance_infos dst_instance_infos)
  = (length src_instance_infos `min` length dst_instance_infos)%nat.
Proof.
  unfold Defrag.pair_migration, Defrag.migrate_instance_infos.
  rewrite length_fmap, length_zip.
  by rewrite !(Permutation_length (sort_instance_infos_Permutation _ _)).
Qed.

Lemma Balanced_sublist_Defrag (migrate_out_load_threshold : spec_float)
    (src_instance_infos dst_instance_infos : list InstanceInfo) :
  Balanced.pair_migration migrate_out_load_threshold src_instance_infos dst_instance_infos
    `sublist_of` Defrag.pair_migration src_instance_infos dst_instance_infos.
Proof.
  unfold Balanced.pair_migration, Defrag.pair_migration,
    Balanced.migrate_instance_infos, Defrag.migrate_instance_infos.
  apply fmap_sublist, List_filter_sublist.
Qed.

(** X8.  [Defrag.pair_migration] returns [min(len(src), len(dst))] pairs:
    the ids, position by position, of the sources by non-increasing
    [migration_load_metric] and of the destinations by non-decreasing
    [migration_load_metric] (where no metric is a NaN); both sorted lists
    are permutations of the arguments. *)
Theorem Defrag_pair_migration_rule (src_instance_infos dst_instance_infos : list InstanceInfo) :
  let sources := Balanced.sort_instance_infos src_instance_infos true in
  let destinations := Balanced.sort_instance_infos dst_instance_infos false in
  Defrag.pair_migration src_instance_infos dst_instance_infos
    = zip (instance_id <$> sources) (instance_id <$> destinations) /\
  length (Defrag.pair_migration src_instance_infos dst_instance_infos)
    = (length src_instance_infos `min` length dst_instance_infos)%nat /\
  sources ≡ₚ src_instance_infos /\
  destinations ≡ₚ dst_instance_infos /\
  (Forall (fun x => not_nan (migration_load_metric x)) src_instance_infos ->
   StronglySorted
     (fun a b => F64.ltb (migration_load_metric a) (migration_load_metric b) = false)
     sources) /\
  (Forall (fun x => not_nan (migration_load_metric x)) dst_instance_infos ->
   StronglySorted
     (fun a b => F64.ltb (migration_load_metric b) (migration_load_metric a) = false)
     destinations).
Proof.
  cbn zeta. split; [|split; [|split; [|split; [|split]]]].
  - apply Defrag_pair_migration_zip.
  - apply Defrag_pair_migration_length.
  - apply sort_instance_infos_Permutation.
  - apply sort_instance_infos_Permutation.
  - intros Hok. by apply (sorted_reverse_StronglySorted _ _ not_nan SFltb_asym SFltb_cotrans).
  - intros Hok. by apply (sorted_StronglySorted _ _ not_nan SFltb_asym SFltb_cotrans).
Qed.

(** X9.  What [Balanced.pair_migration] returns is what
    [Defrag.pair_migration] returns on the same arguments with some pairs
    left out, in the same order: at most [min(len(src), len(dst))] pairs,
    none when one of the lists is empty. *)
Theorem Balanced_within_Defrag (migrate_out_load_threshold : spec_float)
    (src_instance_infos dst_instance_infos : list InstanceInfo) :
  Balanced.pair_migration migrate_out_load_threshold src_instance_infos dst_instance_infos
    `sublist_of` Defrag.pair_migration src_instance_infos dst_instance_infos /\
  (length (Balanced.pair_migration migrate_out_load_threshold
             src_instance_infos dst_instance_infos)
   <= length src_instance_infos `min` length dst_instance_infos)%nat /\
  (src_instance_infos = [] \/ dst_instance_infos = [] ->
   Balanced.pair_migration migrate_out_load_threshold
     src_instance_infos dst_instance_infos = []).
Proof.
  pose proof (Balanced_sublist_Defrag migrate_out_load_threshold
                src_instance_infos dst_instance_infos) as Hsub.
  split; [done|]. apply sublist_length in Hsub.
  rewrite Defrag_pair_migration_length in Hsub.
  split; [done|]. intros Hempty. apply length_zero_iff_nil.
  destruct Hempty as [-> | ->]; cbn [length Nat.min] in Hsub; [lia|].
  rewrite Nat.min_0_r in Hsub. lia.
Qed.

(** X10.  When the sources have distinct ids, no id is the source of two
    of the pairs that [Balanced.pair_migration] or [Defrag.pair_migration]
    returns; likewise for the destinations. *)
Theorem pair_migration_distinct (migrate_out_load_threshold : spec_float)
    (src_instance_infos dst_instance_infos : list InstanceInfo) :
  (NoDup (instance_id <$> src_instance_infos) ->
   NoDup (Defrag.pair_migration src_instance_infos dst_instance_infos).*1 /\
   NoDup (Balanced.pair_migration migrate_out_load_threshold
            src_instance_infos dst_instance_infos).*1) /\
  (NoDup (instance_id <$> dst_instance_infos) ->
   NoDup (Defrag.pair_migration src_instance_infos dst_instance_infos).*2 /\
   NoDup (Balanced.pair_migration migrate_out_load_threshold
            src_instance_infos dst_instance_infos).*2).
Proof.
  pose proof (Defrag_pair_migration_zip src_instance_infos dst_instance_infos) as Hzip.
  pose proof (Balanced_sublist_Defrag migrate_out_load_threshold
                src_instance_infos dst_instance_infos) as Hsub.
  split; intros Hnd.
  - assert (H : NoDup (Defrag.pair_migration src_instance_infos dst_instance_infos).*1).
    { rewrite Hzip. eapply sublist_NoDup; [|apply fst_zip_sublist].
      by rewrite (sort_instance_infos_Permutation src_instance_infos true). }
    split; [done|]. eapply sublist_NoDup; [exact H|]. by apply fmap_sublist.
  - assert (H : NoDup (Defrag.pair_migration src_instance_infos dst_instance_infos).*2).
    { rewrite Hzip. eapply sublist_NoDup; [|apply snd_zip_sublist].
      by rewrite (sort_instance_infos_Permutation dst_instance_infos false). }
    split; [done|]. eapply sublist_NoDup; [exact H|]. by apply fmap_sublist.
Qed.

(** ** The sources of a redispatch *)

Lemma StronglySorted_weaken {A : Type} (R R' : A -> A -> Prop) (l : list A) :
  (forall a b, R a b -> R' a b) -> StronglySorted R l -> StronglySorted R' l.
Proof.
  intros HR. induction 1 as [|a l _ IH Ha]; constructor; [done|].
  eapply Forall_impl; [exact Ha|]. intros b. apply HR.
Qed.

(** X11.  When [Urgency.get_src_instances] returns a list, its ids are
    those of instances of the argument in non-increasing order of
    [num_waiting_requests], and the first id is that of the first instance
    with the most waiting requests, which has some. *)
Theorem get_src_instances_head (src_instance_infos : list InstanceInfo) (ids : list string) :
  Urgency.get_src_instances src_instance_infos = Some ids ->
  exists sorted_src x,
    ids = instance_id <$> sorted_src /\
    (forall y, y ∈ sorted_src -> y ∈ src_instance_infos) /\
    StronglySorted (fun a b => num_waiting_requests b <= num_waiting_requests a)
      sorted_src /\
    head sorted_src = Some x /\
    first_greatest_among (fun _ => True) num_waiting_requests src_instance_infos x /\
    0 < num_waiting_requests x.
Proof.
  intros H.
  destruct (Urgency.get_src_instances src_instance_infos) as [ids'|] eqn:E; [|done].
  injection H as ->.
  assert (Hsome : ~ forall y, y ∈ src_instance_infos -> num_waiting_requests y <= 0).
  { intros Hall. apply get_src_instances_None in Hall. congruence. }
  unfold Urgency.get_src_instances in E.
  destruct (negb _); [|done]. injection E as <-.
  set (s := Py.sorted_reverse Z.ltb num_waiting_requests src_instance_infos).
  assert (Hne : src_instance_infos <> []).
  { intros ->. apply Hsome. intros y Hy. by apply elem_of_nil in Hy. }
  destruct (head_sorted_reverse_is_Some Z.ltb num_waiting_requests src_instance_infos Hne)
    as [x Hx].
  fold s in Hx. exists s, x. split; [done|]. split.
  { intros y Hy. unfold s in Hy. by rewrite sorted_reverse_Permutation in Hy. }
  split.
  { pose proof (sorted_reverse_StronglySorted Z.ltb num_waiting_requests (fun _ => True)
                  Zltb_asym Zltb_cotrans src_instance_infos (Forall_True _)) as Hs.
    fold s in Hs. eapply StronglySorted_weaken; [|exact Hs].
    intros a b Hab. simpl in Hab. lia. }
  split; [done|].
  pose proof (head_sorted_reverse_Z num_waiting_requests src_instance_infos x Hx) as Hfirst.
  split; [done|].
  apply first_greatest_least, first_least_among_least in Hfirst as (_ & _ & Hmax).
  destruct (Z.ltb_spec 0 (num_waiting_requests x)) as [|Hle]; [done|].
  exfalso. apply Hsome. intros y Hy. specialize (Hmax y Hy I). simpl in Hmax. lia.
Qed.

(** ** Telemetry and membership *)

Lemma update_instance_infos_snoc (self : GlobalScheduler.t) (l : list InstanceInfo)
    (info : InstanceInfo) :
  GlobalScheduler.update_instance_infos self (l ++ [info]) =
  GlobalScheduler.update_instance_infos
    (GlobalScheduler.update_instance_infos self l) [info].
Proof. apply update_instance_infos_app. Qed.

Lemma update_instance_infos_lookup (self : GlobalScheduler.t)
    (instance_infos : list InstanceInfo) (k : string) :
  k ∈ GlobalScheduler.instance_id_set self ->
  GlobalScheduler.instance_info
    (GlobalScheduler.update_instance_infos self instance_infos) !! k
  = match last (List.filter (fun info => String.eqb (instance_id info) k) instance_infos) with
    | Some info => Some info
    | None => GlobalScheduler.instance_info self !! k
    end.
Proof.
  intros Hk. induction instance_infos as [|info l IH] using rev_ind; [done|].
  rewrite update_instance_infos_snoc, List.filter_app. simpl.
  destruct (update_instance_infos_members self l) as [Hset _].
  revert IH Hset. generalize (GlobalScheduler.update_instance_infos self l).
  intros st IH Hset.
  unfold GlobalScheduler.update_instance_infos. simpl.
  destruct (String.eqb_spec (instance_id info) k) as [->|Hne].
  - rewrite last_snoc. rewrite decide_True by by rewrite Hset.
    simpl. apply lookup_insert_eq.
  - rewrite app_nil_r, <- IH. case_decide; [|done]. simpl. by apply lookup_insert_ne.
Qed.

(** X12.  After [update_instance_infos], the table holds at each known id
    the last snapshot of the argument with that id, and what it held
    before when the argument has none. *)
Theorem update_instance_infos_last_wins (self : GlobalScheduler.t)
    (instance_infos : list InstanceInfo) (k : string) :
  k ∈ GlobalScheduler.instance_id_set self ->
  GlobalScheduler.instance_info
    (GlobalScheduler.update_instance_infos self instance_infos) !! k
  = match last (List.filter (fun info => String.eqb (instance_id info) k) instance_infos) with
    | Some info => Some info
    | None => GlobalScheduler.instance_info self !! k
    end.
Proof. apply update_instance_infos_lookup. Qed.

Section MembershipFacts.
Context {InstanceArgs : Type}.
Variable empty_instance_info : InstanceInfo.

Local Abbreviation scale_up_one := (GlobalScheduler.scale_up_one empty_instance_info).
Local Abbreviation scale_up :=
  (GlobalScheduler.scale_up (InstanceArgs := InstanceArgs) empty_instance_info).
Local Abbreviation placeholder :=
  (GlobalScheduler.with_instance_id empty_instance_info).

Lemma scale_up_one_new (self : GlobalScheduler.t) (i : string) (a : InstanceArgs) :
  i ∉ GlobalScheduler.instance_id_set self ->
  GlobalScheduler.instance_id_set (scale_up_one self (i, a))
    = {[i]} ∪ GlobalScheduler.instance_id_set self /\
  GlobalScheduler.instance_info (scale_up_one self (i, a))
    = <[i := placeholder i]> (GlobalScheduler.instance_info self).
Proof. intros Hi. unfold GlobalScheduler.scale_up_one. by rewrite decide_True. Qed.

Lemma scale_up_one_known (self : GlobalScheduler.t) (i : string) (a : InstanceArgs) :
  i ∈ GlobalScheduler.instance_id_set self -> scale_up_one self (i, a) = self.
Proof.
  intros Hi. unfold GlobalScheduler.scale_up_one. rewrite decide_False; [done|]. tauto.
Qed.

Lemma scale_up_fold_lookup (ps : list (string * InstanceArgs)) (self : GlobalScheduler.t)
    (k : string) :
  GlobalScheduler.instance_info (fold_left scale_up_one ps self) !! k
  = if decide (k ∈ ps.*1 /\ k ∉ GlobalScheduler.instance_id_set self)
    then Some (placeholder k)
    else GlobalScheduler.instance_info self !! k.
Proof.
  revert self. induction ps as [|[i a] ps IH]; intros self.
  - destruct (decide _) as [[H _]|_]; [by apply elem_of_nil in H|done].
  - cbn [fold_left]. rewrite IH. rewrite fmap_cons. cbn [fst].
    destruct (decide (i ∈ GlobalScheduler.instance_id_set self)) as [Hi|Hi].
    + rewrite (scale_up_one_known self i a Hi).
      apply decide_ext. set_solver.
    + destruct (scale_up_one_new self i a Hi) as [-> ->].
      destruct (decide (k = i)) as [->|Hki].
      * rewrite decide_False by set_solver. rewrite decide_True by set_solver.
        apply lookup_insert_eq.
      * rewrite lookup_insert_ne by done.
        apply decide_ext. set_solver.
Qed.



Lemma scale_down_one_member (self : GlobalScheduler.t) (i : string) :
  i ∈ GlobalScheduler.instance_id_set self ->
  exists self',
    GS.scale_down_one self i = Some self' /\
    GlobalScheduler.instance_id_set self' = GlobalScheduler.instance_id_set self ∖ {[i]} /\
    GlobalScheduler.instance_info self' = delete i (GlobalScheduler.instance_info self) /\
    GlobalScheduler.num_instances self'
      = Z.of_nat (size (GlobalScheduler.instance_id_set self')).
Proof.
  intros Hi. unfold GS.scale_down_one. rewrite decide_True by done.
  destruct (GlobalScheduler.instance_info self !! i) as [v|] eqn:E;
    unfold GS._remove_instance; simpl; rewrite decide_True by done;
    eexists; (split; [done|]); simpl; repeat split.
  symmetry. by apply delete_id.
Qed.

Lemma scale_down_one_unknown (self : GlobalScheduler.t) (i : string) :
  i ∉ GlobalScheduler.instance_id_set self -> GS.scale_down_one self i = Some self.
Proof. intros Hi. unfold GS.scale_down_one. by rewrite decide_False. Qed.

Lemma scale_down_fold (ids : list string) (self : GlobalScheduler.t) :
  exists self',
    foldl (fun acc ins_id => self ← acc; GS.scale_down_one self ins_id) (Some self) ids
      = Some self' /\
    GlobalScheduler.instance_id_set self'
      = GlobalScheduler.instance_id_set self ∖ list_to_set ids /\
    (forall k, GlobalScheduler.instance_info self' !! k
       = if decide (k ∈ ids /\ k ∈ GlobalScheduler.instance_id_set self)
         then None else GlobalScheduler.instance_info self !! k) /\
    (GlobalScheduler.num_instances self
       = Z.of_nat (size (GlobalScheduler.instance_id_set self)) ->
     GlobalScheduler.num_instances self'
       = Z.of_nat (size (GlobalScheduler.instance_id_set self'))) /\
    ((forall i, i ∈ ids -> i ∉ GlobalScheduler.instance_id_set self) -> self' = self).
Proof.
  revert self. induction ids as [|i ids IH]; intros self.
  - exists self. cbn [foldl]. split; [done|]. split; [set_solver|]. split; [|done].
    intros k. destruct (decide _) as [[H _]|_]; [by apply elem_of_nil in H|done].
  - cbn [foldl]. cbn [mbind option_bind].
    destruct (decide (i ∈ GlobalScheduler.instance_id_set self)) as [Hi|Hi].
    + destruct (scale_down_one_member self i Hi) as (self1 & -> & Hset1 & Hinfo1 & Hnum1).
      destruct (IH self1) as (self' & -> & Hset & Hinfo & Hnum & _).
      exists self'. split; [done|]. split; [rewrite Hset, Hset1; set_solver|].
      split; [|split; [auto|]].
      * intros k. rewrite Hinfo, Hset1, Hinfo1.
        destruct (decide (k = i)) as [->|Hki].
        -- rewrite decide_False by set_solver. rewrite decide_True by set_solver.
           apply lookup_delete_eq.
        -- rewrite lookup_delete_ne by done. apply decide_ext. set_solver.
      * intros Hall. exfalso. apply (Hall i); [by left|done].
    + rewrite (scale_down_one_unknown self i Hi).
      destruct (IH self) as (self' & -> & Hset & Hinfo & Hnum & Hsame).
      exists self'. split; [done|]. split; [rewrite Hset; set_solver|].
      split; [|split; [done|]].
      * intros k. rewrite Hinfo. apply decide_ext. set_solver.
      * intros Hall. apply Hsame. intros j Hj. apply Hall. by right.
Qed.

(** X14.  [scale_down] returns, with the resulting [num_instances]: the
    ids of the argument are no longer members; the table loses the entry
    of each id that was a member and keeps every other entry, also that of
    an id of the argument that was not a member; when [num_instances]
    counted the members before, it does after; and the same call again
    changes nothing. *)
Theorem scale_down_rule (self : GlobalScheduler.t) (instance_id : GlobalScheduler.ids_argument) :
  let ids := GlobalScheduler.instance_ids_of instance_id in
  exists self',
    GS.scale_down self instance_id = Some (self', GlobalScheduler.num_instances self') /\
    GlobalScheduler.instance_id_set self'
      = GlobalScheduler.instance_id_set self ∖ list_to_set ids /\
    (forall k, GlobalScheduler.instance_info self' !! k
       = if decide (k ∈ ids /\ k ∈ GlobalScheduler.instance_id_set self)
         then None else GlobalScheduler.instance_info self !! k) /\
    (GlobalScheduler.num_instances self
       = Z.of_nat (size (GlobalScheduler.instance_id_set self)) ->
     GlobalScheduler.num_instances self'
       = Z.of_nat (size (GlobalScheduler.instance_id_set self'))) /\
    GS.scale_down self' instance_id = Some (self', GlobalScheduler.num_instances self').
Proof.
  cbn zeta. unfold GS.scale_down.
  destruct (scale_down_fold (GlobalScheduler.instance_ids_of instance_id) self)
    as (self' & Hfold & Hset & Hinfo & Hnum & _).
  exists self'. rewrite Hfold. simpl. split; [done|]. split; [done|].
  split; [done|]. split; [done|].
  destruct (scale_down_fold (GlobalScheduler.instance_ids_of instance_id) self')
    as (self'' & Hfold' & _ & _ & _ & Hsame).
  rewrite Hfold'. simpl. rewrite Hsame; [done|].
  intros i Hi. rewrite Hset. set_solver.
Qed.

Lemma scheduler_eq (s1 s2 : GlobalScheduler.t) :
  GlobalScheduler.num_instances s1 = GlobalScheduler.num_instances s2 ->
  GlobalScheduler.instance_id_set s1 = GlobalScheduler.instance_id_set s2 ->
  GlobalScheduler.instance_info s1 = GlobalScheduler.instance_info s2 ->
  s1 = s2.
Proof. destruct s1, s2. simpl. by intros -> -> ->. Qed.

(** X15.  On a coherent scheduler, [scale_up] of ids that are not members,
    with an argument for each, followed by [scale_down] of the same ids,
    gives back the scheduler and its [num_instances]. *)
Theorem scale_up_then_scale_down (self : GlobalScheduler.t) (ins_ids : list string)
    (instance_args : list InstanceArgs) :
  coherent self ->
  (forall i, i ∈ ins_ids -> i ∉ GlobalScheduler.instance_id_set self) ->
  (length ins_ids <= length instance_args)%nat ->
  GS.scale_down
    (fst (scale_up self (GlobalScheduler.ManyIds ins_ids) instance_args))
    (GlobalScheduler.ManyIds ins_ids)
  = Some (self, GlobalScheduler.num_instances self).
Proof.
  intros [Hnum Hdom] Hfresh Hlen. unfold GlobalScheduler.scale_up, GS.scale_down. simpl.
  pose proof (fst_zip ins_ids instance_args Hlen) as Hfst.
  set (self1 := fold_left scale_up_one (zip ins_ids instance_args) self).
  assert (Hset1 : GlobalScheduler.instance_id_set self1
                  = GlobalScheduler.instance_id_set self ∪ list_to_set ins_ids).
  { unfold self1. by rewrite scale_up_fold_members, Hfst. }
  destruct (scale_down_fold ins_ids self1) as (self2 & -> & Hset2 & Hinfo2 & Hnum2 & _).
  simpl.
  assert (Hset : GlobalScheduler.instance_id_set self2 = GlobalScheduler.instance_id_set self).
  { rewrite Hset2, Hset1. set_solver. }
  assert (Heq : self2 = self).
  { apply scheduler_eq; [|done|].
    - rewrite Hnum2, Hset; [done|]. by apply scale_up_fold_count.
    - apply map_eq. intros k. rewrite Hinfo2, Hset1. unfold self1.
      rewrite scale_up_fold_lookup, Hfst.
      destruct (decide (k ∈ ins_ids)) as [Hk|Hk].
      + rewrite decide_True by set_solver. symmetry.
        apply not_elem_of_dom. rewrite Hdom. by apply Hfresh.
      + rewrite decide_False by tauto. rewrite decide_False by tauto. done. }
  by rewrite Heq.
Qed.

(** X16.  The scheduler is coherent when created, and
    [update_instance_infos], [scale_up] and [scale_down] keep it so:
    [num_instances] counts [instance_id_set] and the table has an entry
    for exactly its ids. *)
Theorem coherent_invariant :
  coherent GlobalScheduler.init /\
  (forall self, coherent self ->
     (forall instance_infos,
        coherent (GlobalScheduler.update_instance_infos self instance_infos)) /\
     (forall instance_id (instance_args : list InstanceArgs),
        coherent (fst (scale_up self instance_id instance_args))) /\
     (forall instance_id,
        exists self',
          GS.scale_down self instance_id
            = Some (self', GlobalScheduler.num_instances self') /\
          coherent self')).
Proof.
  split; [split; [done|simpl; apply dom_empty_L]|].
  intros self [Hnum Hdom]. split; [|split].
  - intros infos. destruct (update_instance_infos_members self infos) as [Hset Hn].
    split; [by rewrite Hn, Hset|]. rewrite Hset. apply set_eq. intros k.
    rewrite elem_of_dom.
    destruct (decide (k ∈ GlobalScheduler.instance_id_set self)) as [Hk|Hk].
    + rewrite update_instance_infos_lookup by done.
      destruct (last _); [by eauto|]. split; [done|]. intros _.
      apply elem_of_dom. by rewrite Hdom.
    + rewrite update_instance_infos_other by done. rewrite <- elem_of_dom, Hdom. done.
  - intros arg args. unfold GlobalScheduler.scale_up. simpl.
    split; [by apply scale_up_fold_count|].
    apply set_eq. intros k. rewrite elem_of_dom, scale_up_fold_lookup, scale_up_fold_members.
    destruct (decide _) as [[Hk Hn]|Hn].
    + split; [|by eauto]. set_solver.
    + rewrite <- elem_of_dom, Hdom. split; [set_solver|].
      intros Hin. apply elem_of_union in Hin as [Hin|Hin]; [done|].
      apply elem_of_list_to_set in Hin. apply dec_stable. intros Hk. apply Hn. done.
  - intros arg. unfold GS.scale_down.
    destruct (scale_down_fold (GlobalScheduler.instance_ids_of arg) self)
      as (self2 & Hfold & Hset & Hinfo & Hn & _).
    rewrite Hfold. simpl. exists self2. split; [done|].
    split; [by apply Hn|]. apply set_eq. intros k.
    rewrite elem_of_dom, Hinfo, Hset.
    destruct (decide _) as [[Hk Hin]|Hn'].
    + split; [by intros [? ?]|]. set_solver.
    + rewrite <- elem_of_dom, Hdom. split; [|set_solver].
      intros Hin. apply elem_of_difference. split; [done|].
      intros Hk. apply elem_of_list_to_set in Hk. tauto.
Qed.

End MembershipFacts.

(** ** The candidates of the planner *)







(** The call returns the dict it has built exactly when [avg_pend_time]
    raises nothing. *)
Lemma get_redispatch_dst_infos_call_returns (instance_info_values : list InstanceInfo) :
  ((forall i, i ∈ instance_info_values -> avg_pending_defined i) ->
   GS.get_redispatch_dst_infos_call instance_info_values
   = Some (GS.get_redispatch_dst_infos instance_info_values)) /\
  ((exists i, i ∈ instance_info_values /\ ~ avg_pending_defined i) ->
   GS.get_redispatch_dst_infos_call instance_info_values = None).
Proof.
  unfold GS.get_redispatch_dst_infos_call. split.
  - intros Hlog. by destruct (avg_pend_time_is_Some _ Hlog) as [avg ->].
  - intros Hraise. by rewrite (avg_pend_time_None _ Hraise).
Qed.


(** ** What the planner places *)

Lemma iteration_cases (master : string) (request : Request)
    (c : GlobalScheduler.Candidates) (a : list string) (plans : GlobalScheduler.Plans)
    (st' : GlobalScheduler.loop_state) :
  GlobalScheduler.iteration master request c a plans = Some st' ->
  st' = GlobalScheduler.Stopped c plans \/
  exists target,
    target ∈ a /\ is_Some (GlobalScheduler.getitem c target) /\
    GlobalScheduler.candidates_of st' = GlobalScheduler.commit target (n_blocks request) c /\
    GlobalScheduler.plans_of st'
      = if negb (String.eqb target master)
        then GlobalScheduler.append_plan target request plans else plans.
Proof.
  unfold GlobalScheduler.iteration.
  destruct (GlobalScheduler.entries c a) as [resolved|] eqn:Hr; [|done]. simpl.
  destruct (GlobalScheduler.choose request resolved) as [choice|] eqn:Hc; [|done]. simpl.
  destruct choice as [[b target]|]; [|intros [= <-]; by left].
  intros H. right. exists (fst target).
  apply choose_Some in Hc as [Ht _]. apply entries_Some in Hr as [Hfst Hget].
  rewrite Forall_forall in Hget.
  split; [rewrite <- Hfst; apply list_elem_of_fmap; eauto|].
  split; [rewrite (Hget target Ht); eauto|].
  destruct (length _ =? 0)%nat; injection H as <-; done.
Qed.

(** Induction over the iterations of the loop: a relation between the
    dicts before and after that holds when nothing is done, and that one
    booking on a key of the candidates carries, holds of the loop. *)
Lemma loop_steps (master : string)
    (R : list Request -> GlobalScheduler.Candidates * GlobalScheduler.Plans ->
         GlobalScheduler.Candidates * GlobalScheduler.Plans -> Prop) :
  (forall requests s, R requests s s) ->
  (forall request requests c plans target s',
     is_Some (GlobalScheduler.getitem c target) ->
     R requests
       (GlobalScheduler.commit target (n_blocks request) c,
        if negb (String.eqb target master)
        then GlobalScheduler.append_plan target request plans else plans) s' ->
     R (request :: requests) (c, plans) s') ->
  forall requests st st',
    GlobalScheduler.loop master requests st = Some st' ->
    R requests (GlobalScheduler.candidates_of st, GlobalScheduler.plans_of st)
      (GlobalScheduler.candidates_of st', GlobalScheduler.plans_of st').
Proof.
  intros Hstay Hstep requests.
  induction requests as [|r requests IH]; intros st st' Hloop.
  - destruct st; injection Hloop as <-; apply Hstay.
  - destruct st as [c a p|c p]; [|injection Hloop as <-; apply Hstay].
    simpl in Hloop.
    destruct (GlobalScheduler.iteration master r c a p) as [st1|] eqn:Hit; [|done].
    simpl in Hloop.
    destruct (iteration_cases _ _ _ _ _ _ Hit) as [->|(t & _ & Hk & Hc & Hp)].
    + rewrite loop_Stopped in Hloop. injection Hloop as <-. apply Hstay.
    + simpl. apply (Hstep r requests c p t); [done|]. rewrite <- Hc, <- Hp. by apply IH.
Qed.

Lemma append_plan_keys (t : string) (r : Request) (plans : GlobalScheduler.Plans) :
  (GlobalScheduler.append_plan t r plans).*1
  = if decide (t ∈ plans.*1) then plans.*1 else plans.*1 ++ [t].
Proof.
  induction plans as [|[k rs] plans IH].
  - destruct (decide _) as [H|_]; [by apply elem_of_nil in H|done].
  - cbn [GlobalScheduler.append_plan]. rewrite (fmap_cons fst (k, rs) plans). cbn [fst].
    destruct (String.eqb_spec k t) as [->|Hne].
    + rewrite decide_True; [done|]. by left.
    + rewrite fmap_cons, IH. cbn [fst]. destruct (decide (t ∈ plans.*1)) as [Hk|Hk].
      * rewrite decide_True; [done|]. by right.
      * rewrite decide_False; [done|]. intros H.
        apply elem_of_cons in H as [H|H]; congruence.
Qed.

Lemma append_plan_NoDup (t : string) (r : Request) (plans : GlobalScheduler.Plans) :
  NoDup plans.*1 -> NoDup (GlobalScheduler.append_plan t r plans).*1.
Proof.
  intros Hnd. rewrite append_plan_keys. destruct (decide _) as [Hk|Hk]; [done|].
  apply NoDup_app. split; [done|]. split; [|apply NoDup_singleton].
  intros x Hx Hx'. apply list_elem_of_singleton in Hx'. by subst.
Qed.

Lemma getitem_append_plan_eq (t : string) (r : Request) (plans : GlobalScheduler.Plans) :
  PyMore.getitem (GlobalScheduler.append_plan t r plans) t
  = Some (requests_at plans t ++ [r]).
Proof.
  unfold requests_at. induction plans as [|[k rs] plans IH]; simpl.
  - by rewrite String.eqb_refl.
  - destruct (String.eqb_spec k t) as [->|Hne]; simpl.
    + by rewrite String.eqb_refl.
    + destruct (String.eqb_spec k t); [done|]. apply IH.
Qed.

Lemma getitem_append_plan_ne (t k : string) (r : Request) (plans : GlobalScheduler.Plans) :
  k <> t ->
  PyMore.getitem (GlobalScheduler.append_plan t r plans) k = PyMore.getitem plans k.
Proof.
  intros Hkt. induction plans as [|[k0 rs] plans IH]; simpl.
  - destruct (String.eqb_spec t k); [congruence|done].
  - destruct (String.eqb_spec k0 t) as [->|Hne]; simpl.
    + destruct (String.eqb_spec t k); [congruence|done].
    + destruct (String.eqb_spec k0 k); [done|]. apply IH.
Qed.

Lemma requests_at_append_plan_eq (t : string) (r : Request)
    (plans : GlobalScheduler.Plans) :
  requests_at (GlobalScheduler.append_plan t r plans) t = requests_at plans t ++ [r].
Proof. unfold requests_at at 1. by rewrite getitem_append_plan_eq. Qed.

Lemma requests_at_append_plan_ne (t k : string) (r : Request)
    (plans : GlobalScheduler.Plans) :
  k <> t -> requests_at (GlobalScheduler.append_plan t r plans) k = requests_at plans k.
Proof. intros Hk. unfold requests_at. by rewrite getitem_append_plan_ne. Qed.

Lemma append_plan_concat (t : string) (r : Request) (plans : GlobalScheduler.Plans) :
  concat (GlobalScheduler.append_plan t r plans).*2 ≡ₚ r :: concat plans.*2.
Proof.
  induction plans as [|[k rs] plans IH]; [done|]. cbn [GlobalScheduler.append_plan].
  destruct (String.eqb k t); rewrite !fmap_cons; cbn [snd concat].
  - rewrite <- app_assoc. symmetry. apply Permutation_middle.
  - rewrite IH. symmetry. apply Permutation_middle.
Qed.

Lemma append_plan_nonempty (t : string) (r : Request) (plans : GlobalScheduler.Plans) :
  Forall (fun p => snd p <> []) plans ->
  Forall (fun p => snd p <> []) (GlobalScheduler.append_plan t r plans).
Proof.
  induction 1 as [|[k rs] plans Hrs Hall IH]; cbn [GlobalScheduler.append_plan].
  - constructor; [done|constructor].
  - destruct (String.eqb k t); constructor; try done.
    simpl. by destruct rs.
Qed.

Lemma commit_keys (t : string) (n : Z) (c : GlobalScheduler.Candidates) :
  (GlobalScheduler.commit t n c).*1 = c.*1.
Proof.
  rewrite <- (totals_keys (GlobalScheduler.commit t n c)), commit_totals.
  apply totals_keys.
Qed.





Lemma loop_keys (master : string) (requests : list Request)
    (st st' : GlobalScheduler.loop_state) :
  GlobalScheduler.loop master requests st = Some st' ->
  (GlobalScheduler.candidates_of st').*1 = (GlobalScheduler.candidates_of st).*1 /\
  (NoDup (GlobalScheduler.plans_of st).*1 -> NoDup (GlobalScheduler.plans_of st').*1) /\
  (forall k, k ∈ (GlobalScheduler.plans_of st').*1 ->
     k ∈ (GlobalScheduler.plans_of st).*1 \/
     (k <> master /\ k ∈ (GlobalScheduler.candidates_of st).*1)) /\
  (Forall (fun p => snd p <> []) (GlobalScheduler.plans_of st) ->
   Forall (fun p => snd p <> []) (GlobalScheduler.plans_of st')).
Proof.
  intros Hloop.
  refine (loop_steps master
    (fun _ s s' =>
       (fst s').*1 = (fst s).*1 /\
       (NoDup (snd s).*1 -> NoDup (snd s').*1) /\
       (forall k, k ∈ (snd s').*1 ->
          k ∈ (snd s).*1 \/ (k <> master /\ k ∈ (fst s).*1)) /\
       (Forall (fun p => snd p <> []) (snd s) -> Forall (fun p => snd p <> []) (snd s')))
    _ _ requests st st' Hloop).
  - intros _ [c p]. simpl. split; [done|]. split; [done|]. split; [by left|done].
  - intros r rs c p t [c' p'] Hk. cbn [fst snd]. intros (H1 & H2 & H3 & H4).
    rewrite commit_keys in H1, H3.
    assert (Ht : t ∈ c.*1).
    { destruct Hk as [v Hv]. apply getitem_elem_of in Hv.
      apply list_elem_of_fmap. by exists (t, v). }
    destruct (String.eqb_spec t master) as [->|Hne]; cbn [negb] in *; [done|].
    split; [done|]. split; [|split].
    + intros Hnd. by apply H2, append_plan_NoDup.
    + intros k Hkp. destruct (H3 k Hkp) as [Hin|Hin]; [|by right].
      rewrite append_plan_keys in Hin. destruct (decide _); [by left|].
      apply elem_of_app in Hin as [Hin|Hin]; [by left|].
      apply list_elem_of_singleton in Hin as ->. by right.
    + intros Hall. by apply H4, append_plan_nonempty.
Qed.

Lemma loop_placed (master : string) (requests : list Request)
    (st st' : GlobalScheduler.loop_state) :
  GlobalScheduler.loop master requests st = Some st' ->
  (exists placed, placed `sublist_of` requests /\
     concat (GlobalScheduler.plans_of st').*2
       ≡ₚ concat (GlobalScheduler.plans_of st).*2 ++ placed) /\
  (forall k, exists extra, extra `sublist_of` requests /\
     requests_at (GlobalScheduler.plans_of st') k
       = requests_at (GlobalScheduler.plans_of st) k ++ extra).
Proof.
  intros Hloop.
  refine (loop_steps master
    (fun rs s s' =>
       (exists placed, placed `sublist_of` rs /\
          concat (snd s').*2 ≡ₚ concat (snd s).*2 ++ placed) /\
       (forall k, exists extra, extra `sublist_of` rs /\
          requests_at (snd s') k = requests_at (snd s) k ++ extra))
    _ _ requests st st' Hloop).
  - intros rs [c p]. simpl. split.
    + exists []. split; [apply sublist_nil_l|by rewrite app_nil_r].
    + intros k. exists []. split; [apply sublist_nil_l|by rewrite app_nil_r].
  - intros r rs c p t [c' p'] _. cbn [fst snd]. intros [(placed & Hsub & Hperm) Hat].
    destruct (String.eqb_spec t master) as [->|Hne]; cbn [negb] in *.
    + split.
      * exists placed. split; [by apply sublist_cons|done].
      * intros k. destruct (Hat k) as (extra & He & Heq).
        exists extra. split; [by apply sublist_cons|done].
    + split.
      * exists (r :: placed). split; [by apply sublist_skip|].
        rewrite Hperm, append_plan_concat. simpl. apply Permutation_middle.
      * intros k. destruct (Hat k) as (extra & He & Heq). rewrite Heq.
        destruct (decide (k = t)) as [->|Hkt].
        -- exists (r :: extra). split; [by apply sublist_skip|].
           rewrite requests_at_append_plan_eq. by rewrite <- app_assoc.
        -- exists extra. split; [by apply sublist_cons|].
           by rewrite requests_at_append_plan_ne.
Qed.


Lemma derive_cases (master : string) (requests : list Request)
    (c : GlobalScheduler.Candidates) :
  (GlobalScheduler.available_instance_ids c = [] /\
   GlobalScheduler.derive_redispatching_plans master requests c = Some ([], c)) \/
  (exists st,
     running (GlobalScheduler.Running c (GlobalScheduler.available_instance_ids c) []) /\
     GlobalScheduler.loop master requests
       (GlobalScheduler.Running c (GlobalScheduler.available_instance_ids c) []) = Some st /\
     GlobalScheduler.derive_redispatching_plans master requests c
       = Some (GlobalScheduler.post_process_plans (GlobalScheduler.plans_of st),
               GlobalScheduler.candidates_of st)).
Proof.
  unfold GlobalScheduler.derive_redispatching_plans.
  destruct (Nat.eqb_spec (length (GlobalScheduler.available_instance_ids c)) 0) as [E|E].
  - left. split; [by apply nil_length_inv|done].
  - right.
    assert (Hrun : running
      (GlobalScheduler.Running c (GlobalScheduler.available_instance_ids c) [])).
    { split; [done|]. intros H. by rewrite H in E. }
    destruct (loop_running master requests _ Hrun) as (st & Hst & _).
    exists st. rewrite Hst. done.
Qed.

Lemma post_process_plans_keys (plans : GlobalScheduler.Plans) :
  (GlobalScheduler.post_process_plans plans).*1 = plans.*1.
Proof. unfold GlobalScheduler.post_process_plans. by rewrite <- list_fmap_compose. Qed.

(** X18.  [derive_redispatching_plans] returns a plan whose keys are
    distinct ids of the candidates, none of them [master_instance_id],
    each with a set of request ids that is not empty; the candidates keep
    their keys in their order. *)
Theorem planner_plan_keys (master_instance_id : string) (requests : list Request)
    (candidate_instances : GlobalScheduler.Candidates) :
  exists plan c',
    GlobalScheduler.derive_redispatching_plans master_instance_id requests
      candidate_instances = Some (plan, c') /\
    NoDup plan.*1 /\
    (master_instance_id ∉ plan.*1) /\
    (forall k, k ∈ plan.*1 -> k ∈ candidate_instances.*1) /\
    (forall k s, (k, s) ∈ plan -> s <> ∅) /\
    c'.*1 = candidate_instances.*1.
Proof.
  destruct (derive_cases master_instance_id requests candidate_instances)
    as [[_ ->]|(st & _ & Hloop & ->)].
  - eexists _, _. split; [done|]. simpl. split; [constructor|].
    split; [apply not_elem_of_nil|]. split; [by intros k Hk%elem_of_nil|].
    split; [by intros k s Hk%elem_of_nil|done].
  - eexists _, _. split; [done|].
    destruct (loop_keys _ _ _ _ Hloop) as (H1 & H2 & H3 & H4). simpl in H1, H2, H3, H4.
    rewrite post_process_plans_keys. split; [apply H2; constructor|].
    split; [|split; [|split; [|done]]].
    + intros Hm. destruct (H3 _ Hm) as [Hin|[Hne _]]; [by apply elem_of_nil in Hin|done].
    + intros k Hk. destruct (H3 _ Hk) as [Hin|[_ Hin]]; [by apply elem_of_nil in Hin|done].
    + intros k s Hks. unfold GlobalScheduler.post_process_plans in Hks.
      apply list_elem_of_fmap in Hks as ([k0 rs] & [= -> ->] & Hin).
      specialize (H4 (Forall_nil_2 _)). rewrite Forall_forall in H4.
      specialize (H4 _ Hin). simpl in *. destruct rs as [|x rs]; [done|].
      unfold GlobalScheduler.post_process. rewrite fmap_cons. simpl. set_solver.
Qed.

Lemma concat_NoDup_apart {A B : Type} (f : A -> B) (ls : list (list A)) (i j : nat)
    (a b : list A) :
  NoDup (f <$> concat ls) -> i <> j -> ls !! i = Some a -> ls !! j = Some b ->
  forall x y, x ∈ a -> y ∈ b -> f x <> f y.
Proof.
  revert i j. induction ls as [|l ls IH]; intros i j Hnd Hij Hi Hj x y Hx Hy; [done|].
  simpl in Hnd. rewrite fmap_app in Hnd. apply NoDup_app in Hnd as (_ & Hd & Hnd).
  assert (Hrest : forall n c z, ls !! n = Some c -> z ∈ c -> f z ∈ f <$> concat ls).
  { intros n c z Hn Hz. apply list_elem_of_fmap. exists z. split; [done|].
    apply list_elem_of_In, in_concat. exists c.
    split; apply list_elem_of_In; [by eapply list_elem_of_lookup_2|done]. }
  destruct i as [|i], j as [|j]; simpl in Hi, Hj; [done| | |].
  - injection Hi as <-. intros Heq. apply (Hd (f x)).
    + apply list_elem_of_fmap. eauto.
    + rewrite Heq. by eapply Hrest.
  - injection Hj as <-. intros Heq. apply (Hd (f y)).
    + apply list_elem_of_fmap. eauto.
    + rewrite <- Heq. by eapply Hrest.
  - apply (IH i j); [done|congruence|done..].
Qed.

(** X19.  No request is placed twice: the lists of requests behind the
    returned plan are, together, a rearrangement of a sublist of the
    requests given, and the list of each destination is a sublist of
    them, in their order; so with distinct request ids the sets of two
    destinations of the plan share no id. *)
Theorem planner_places_once (master_instance_id : string) (requests : list Request)
    (candidate_instances : GlobalScheduler.Candidates) :
  exists plan c' plans,
    GlobalScheduler.derive_redispatching_plans master_instance_id requests
      candidate_instances = Some (plan, c') /\
    plan = GlobalScheduler.post_process_plans plans /\
    (exists placed, placed `sublist_of` requests /\ concat plans.*2 ≡ₚ placed) /\
    Forall (fun p => snd p `sublist_of` requests) plans /\
    (NoDup (request_id <$> requests) ->
     forall i j p q, i <> j -> plan !! i = Some p -> plan !! j = Some q ->
       snd p ## snd q).
Proof.
  assert (Hgoal : forall plans c',
    NoDup plans.*1 ->
    (exists placed, placed `sublist_of` requests /\ concat plans.*2 ≡ₚ [] ++ placed) ->
    (forall k, exists extra, extra `sublist_of` requests /\
       requests_at plans k = [] ++ extra) ->
    GlobalScheduler.derive_redispatching_plans master_instance_id requests
      candidate_instances = Some (GlobalScheduler.post_process_plans plans, c') ->
    exists plan c' plans,
      GlobalScheduler.derive_redispatching_plans master_instance_id requests
        candidate_instances = Some (plan, c') /\
      plan = GlobalScheduler.post_process_plans plans /\
      (exists placed, placed `sublist_of` requests /\ concat plans.*2 ≡ₚ placed) /\
      Forall (fun p => snd p `sublist_of` requests) plans /\
      (NoDup (request_id <$> requests) ->
       forall i j p q, i <> j -> plan !! i = Some p -> plan !! j = Some q ->
         snd p ## snd q)).
  { intros plans c' Hnd (placed & Hsub & Hperm) Hat Hd. simpl in Hperm.
    exists (GlobalScheduler.post_process_plans plans), c', plans.
    split; [done|]. split; [done|]. split; [by exists placed|]. split.
    - apply Forall_forall. intros [k rs] Hin. destruct (Hat k) as (extra & He & Heq).
      unfold requests_at in Heq.
      pose proof (dict_getitem_NoDup plans (k, rs) Hnd Hin) as Hget. simpl in Hget.
      rewrite Hget in Heq. simpl in Heq. by subst.
    - intros Hids i j p q Hij Hp Hq.
      unfold GlobalScheduler.post_process_plans in Hp, Hq.
      rewrite list_lookup_fmap in Hp, Hq.
      destruct (plans !! i) as [[k1 rs1]|] eqn:Hi; [|done].
      destruct (plans !! j) as [[k2 rs2]|] eqn:Hj; [|done].
      simpl in Hp, Hq. injection Hp as <-. injection Hq as <-. simpl.
      assert (Hndp : NoDup (request_id <$> concat plans.*2)).
      { rewrite Hperm. apply (sublist_NoDup _ (request_id <$> requests)); [done|].
        by apply fmap_sublist. }
      unfold GlobalScheduler.post_process. intros x Hx1 Hx2.
      apply elem_of_list_to_set, list_elem_of_fmap in Hx1 as (r1 & -> & Hr1).
      apply elem_of_list_to_set, list_elem_of_fmap in Hx2 as (r2 & Heq & Hr2).
      refine (concat_NoDup_apart request_id plans.*2 i j rs1 rs2 Hndp Hij _ _
                r1 r2 Hr1 Hr2 Heq).
      + by rewrite list_lookup_fmap, Hi.
      + by rewrite list_lookup_fmap, Hj. }
  destruct (derive_cases master_instance_id requests candidate_instances)
    as [[_ Hd]|(st & _ & Hloop & Hd)].
  - apply (Hgoal [] candidate_instances); [constructor| | |done].
    + exists []. split; [apply sublist_nil_l|done].
    + intros k. exists []. split; [apply sublist_nil_l|done].
  - destruct (loop_keys _ _ _ _ Hloop) as (_ & Hnd & _).
    destruct (loop_placed _ _ _ _ Hloop) as [Hplaced Hat].
    apply (Hgoal (GlobalScheduler.plans_of st) (GlobalScheduler.candidates_of st));
      [apply Hnd; constructor|done..].
Qed.



Lemma keeps_free_refl (c : GlobalScheduler.Candidates) : Forall2 keeps_free c c.
Proof. apply Forall_Forall2_diag, Forall_forall. intros e _. by split. Qed.

Lemma keeps_free_trans (c1 c2 c3 : GlobalScheduler.Candidates) :
  Forall2 keeps_free c1 c2 -> Forall2 keeps_free c2 c3 -> Forall2 keeps_free c1 c3.
Proof.
  apply Forall2_trans. intros x y z (Hk1 & Hz1 & Hp1) (Hk2 & Hz2 & Hp2).
  split; [congruence|]. split.
  - intros H. pose proof (Hz1 H) as Hy. subst y. by apply Hz2.
  - auto.
Qed.

Lemma commit_keeps_free (t : string) (n : Z) (c : GlobalScheduler.Candidates)
    (v : Z * Z) :
  GlobalScheduler.getitem c t = Some v -> 0 < fst v -> 0 < fst v - n ->
  Forall2 keeps_free c (GlobalScheduler.commit t n c).
Proof.
  intros Hget Hfree Hfit. induction c as [|[k [f u]] c IH]; [constructor|].
  simpl in Hget. cbn [GlobalScheduler.commit].
  destruct (String.eqb_spec k t) as [->|Hne].
  - injection Hget as <-. simpl in Hfree, Hfit. constructor; [|apply keeps_free_refl].
    unfold keeps_free, GlobalScheduler.free_of. simpl. split; [done|]. split; lia.
  - constructor; [by split|by apply IH].
Qed.

Lemma keeps_free_available (c c' : GlobalScheduler.Candidates) :
  Forall2 keeps_free c c' ->
  GlobalScheduler.available_instance_ids c' = GlobalScheduler.available_instance_ids c.
Proof.
  unfold GlobalScheduler.available_instance_ids.
  induction 1 as [|e e' c c' (Hk & Hz & Hp) _ IH]; [done|]. simpl.
  destruct (Z.ltb_spec 0 (GlobalScheduler.free_of e)) as [Hpos|Hle].
  - destruct (Z.ltb_spec 0 (GlobalScheduler.free_of e')) as [_|Hle']; [|specialize (Hp Hpos); lia].
    rewrite !fmap_cons. by rewrite IH, Hk.
  - rewrite (Hz Hle). destruct (Z.ltb_spec 0 (GlobalScheduler.free_of e)); [lia|done].
Qed.

Lemma iteration_uniform (master : string) (request : Request)
    (c : GlobalScheduler.Candidates) (a : list string) (plans : GlobalScheduler.Plans)
    (capacity : Z) (st' : GlobalScheduler.loop_state) :
  running (GlobalScheduler.Running c a plans) -> uniform c capacity ->
  GlobalScheduler.iteration master request c a plans = Some st' ->
  Forall2 keeps_free c (GlobalScheduler.candidates_of st').
Proof.
  intros [-> Hne] Hu. unfold GlobalScheduler.iteration.
  destruct (GlobalScheduler.entries c _) as [resolved|] eqn:Hr; [|done]. simpl.
  destruct (GlobalScheduler.choose request resolved) as [choice|] eqn:Hc; [|done]. simpl.
  destruct choice as [[b target]|]; [|intros [= <-]; apply keeps_free_refl].
  destruct (planner_choice_admissible request c capacity resolved b target Hr Hc)
    as [Hget Hfit].
  specialize (Hfit (or_intror Hu)).
  assert (Hfree : 0 < GlobalScheduler.free_of target).
  { apply choose_Some in Hc as [Ht _]. destruct Hu as [Hnd _].
    rewrite (entries_available c Hnd) in Hr. injection Hr as <-.
    apply elem_of_filter in Ht as [_ Ht]. lia. }
  pose proof (commit_keeps_free (fst target) (n_blocks request) c (snd target)
                Hget Hfree Hfit) as Hkeep.
  destruct (length _ =? 0)%nat; intros [= <-]; exact Hkeep.
Qed.

Lemma loop_uniform (master : string) (requests : list Request) (capacity : Z)
    (st st' : GlobalScheduler.loop_state) :
  running st -> uniform (GlobalScheduler.candidates_of st) capacity ->
  GlobalScheduler.loop master requests st = Some st' ->
  Forall2 keeps_free (GlobalScheduler.candidates_of st) (GlobalScheduler.candidates_of st').
Proof.
  revert st. induction requests as [|r requests IH]; intros st Hrun Hu Hloop.
  - destruct st; injection Hloop as <-; apply keeps_free_refl.
  - destruct st as [c a p|c p]; [|injection Hloop as <-; apply keeps_free_refl].
    simpl in Hloop.
    destruct (iteration_running master r c a p Hrun) as (st1 & Hit & Hrun1 & Ht1).
    rewrite Hit in Hloop. simpl in Hloop.
    apply (keeps_free_trans _ (GlobalScheduler.candidates_of st1)).
    + by apply (iteration_uniform master r c a p capacity).
    + apply IH; [done| |done]. by apply (totals_uniform c).
Qed.

(** X21.  On candidates with the same [free + used] at every id,
    [derive_redispatching_plans] books a request only where it leaves
    free blocks: at return an entry that had no free blocks is as it was,
    an entry that had free blocks still has some, and the ids with free
    blocks are those there were at entry. *)
Theorem planner_keeps_free (master_instance_id : string) (requests : list Request)
    (candidate_instances : GlobalScheduler.Candidates) (capacity : Z) :
  uniform candidate_instances capacity ->
  exists plan c',
    GlobalScheduler.derive_redispatching_plans master_instance_id requests
      candidate_instances = Some (plan, c') /\
    uniform c' capacity /\
    Forall2 keeps_free candidate_instances c' /\
    GlobalScheduler.available_instance_ids c'
      = GlobalScheduler.available_instance_ids candidate_instances.
Proof.
  intros Hu.
  destruct (derive_cases master_instance_id requests candidate_instances)
    as [[_ ->]|(st & Hrun & Hloop & ->)].
  - eexists _, _. split; [done|]. split; [done|]. split; [apply keeps_free_refl|done].
  - eexists _, _. split; [done|].
    destruct (loop_running master_instance_id requests _ Hrun) as (st2 & Hst2 & _ & Ht).
    rewrite Hloop in Hst2. injection Hst2 as <-. simpl in Ht.
    pose proof (loop_uniform master_instance_id requests capacity _ st Hrun Hu Hloop)
      as Hkeep.
    simpl in Hkeep. split; [by apply (totals_uniform candidate_instances)|].
    split; [done|]. by apply keeps_free_available.
Qed.

(** ** The other policies and methods on concrete inputs *)

Lemma Flood_dispatch_rule_witness :
  exists id count,
    Dispatch.Flood_dispatch [("a", 3); ("b", 7); ("c", 7)]%string = Some id /\
    first_greatest_among (fun _ => True) snd
      [("a", 3); ("b", 7); ("c", 7)]%string (id, count).
Proof.
  destruct (Flood_dispatch_rule [("a", 3); ("b", 7); ("c", 7)]%string) as [_ H].
  - compute_done.
  - by apply H.
Defined.

Lemma Balanced_dispatch_rule_witness :
  exists id count,
    Dispatch.Balanced_dispatch [("a", 3); ("b", 1); ("c", 1)]%string = Some id /\
    first_least_among (fun _ => True) snd
      [("a", 3); ("b", 1); ("c", 1)]%string (id, count).
Proof.
  destruct (Balanced_dispatch_rule [("a", 3); ("b", 1); ("c", 1)]%string) as [_ H].
  - compute_done.
  - by apply H.
Defined.

Lemma random_choice_from_top_k_rule_witness :
  Dispatch.random_choice_from_top_k 5 Example.quiet_fleet 2
  = Example.quiet_fleet !! 1%nat.
Proof.
  destruct (random_choice_from_top_k_rule 5 Example.quiet_fleet 2) as [_ H].
  destruct H as [_ H]; [by vm_compute|]. exact H.
Defined.

Lemma Queue_dispatch_rule_witness :
  exists x,
    Dispatch.Queue_dispatch 1 Example.one_waiting_fleet 1 = Some (instance_id x) /\
    x ∈ Example.one_waiting_fleet /\
    Z.of_nat (length (List.filter
      (fun y => num_waiting_requests y <? num_waiting_requests x)
      Example.one_waiting_fleet)) < 1.
Proof.
  destruct (Queue_dispatch_rule 1 Example.one_waiting_fleet 1) as [_ H].
  apply H; [done|lia].
Defined.

Lemma Load_dispatch_rule_witness :
  exists x,
    Dispatch.Load_dispatch migration_load_metric 0
      [Example.loaded_source; Example.light_destination] 1 = Some (instance_id x) /\
    x ∈ [Example.loaded_source; Example.light_destination] /\
    Z.of_nat (length (List.filter
      (fun y => F64.ltb (migration_load_metric y) (migration_load_metric x))
      [Example.loaded_source; Example.light_destination])) < 1.
Proof.
  apply (Load_dispatch_rule migration_load_metric 0
           [Example.loaded_source; Example.light_destination] 1).
  - repeat constructor.
  - done.
  - lia.
Defined.

Lemma RoundRobin_dispatch_any_cursor_witness :
  exists target self',
    RoundRobin.dispatch {| RoundRobin.prev_instance_idx := 7 |} Example.three_keys
      = Some (target, self') /\
    target ∈ dom Example.three_keys /\
    0 <= RoundRobin.prev_instance_idx self' < Z.of_nat (size (dom Example.three_keys)).
Proof.
  destruct (RoundRobin_dispatch_any_cursor {| RoundRobin.prev_instance_idx := 7 |}
              Example.three_keys) as [_ H].
  apply H. intros E. apply (f_equal (fun m => m !! "x"%string)) in E. by vm_compute in E.
Defined.

Lemma RoundRobin_window_witness :
  exists targets self',
    RoundRobin.dispatch_many (size (dom Example.three_keys))
      {| RoundRobin.prev_instance_idx := 1 |} Example.three_keys
      = Some (targets, self') /\
    targets ≡ₚ elements (dom Example.three_keys).
Proof.
  apply (RoundRobin_window {| RoundRobin.prev_instance_idx := 1 |} Example.three_keys).
  intros E. apply (f_equal (fun m => m !! "x"%string)) in E. by vm_compute in E.
Defined.

Lemma Defrag_pair_migration_rule_witness :
  StronglySorted
    (fun a b => F64.ltb (migration_load_metric a) (migration_load_metric b) = false)
    (Balanced.sort_instance_infos
       [Example.light_destination; Example.loaded_source] true).
Proof.
  destruct (Defrag_pair_migration_rule
              [Example.light_destination; Example.loaded_source]
              [Example.light_destination]) as (_ & _ & _ & _ & H & _).
  apply H. repeat constructor.
Defined.

Lemma Balanced_within_Defrag_witness :
  Balanced.pair_migration (Example.float 3 0) [] [Example.light_destination] = [].
Proof.
  destruct (Balanced_within_Defrag (Example.float 3 0) [] [Example.light_destination])
    as (_ & _ & H).
  apply H. by left.
Defined.

Lemma pair_migration_distinct_witness :
  NoDup (Defrag.pair_migration
           [Example.loaded_source; Example.light_destination]
           [Example.light_destination]).*1 /\
  NoDup (Balanced.pair_migration (Example.float 3 0)
           [Example.loaded_source; Example.light_destination]
           [Example.light_destination]).*1.
Proof.
  destruct (pair_migration_distinct (Example.float 3 0)
              [Example.loaded_source; Example.light_destination]
              [Example.light_destination]) as [H _].
  apply H. compute_done.
Defined.

Lemma get_src_instances_head_witness :
  exists sorted_src x,
    ["b"; "a"]%string = instance_id <$> sorted_src /\
    head sorted_src = Some x /\ 0 < num_waiting_requests x.
Proof.
  destruct (get_src_instances_head Example.one_waiting_fleet ["b"; "a"]%string)
    as (sorted_src & x & Hids & _ & _ & Hhead & _ & Hpos).
  - reflexivity.
  - by exists sorted_src, x.
Defined.

Lemma update_instance_infos_last_wins_witness :
  GlobalScheduler.instance_info
    (GlobalScheduler.update_instance_infos Example.scheduler_with_a
       [Example.idle "a" 100 30 5 0 1; Example.idle "a" 100 60 5 0 2]) !! "a"%string
  = Some (Example.idle "a" 100 60 5 0 2).
Proof.
  rewrite (update_instance_infos_last_wins Example.scheduler_with_a
             [Example.idle "a" 100 30 5 0 1; Example.idle "a" 100 60 5 0 2] "a"%string).
  - reflexivity.
  - compute_done.
Defined.


Lemma scale_down_rule_witness :
  exists self',
    GS.scale_down Example.scheduler_with_a (GlobalScheduler.ManyIds ["a"; "b"]%string)
      = Some (self', GlobalScheduler.num_instances self') /\
    GlobalScheduler.num_instances self'
      = Z.of_nat (size (GlobalScheduler.instance_id_set self')).
Proof.
  destruct (scale_down_rule Example.scheduler_with_a
              (GlobalScheduler.ManyIds ["a"; "b"]%string))
    as (self' & Hd & _ & _ & Hn & _).
  exists self'. split; [exact Hd|]. apply Hn. reflexivity.
Defined.

Lemma scale_up_then_scale_down_witness :
  GS.scale_down
    (fst (GlobalScheduler.scale_up (Example.idle "" 0 0 0 0 0) Example.scheduler_with_a
            (GlobalScheduler.ManyIds ["b"; "c"]%string) [tt; tt]))
    (GlobalScheduler.ManyIds ["b"; "c"]%string)
  = Some (Example.scheduler_with_a, 1).
Proof.
  apply (scale_up_then_scale_down (Example.idle "" 0 0 0 0 0) Example.scheduler_with_a
           ["b"; "c"]%string [tt; tt]).
  - split; [reflexivity|]. unfold Example.scheduler_with_a.
    cbn [GlobalScheduler.instance_info GlobalScheduler.instance_id_set].
    apply dom_singleton_L.
  - intros i Hi.
    repeat (apply elem_of_cons in Hi as [->|Hi]); [compute_done..|].
    by apply elem_of_nil in Hi.
  - simpl. lia.
Defined.

Lemma coherent_invariant_witness :
  coherent (GlobalScheduler.update_instance_infos Example.scheduler_with_a
              [Example.idle "a" 100 30 5 0 1; Example.idle "gone" 100 10 5 0 1]).
Proof.
  destruct (coherent_invariant (InstanceArgs:=unit) (Example.idle "" 0 0 0 0 0))
    as [_ H].
  destruct (H Example.scheduler_with_a) as (Hu & _).
  - split; [reflexivity|]. unfold Example.scheduler_with_a.
    cbn [GlobalScheduler.instance_info GlobalScheduler.instance_id_set].
    apply dom_singleton_L.
  - apply Hu.
Defined.


Lemma planner_plan_keys_witness :
  exists plan c',
    GlobalScheduler.derive_redispatching_plans "m" Example.waiting_requests
      Example.master_candidates = Some (plan, c') /\
    NoDup plan.*1 /\ ("m"%string ∉ plan.*1).
Proof.
  destruct (planner_plan_keys "m" Example.waiting_requests Example.master_candidates)
    as (plan & c' & Hd & Hnd & Hm & _).
  by exists plan, c'.
Defined.

Lemma planner_places_once_witness :
  exists plan c',
    GlobalScheduler.derive_redispatching_plans "m" Example.waiting_requests
      Example.master_candidates = Some (plan, c') /\
    forall i j p q, i <> j -> plan !! i = Some p -> plan !! j = Some q ->
      snd p ## snd q.
Proof.
  destruct (planner_places_once "m" Example.waiting_requests Example.master_candidates)
    as (plan & c' & plans & Hd & _ & _ & _ & H).
  exists plan, c'. split; [exact Hd|]. apply H. compute_done.
Defined.


Lemma planner_keeps_free_witness :
  exists plan c',
    GlobalScheduler.derive_redispatching_plans "m" Example.waiting_requests
      Example.even_candidates = Some (plan, c') /\
    GlobalScheduler.available_instance_ids c'
      = GlobalScheduler.available_instance_ids Example.even_candidates.
Proof.
  destruct (planner_keeps_free "m" Example.waiting_requests Example.even_candidates 50)
    as (plan & c' & Hd & _ & _ & Ha).
  - split; [compute_done|]. intros e He.
    repeat (apply elem_of_cons in He as [->|He]); [reflexivity..|].
    by apply elem_of_nil in He.
  - by exists plan, c'.
Defined.
